(** * Talkscriber client: statistics, batch polling and live streaming

    A shallow embedding of three pieces of the Talkscriber Python client:

    - [benchmark_ttft.py]: [calculate_percentile] and the statistics
      block of [run_benchmark];
    - [talkscriber/stt/batch_client.py]: [wait_for_job_completion];
    - [python/ts_live/client.py]: [Client.on_open], [Client.on_message],
      [Client._handle_transcription], [Client.record] and
      [TranscriptionClient.__call__].

    An exception raised by the Python code is a value of [pyexn]
    returned through [result].  Times and samples are exact rationals
    ([Q]) in the modules [Benchmark], [BatchClient] and [LiveClient]:
    what is proved there does not depend on how a float rounds.  Where
    rounding, infinities or NaN decide the matter, [calculate_percentile]
    is taken in IEEE 754 binary64, the arithmetic of Python's [float]
    (module [Binary64]). *)

From Stdlib Require Import ZArith QArith Qround Lqa Lia List String SpecFloat.
From stdpp Require Import base option list sorting strings gmap.
Import ListNotations.

(** ** Python values shared by the three programs *)

(** A decoded JSON document ([response.json()], [json.dumps] input).
    [None] is [JNull]; Python's [int], [float] are [JNum]. *)
#[warnings="-register-all"] Inductive json : Type :=
| JNull
| JBool (b : bool)
| JNum (q : Q)
| JStr (s : string)
| JArr (l : list json)
| JObj (m : gmap string json).

(** [True == 1] and [False == 0] in Python. *)
Definition num_of (j : json) : option Q :=
  match j with
  | JBool b => Some (if b then 1 else 0)%Q
  | JNum q => Some q
  | _ => None
  end.

(** Python's [==] on decoded JSON. *)
Fixpoint json_eqb (a b : json) {struct a} : bool :=
  match a, b with
  | JNull, JNull => true
  | JStr s, JStr t => String.eqb s t
  | JBool x, (JBool _ | JNum _) =>
      match num_of b with
      | Some q => Qeq_bool (if x then 1 else 0) q
      | None => false
      end
  | JNum x, (JBool _ | JNum _) =>
      match num_of b with
      | Some q => Qeq_bool x q
      | None => false
      end
  | JArr l, JArr m =>
      (fix go (l : list json) (m : list json) {struct l} : bool :=
         match l, m with
         | [], [] => true
         | x :: l', y :: m' => json_eqb x y && go l' m'
         | _, _ => false
         end) l m
  | JObj l, JObj m =>
      Nat.eqb (size l) (size m) &&
      map_fold (fun k v acc =>
                  acc && match m !! k with
                         | Some v' => json_eqb v v'
                         | None => false
                         end) true l
  | _, _ => false
  end.

(** [d.get(key)]: [None] when the key is absent. *)
Definition dict_get (d : gmap string json) (key : string) : json :=
  default JNull (d !! key).

(** The exception classes the modelled code raises or lets escape. *)
Inductive exn_class : Type :=
| ExceptionC
| TimeoutErrorC
| IndexErrorC
| ValueErrorC
| StatisticsErrorC
| AttributeErrorC
| OverflowErrorC.

(** What an f-string message was built from. *)
Inductive exn_msg : Type :=
| MsgText (s : string)
| MsgJobTimedOut (timeout : Q)
| MsgJobFailed (status : json).

Record pyexn : Type := PyExn { exn_cls : exn_class; exn_payload : exn_msg }.

Inductive result (A : Type) : Type :=
| Ok (a : A)
| Raise (e : pyexn).
Arguments Ok {A} a.
Arguments Raise {A} e.

#[export] Instance result_ret : MRet result := fun A a => Ok a.
#[export] Instance result_bind : MBind result := fun A B k r =>
  match r with
  | Ok a => k a
  | Raise e => Raise e
  end.

(** [int(x)] on a float: truncation toward zero. *)
Definition py_int (x : Q) : Z := Z.quot (Qnum x) (Zpos (Qden x)).

(** [l[i]]: a negative index counts from the end, an index outside
    [-len(l) .. len(l)-1] raises [IndexError]. *)
Definition py_getitem {A : Type} (l : list A) (i : Z) : result A :=
  let n := Z.of_nat (length l) in
  let j := if (i <? 0)%Z then (n + i)%Z else i in
  if ((j <? 0) || (n <=? j))%Z
  then Raise (PyExn IndexErrorC (MsgText "list index out of range"))
  else match nth_error l (Z.to_nat j) with
       | Some x => Ok x
       | None => Raise (PyExn IndexErrorC (MsgText "list index out of range"))
       end.

(** ** benchmark_ttft.py *)
Module Benchmark.

#[export] Instance Qle_dec : RelDecision Qle.
Proof.
  intros x y. destruct (Qlt_le_dec y x) as [H|H].
  - right. apply Qlt_not_le. exact H.
  - left. exact H.
Defined.

(** [sorted(data)]: a stable merge sort by [<=]. *)
Definition sorted (data : list Q) : list Q := merge_sort Qle data.

Definition calculate_percentile (data : list Q) (percentile : Q) : result Q :=
  match data with
  | [] => Ok 0%Q
  | _ =>
    let sorted_data := sorted data in
    let len := Z.of_nat (length sorted_data) in
    let index := (inject_Z (len - 1) * percentile / 100)%Q in
    let lower := py_int index in
    let upper := (lower + 1)%Z in
    let weight := (index - inject_Z lower)%Q in
    if (len <=? upper)%Z
    then py_getitem sorted_data lower
    else
      lo ← py_getitem sorted_data lower;
      hi ← py_getitem sorted_data upper;
      Ok (lo * (1 - weight) + hi * weight)%Q
  end.

(** Builtin [min(data)]: the first smallest element, [ValueError] on
    an empty list. *)
Definition py_min (data : list Q) : result Q :=
  match data with
  | [] => Raise (PyExn ValueErrorC (MsgText "min() arg is an empty sequence"))
  | x :: rest =>
      Ok (fold_left (fun m y => if Qlt_le_dec y m then y else m) rest x)
  end.

(** Builtin [max(data)]: the first largest element. *)
Definition py_max (data : list Q) : result Q :=
  match data with
  | [] => Raise (PyExn ValueErrorC (MsgText "max() arg is an empty sequence"))
  | x :: rest =>
      Ok (fold_left (fun m y => if Qlt_le_dec m y then y else m) rest x)
  end.

Definition Qsum (data : list Q) : Q := fold_left Qplus data 0%Q.

(** [statistics.mean]. *)
Definition mean (data : list Q) : result Q :=
  match data with
  | [] => Raise (PyExn StatisticsErrorC
                   (MsgText "mean requires at least one data point"))
  | _ => Ok (Qsum data / inject_Z (Z.of_nat (length data)))%Q
  end.

(** [statistics.median]. *)
Definition median (data : list Q) : result Q :=
  match data with
  | [] => Raise (PyExn StatisticsErrorC (MsgText "no median for empty data"))
  | _ =>
    let data := sorted data in
    let n := Z.of_nat (length data) in
    if (n mod 2 =? 1)%Z
    then py_getitem data (n / 2)
    else
      let i := (n / 2)%Z in
      a ← py_getitem data (i - 1);
      b ← py_getitem data i;
      Ok ((a + b) / 2)%Q
  end.

(** A standard deviation: the literal [0] of the [else] branch, or the
    square root of a sample variance (the root is kept symbolic). *)
Inductive stdev_value : Type :=
| StdevZero
| StdevSqrt (variance : Q).

(** [statistics.stdev]: needs two data points. *)
Definition stdev (data : list Q) : result stdev_value :=
  match data with
  | [] | [_] =>
      Raise (PyExn StatisticsErrorC
               (MsgText "stdev requires at least two data points"))
  | _ =>
    let n := inject_Z (Z.of_nat (length data)) in
    let m := (Qsum data / n)%Q in
    Ok (StdevSqrt (Qsum (map (fun x => (x - m) * (x - m)) data) / (n - 1))%Q)
  end.

Record statistics : Type := Statistics {
  p50 : Q;
  p95 : Q;
  p99 : Q;
  stat_mean : Q;
  stat_median : Q;
  std_dev : stdev_value;
  min_ttft : Q;
  max_ttft : Q
}.

(** What [run_benchmark] does with the collected samples: [None] is
    the early [return False] ("No successful measurements collected!"),
    [Some s] the statistics it prints before [return True]. *)
Definition run_benchmark_statistics (ttft_measurements : list Q)
  : result (option statistics) :=
  match ttft_measurements with
  | [] => Ok None
  | _ =>
    p50 ← calculate_percentile ttft_measurements 50;
    p95 ← calculate_percentile ttft_measurements 95;
    p99 ← calculate_percentile ttft_measurements 99;
    mean ← mean ttft_measurements;
    median ← median ttft_measurements;
    std_dev ← (if (1 <? Z.of_nat (length ttft_measurements))%Z
               then stdev ttft_measurements
               else Ok StdevZero);
    min_ttft ← py_min ttft_measurements;
    max_ttft ← py_max ttft_measurements;
    Ok (Some (Statistics p50 p95 p99 mean median std_dev min_ttft max_ttft))
  end.

End Benchmark.

(** ** Python numbers: [int] and binary64 [float] *)
Module Binary64.

(** IEEE 754 binary64: 53 bits of precision, exponents below 1024.  A
    float is a [spec_float]: a signed zero, a signed infinity, NaN, or
    [S754_finite s m e] for the number [(-1)^s * m * 2^e]; the
    operations round to nearest, ties to even. *)
Definition prec : Z := 53.
Definition emax : Z := 1024.

Definition float : Type := spec_float.

Definition add (x y : float) : float := SFadd prec emax x y.
Definition sub (x y : float) : float := SFsub prec emax x y.
Definition mul (x y : float) : float := SFmul prec emax x y.
Definition div (x y : float) : float := SFdiv prec emax x y.

(** [x < y] and [x == y]: false as soon as one side is NaN. *)
Definition ltb (x y : float) : bool := SFltb x y.
Definition eqb (x y : float) : bool := SFeqb x y.

(** The float nearest to an integer. *)
Definition of_Z (z : Z) : float := binary_normalize prec emax z 0 false.

Definition zero : float := S754_zero false.
Definition one : float := of_Z 1.
Definition hundred : float := of_Z 100.
Definition inf : float := S754_infinity false.
Definition nan : float := S754_nan.

(** A decimal literal [n / 10^k] with [n] and [10^k] below [2^53]:
    the float nearest to the quotient. *)
Definition decimal (n : Z) (k : nat) : float :=
  div (of_Z n) (of_Z (10 ^ Z.of_nat k)).

Definition is_finite (x : float) : bool :=
  match x with
  | S754_zero _ | S754_finite _ _ _ => true
  | S754_infinity _ | S754_nan => false
  end.

Definition is_nan (x : float) : bool :=
  match x with
  | S754_nan => true
  | _ => false
  end.

(** [float(z)] on an [int]: [OverflowError] when the nearest float is
    out of range. *)
Definition float_of_int (z : Z) : result float :=
  match of_Z z with
  | S754_infinity _ =>
      Raise (PyExn OverflowErrorC (MsgText "int too large to convert to float"))
  | x => Ok x
  end.

(** [int(x)] on a [float]: truncation toward zero. *)
Definition int_of_float (x : float) : result Z :=
  match x with
  | S754_nan =>
      Raise (PyExn ValueErrorC (MsgText "cannot convert float NaN to integer"))
  | S754_infinity _ =>
      Raise (PyExn OverflowErrorC
               (MsgText "cannot convert float infinity to integer"))
  | S754_zero _ => Ok 0%Z
  | S754_finite s m e =>
      let a := Z.shiftl (Zpos m) e in
      Ok (if s then (- a)%Z else a)
  end.

(** A Python number as [calculate_percentile] may be given one. *)
Inductive number : Type :=
| PyInt (z : Z)
| PyFloat (x : float).

(** [a * b] with [a] an [int]. *)
Definition int_mul (a : Z) (b : number) : result number :=
  match b with
  | PyInt z => Ok (PyInt (a * z))
  | PyFloat y => x ← float_of_int a; Ok (PyFloat (mul x y))
  end.

(** [a / y] with [y] a [float] other than zero. *)
Definition true_div (a : number) (y : float) : result float :=
  match a with
  | PyInt z => x ← float_of_int z; Ok (div x y)
  | PyFloat x => Ok (div x y)
  end.

(** [x - a] with [x] a [float] and [a] an [int]. *)
Definition sub_int (x : float) (a : Z) : result float :=
  y ← float_of_int a; Ok (sub x y).

(** [list.sort] compares with [<] only and is stable; on a list without
    NaN that fixes the result, which this insertion sort computes. *)
Fixpoint insert (x : float) (l : list float) : list float :=
  match l with
  | [] => [x]
  | y :: l' => if ltb y x then y :: insert x l' else x :: y :: l'
  end.

Definition sorted (data : list float) : list float :=
  foldr insert [] data.

(** Builtin [min] and [max]: the first smallest, the first largest. *)
Definition py_min (data : list float) : result float :=
  match data with
  | [] => Raise (PyExn ValueErrorC (MsgText "min() arg is an empty sequence"))
  | x :: rest => Ok (fold_left (fun m y => if ltb y m then y else m) rest x)
  end.

Definition py_max (data : list float) : result float :=
  match data with
  | [] => Raise (PyExn ValueErrorC (MsgText "max() arg is an empty sequence"))
  | x :: rest => Ok (fold_left (fun m y => if ltb m y then y else m) rest x)
  end.

(** [calculate_percentile] of [benchmark_ttft.py] in the arithmetic it
    runs in. *)
Definition calculate_percentile (data : list float) (percentile : number)
  : result float :=
  match data with
  | [] => Ok zero
  | _ =>
    let sorted_data := sorted data in
    let len := Z.of_nat (length sorted_data) in
    scaled ← int_mul (len - 1) percentile;
    index ← true_div scaled hundred;
    lower ← int_of_float index;
    let upper := (lower + 1)%Z in
    weight ← sub_int index lower;
    if (len <=? upper)%Z
    then py_getitem sorted_data lower
    else
      lo ← py_getitem sorted_data lower;
      hi ← py_getitem sorted_data upper;
      Ok (add (mul lo (sub one weight)) (mul hi weight))
  end.

End Binary64.

(** *** The order and the integers of binary64 *)
Section Binary64Order.
Import Binary64.

(** The representation is the canonical one, as that of every binary64
    value is: a finite float has a mantissa of 53 bits, or fewer with
    the least exponent. *)
Definition well_formed (x : float) : bool := valid_binary prec emax x.

(** [m * 2^n]. *)
Definition shift (n : nat) (m : positive) : positive := Nat.iter n xO m.

(** The mantissa and the exponent of the float that is the integer [p],
    when [p] has at most 53 bits. *)
Definition mantissa (p : positive) : positive :=
  shift (Z.to_nat (prec - Zpos (digits2_pos p))) p.

Definition exponent (p : positive) : Z := (Zpos (digits2_pos p) - prec)%Z.

(** A key under which floats other than NaN compare as [<] and [==]
    have them: sign class, then exponent, then mantissa. *)
Definition key (x : float) : Z * Z * Z :=
  match x with
  | S754_nan => (0, 0, 0)%Z
  | S754_zero _ => (0, 0, 0)%Z
  | S754_infinity false => (2, 0, 0)%Z
  | S754_infinity true => (-2, 0, 0)%Z
  | S754_finite false m e => (1, e, Zpos m)%Z
  | S754_finite true m e => (-1, - e, Zneg m)%Z
  end.

Definition key_lt (a b : Z * Z * Z) : Prop :=
  (a.1.1 < b.1.1
   \/ (a.1.1 = b.1.1
       /\ (a.1.2 < b.1.2 \/ (a.1.2 = b.1.2 /\ a.2 < b.2))))%Z.

End Binary64Order.

(** ** talkscriber/stt/batch_client.py *)
Module BatchClient.

(** One call of [get_batch_job_status] as the poll loop sees it: how
    long the HTTP request takes, and the decoded status dict (the
    method is declared to return a [Dict]) or the exception the method
    raises. *)
Record fetch_reply : Type := FetchReply {
  latency : Q;
  reply : result (gmap string json)
}.

Inductive log_line : Type :=
| LogWaiting
| LogJobId (job_id : string)
| LogFetchFailed (e : pyexn)
| LogCompleted (elapsed : Q)
| LogStatus (status : json)
| LogStillProcessing (status : json).

(** The world around the loop: the wall clock (seconds), the number of
    status requests made so far, and what was printed. *)
Record world : Type := World {
  now : Q;
  polls : nat;
  stdout : list log_line
}.

(** The local variables of [wait_for_job_completion]. *)
Record locals : Type := Locals {
  start_time : Q;
  last_status : json;
  status_start_time : Q
}.

Definition time_time (w : world) : Q := now w.

Definition print (l : log_line) (w : world) : world :=
  World (now w) (polls w) (stdout w ++ [l]).

(** [time.sleep(secs)]: [ValueError] on a negative length. *)
Definition time_sleep (secs : Q) (w : world) : result world :=
  if Qlt_le_dec secs 0
  then Raise (PyExn ValueErrorC (MsgText "sleep length must be non-negative"))
  else Ok (World (now w + secs) (polls w) (stdout w)).

Inductive iteration : Type :=
| Return (job_status : gmap string json) (w : world)
| Raised (e : pyexn) (w : world)
| Continue (l : locals) (w : world).

Definition failure_statuses : list json :=
  [JStr "FAILED_TS_TRANSCRIBE"; JStr "FAILED"; JStr "FAILED_TRANSCRIBE"].

Section Poll.

(** The status service: the reply to the [n]-th request. *)
Variable server : nat -> fetch_reply.

Definition get_batch_job_status (w : world)
  : result (gmap string json) * world :=
  let r := server (polls w) in
  (reply r, World (now w + latency r) (S (polls w)) (stdout w)).

(** [time.sleep(poll_interval)] then the next turn of the loop. *)
Definition sleep_then_continue (poll_interval : Q) (l : locals) (w : world)
  : iteration :=
  match time_sleep poll_interval w with
  | Ok w' => Continue l w'
  | Raise e => Raised e w
  end.

(** One turn of [while True]. *)
Definition loop_body (poll_interval timeout : Q) (l : locals) (w : world)
  : iteration :=
  let elapsed_time := (time_time w - start_time l)%Q in
  if Qlt_le_dec timeout elapsed_time
  then Raised (PyExn ExceptionC (MsgJobTimedOut timeout)) w
  else
    let (r, w) := get_batch_job_status w in
    match r with
    | Raise e =>
        sleep_then_continue poll_interval l (print (LogFetchFailed e) w)
    | Ok job_status =>
        let current_status := dict_get job_status "status" in
        if json_eqb current_status (JStr "DONE")
        then
          let elapsed := (time_time w - start_time l)%Q in
          Return job_status (print (LogCompleted elapsed) w)
        else if existsb (json_eqb current_status) failure_statuses
        then Raised (PyExn ExceptionC (MsgJobFailed current_status)) w
        else
          let (l, w) :=
            if negb (json_eqb current_status (last_status l))
            then (Locals (start_time l) current_status (time_time w),
                  print (LogStatus current_status) w)
            else if Qle_bool 60 (time_time w - status_start_time l)
            then (Locals (start_time l) (last_status l) (time_time w),
                  print (LogStillProcessing current_status) w)
            else (l, w) in
          sleep_then_continue poll_interval l w
    end.

Inductive outcome : Type :=
| Returned (job_status : gmap string json) (w : world)
| Failed (e : pyexn) (w : world)
| StillPolling (l : locals) (w : world).

(** [fuel] turns of the loop. *)
Fixpoint poll_loop (fuel : nat) (poll_interval timeout : Q)
    (l : locals) (w : world) : outcome :=
  match fuel with
  | O => StillPolling l w
  | S fuel' =>
      match loop_body poll_interval timeout l w with
      | Return job_status w' => Returned job_status w'
      | Raised e w' => Failed e w'
      | Continue l' w' => poll_loop fuel' poll_interval timeout l' w'
      end
  end.

Definition wait_for_job_completion (fuel : nat) (job_id : string)
    (poll_interval timeout : Q) (w : world) : outcome :=
  let start_time := time_time w in
  let last_status := JNull in
  let status_start_time := time_time w in
  let w := print LogWaiting w in
  let w := print (LogJobId job_id) w in
  poll_loop fuel poll_interval timeout
    (Locals start_time last_status status_start_time) w.

End Poll.

End BatchClient.

(** ** python/ts_live/client.py *)
Module LiveClient.

Record ServerConfig : Type := mkServerConfig {
  host : string;
  port : Z;
  api_key : string;
  multilingual : bool;
  language : option string;
  translate : bool
}.

Record AudioConfig : Type := mkAudioConfig {
  chunk_size : Z;
  channels : Z;
  rate : Z;
  max_record_time : Z
}.

Definition default_audio_config : AudioConfig := mkAudioConfig 1024 1 16000 60000.

Record TranscriptionSegment : Type := mkSegment {
  text : string;
  seg_start : Q;
  seg_end : Q
}.

Record ServerMessage : Type := mkServerMessage {
  msg_session_id : option string;
  msg_status : option string;
  msg_message : option string;
  msg_segments : option (list TranscriptionSegment);
  msg_language : option string;
  msg_language_confidence : option Q
}.

(** What goes out on the socket: the text frame carries the document
    given to [json.dumps], the binary frame the audio of one microphone
    chunk (its float32 re-encoding is not modelled). *)
Inductive frame : Type :=
| TextFrame (payload : json)
| BinaryFrame (audio : list Byte.byte).

Inductive console_op : Type :=
| Print (line : string)
| ClearScreen
| PrintWrapped (text : string).

(** The socket as the [websocket-client] library drives it:
    [run_forever] connects, calls [on_open] once, then [on_message] for
    every inbound text frame until the connection is closed. *)
Inductive socket_phase : Type :=
| Connecting
| Open
| Closed.

(** Where the foreground thread is in [TranscriptionClient.__call__]:
    spinning on [is_recording], inside [Client.record] (with its counter
    [n_audio_file]), or finished. *)
Inductive main_phase : Type :=
| WaitingForReady
| Recording (n_audio_file : nat)
| Finished.

(** The fields of [Client] together with the socket, the console and
    the chunk files written so far. *)
Record Client : Type := mkClient {
  config : ServerConfig;
  audio_config : AudioConfig;
  session_id : string;
  is_recording : bool;
  is_waiting : bool;
  last_server_response_time : option Q;
  recorded_frames : list Byte.byte;
  socket : socket_phase;
  sent : list frame;
  console : list console_op;
  chunk_files : list (nat * list Byte.byte)
}.

Definition with_console (ops : list console_op) (c : Client) : Client :=
  mkClient (config c) (audio_config c) (session_id c) (is_recording c)
    (is_waiting c) (last_server_response_time c) (recorded_frames c)
    (socket c) (sent c) (console c ++ ops) (chunk_files c).

Definition with_session_id (sid : string) (c : Client) : Client :=
  mkClient (config c) (audio_config c) sid (is_recording c)
    (is_waiting c) (last_server_response_time c) (recorded_frames c)
    (socket c) (sent c) (console c) (chunk_files c).

Definition with_is_recording (b : bool) (c : Client) : Client :=
  mkClient (config c) (audio_config c) (session_id c) b
    (is_waiting c) (last_server_response_time c) (recorded_frames c)
    (socket c) (sent c) (console c) (chunk_files c).

Definition with_is_waiting (b : bool) (c : Client) : Client :=
  mkClient (config c) (audio_config c) (session_id c) (is_recording c)
    b (last_server_response_time c) (recorded_frames c)
    (socket c) (sent c) (console c) (chunk_files c).

Definition with_response_time (t : Q) (c : Client) : Client :=
  mkClient (config c) (audio_config c) (session_id c) (is_recording c)
    (is_waiting c) (Some t) (recorded_frames c)
    (socket c) (sent c) (console c) (chunk_files c).

Definition with_recorded_frames (b : list Byte.byte) (c : Client) : Client :=
  mkClient (config c) (audio_config c) (session_id c) (is_recording c)
    (is_waiting c) (last_server_response_time c) b
    (socket c) (sent c) (console c) (chunk_files c).

Definition with_socket (p : socket_phase) (c : Client) : Client :=
  mkClient (config c) (audio_config c) (session_id c) (is_recording c)
    (is_waiting c) (last_server_response_time c) (recorded_frames c)
    p (sent c) (console c) (chunk_files c).

Definition with_chunk_file (n : nat) (b : list Byte.byte) (c : Client) : Client :=
  mkClient (config c) (audio_config c) (session_id c) (is_recording c)
    (is_waiting c) (last_server_response_time c) (recorded_frames c)
    (socket c) (sent c) (console c) (chunk_files c ++ [(n, b)]).

(** [ws.send]: the frame leaves only on an open socket; otherwise the
    library raises. *)
Definition ws_send (f : frame) (c : Client) : result Client :=
  match socket c with
  | Open =>
      Ok (mkClient (config c) (audio_config c) (session_id c)
            (is_recording c) (is_waiting c) (last_server_response_time c)
            (recorded_frames c) (socket c) (sent c ++ [f]) (console c)
            (chunk_files c))
  | _ => Raise (PyExn ExceptionC (MsgText "Connection is already closed."))
  end.

(** [Client.__init__]: a fresh session id, nothing sent, socket still
    connecting in its background thread. *)
Definition Client_init (cfg : ServerConfig) (uuid4 : string) : Client :=
  with_console [Print "[INFO]: * Starting recording"]
    (mkClient cfg default_audio_config uuid4 false false None [] Connecting
       [] [] []).

Definition task_of (cfg : ServerConfig) : string :=
  if translate cfg then "translate" else "transcribe".

(** The dict built in [on_open]. *)
Definition auth_message (c : Client) : gmap string json :=
  <["auth" := JStr (api_key (config c))]>
  (<["task" := JStr (task_of (config c))]>
  (<["language" := from_option JStr JNull (language (config c))]>
  (<["multilingual" := JBool (multilingual (config c))]>
  (<["uid" := JStr (session_id c)]> ∅)))).

(** [Client.on_open]; an exception of [ws.send] is reported by the
    library through [on_error]. *)
Definition on_open (c : Client) : Client :=
  let c := with_console [Print "[INFO]: Connection established"] c in
  match ws_send (TextFrame (JObj (auth_message c))) c with
  | Ok c' => c'
  | Raise _ => with_console [Print "[ERROR]: WebSocket error"] c
  end.

(** [Client.stream_audio_packet]. *)
Definition stream_audio_packet (audio_packet : list Byte.byte) (c : Client)
  : Client :=
  match ws_send (BinaryFrame audio_packet) c with
  | Ok c' => c'
  | Raise _ => with_console [Print "[ERROR]: Streaming error"] c
  end.

(** [transcript[-1]] when the list is not empty. *)
Definition last_entry (transcript : list string) : option string :=
  last transcript.

(** The body of the [for] loop of [_handle_transcription]. *)
Definition append_segment (transcript : list string)
    (segment : TranscriptionSegment) : list string :=
  match last_entry transcript with
  | None => transcript ++ [text segment]
  | Some prev =>
      if String.eqb prev (text segment)
      then transcript
      else transcript ++ [text segment]
  end.

(** [transcript[-3:]]. *)
Definition last_three (transcript : list string) : list string :=
  drop (length transcript - 3) transcript.

(** The list [transcript] of [_handle_transcription] at the point where
    it is joined and printed. *)
Definition transcript_buffer (segments : list TranscriptionSegment)
  : list string :=
  let transcript := fold_left append_segment segments [] in
  if (3 <? length transcript)%nat then last_three transcript else transcript.

(** [Client._handle_transcription]: the screen is cleared and the
    joined buffer printed ([textwrap.wrap] is not modelled). *)
Definition _handle_transcription (segments : list TranscriptionSegment)
    (c : Client) : Client :=
  let transcript := transcript_buffer segments in
  let text := String.concat "" transcript in
  with_console [ClearScreen; PrintWrapped text] c.

Definition nonempty_string (o : option string) : bool :=
  match o with
  | Some s => negb (String.eqb s "")
  | None => false
  end.

Definition option_string_is (o : option string) (s : string) : bool :=
  match o with
  | Some t => String.eqb t s
  | None => false
  end.

(** [Client.on_message] at time [t]; [raw] is [None] when
    [ServerMessage.parse_raw] raises. *)
Definition on_message (t : Q) (raw : option ServerMessage) (c : Client)
  : Client :=
  let c := with_response_time t c in
  match raw with
  | None => with_console [Print "[ERROR]: Message parsing error"] c
  | Some server_message =>
    let c :=
      match msg_session_id server_message with
      | Some sid =>
          if nonempty_string (Some sid) && negb (String.eqb sid (session_id c))
          then with_session_id sid c
          else c
      | None => c
      end in
    let c :=
      if option_string_is (msg_status server_message) "WAIT"
      then with_console [Print "[INFO]: Server busy. Please wait..."]
             (with_is_waiting true c)
      else c in
    let c :=
      if option_string_is (msg_message server_message) "DISCONNECT"
      then with_is_recording false
             (with_console [Print "[INFO]: Server initiated disconnect."] c)
      else c in
    let c :=
      if option_string_is (msg_message server_message) "SERVER_READY"
      then with_is_recording true c
      else c in
    match msg_segments server_message with
    | Some (seg :: segs) => _handle_transcription (seg :: segs) c
    | _ => c
    end
  end.

(** One turn of the [while self.is_recording] loop of [Client.record],
    after [audio_stream.read] gave [data]. *)
Definition record_iteration (n_audio_file : nat) (data : list Byte.byte)
    (c : Client) : nat * Client :=
  let c := with_recorded_frames (recorded_frames c ++ data) c in
  let c := stream_audio_packet data c in
  if (60 * rate (audio_config c) <? Z.of_nat (length (recorded_frames c)))%Z
  then (S n_audio_file,
        with_recorded_frames []
          (with_chunk_file n_audio_file (recorded_frames c) c))
  else (n_audio_file, c).

(** [Client._cleanup] up to its call of [close_websocket_connection],
    a method this class does not define. *)
Definition _cleanup (n_audio_file : nat) (c : Client) : Client :=
  match recorded_frames c with
  | [] => c
  | _ => with_chunk_file n_audio_file (recorded_frames c) c
  end.

(** *** The two threads of a session *)

(** [TranscriptionClient]: the wrapped [Client], the [audio] argument
    of [__call__] and the position of the foreground thread. *)
Record TranscriptionClient : Type := mkSession {
  client : Client;
  audio : option string;
  main : main_phase
}.

(** [TranscriptionClient.__init__]. *)
Definition TranscriptionClient_init (host : string) (port : Z)
    (api_key : string) (multilingual : bool) (language : string)
    (translate : bool) (uuid4 : string) : Client :=
  Client_init
    (mkServerConfig host port api_key multilingual (Some language) translate)
    uuid4.

(** The atomic steps of a session.  The first three are callbacks run
    by the socket thread, the last two belong to the foreground thread:
    one evaluation of a loop condition with the body that follows it
    ([mic] is what the microphone returns if it is read), and Ctrl-C. *)
Inductive event : Type :=
| SocketOpened
| SocketMessage (t : Q) (raw : option ServerMessage)
| SocketClosed
| MainStep (mic : list Byte.byte)
| KeyboardInterrupt.

(** One step of the foreground thread in [__call__] and [record]. *)
Definition main_step (mic : list Byte.byte) (s : TranscriptionClient)
  : TranscriptionClient :=
  let c := client s in
  match main s with
  | WaitingForReady =>
      if is_recording c
      then
        let c := with_console [Print "[INFO]: Server Ready!"] c in
        if nonempty_string (audio s)
        then (* [play_and_stream_audio] is not defined by [Client] *)
          mkSession c (audio s) Finished
        else mkSession c (audio s) (Recording 0)
      else if is_waiting c
      then (* [close_websocket_connection] is not defined by [Client] *)
        mkSession c (audio s) Finished
      else s
  | Recording n_audio_file =>
      if is_recording c
      then
        let (n, c) := record_iteration n_audio_file mic c in
        mkSession c (audio s) (Recording n)
      else mkSession c (audio s) Finished
  | Finished => s
  end.

Definition step (s : TranscriptionClient) (e : event) : TranscriptionClient :=
  let c := client s in
  match e with
  | SocketOpened =>
      match socket c with
      | Connecting =>
          mkSession (on_open (with_socket Open c)) (audio s) (main s)
      | _ => s
      end
  | SocketMessage t raw =>
      match socket c with
      | Open => mkSession (on_message t raw c) (audio s) (main s)
      | _ => s
      end
  | SocketClosed =>
      match socket c with
      | Closed => s
      | _ =>
          mkSession
            (with_console [Print "[INFO]: WebSocket closed"]
               (with_socket Closed c))
            (audio s) (main s)
      end
  | MainStep mic => main_step mic s
  | KeyboardInterrupt =>
      match main s with
      | Recording n_audio_file =>
          mkSession (_cleanup n_audio_file c) (audio s) Finished
      | _ => mkSession c (audio s) Finished
      end
  end.

Definition run (s : TranscriptionClient) (evs : list event)
  : TranscriptionClient :=
  fold_left step evs s.

(** A session right after [TranscriptionClient(...)] returned and
    [__call__(audio)] was entered. *)
Definition start (cfg : ServerConfig) (uuid4 : string) (audio : option string)
  : TranscriptionClient :=
  mkSession
    (with_console [Print "[INFO]: Waiting for server ready ..."]
       (Client_init cfg uuid4))
    audio WaitingForReady.

Definition is_handshake (f : frame) : bool :=
  match f with
  | TextFrame _ => true
  | BinaryFrame _ => false
  end.

End LiveClient.

(** ** Specification-side definitions *)

(** Collapsing runs of equal neighbours, written as the specification
    words it: of each run of identical consecutive texts one is kept. *)
Fixpoint collapse_consecutive (texts : list string) : list string :=
  match texts with
  | [] => []
  | x :: rest =>
      match rest with
      | [] => [x]
      | y :: _ =>
          if String.eqb x y
          then collapse_consecutive rest
          else x :: collapse_consecutive rest
      end
  end.

(** The fractional rank [(len - 1) * percentile / 100.0] computed by
    [calculate_percentile]. *)
Definition rank (len : Z) (percentile : Q) : Q :=
  (inject_Z (len - 1) * percentile / 100)%Q.

(** A reply of the status service that does not end the poll loop: a
    failed request, or a dict whose status is neither "DONE" nor one of
    the failure statuses. *)
Definition non_terminal (r : result (gmap string json)) : Prop :=
  match r with
  | Raise _ => True
  | Ok job_status =>
      dict_get job_status "status" <> JStr "DONE"
      /\ ~ In (dict_get job_status "status") BatchClient.failure_statuses
  end.

(** Status dicts and status services used as concrete inputs. *)
Definition processing_status : gmap string json :=
  <["status" := JStr "PROCESSING"]> ∅.

Definition done_status : gmap string json :=
  <["status" := JStr "DONE"]> (<["results" := JArr []]> ∅).

(** Every request is answered at once with status "PROCESSING": the
    job never finishes. *)
Definition always_processing (n : nat) : BatchClient.fetch_reply :=
  BatchClient.FetchReply 0 (Ok processing_status).

(** Every request fails after one second. *)
Definition always_unreachable (n : nat) : BatchClient.fetch_reply :=
  BatchClient.FetchReply 1
    (Raise (PyExn ExceptionC (MsgText "Failed to get job status"))).

(** The first request already reports "DONE". *)
Definition done_at_once (n : nat) : BatchClient.fetch_reply :=
  BatchClient.FetchReply 0 (Ok done_status).

(** The deadline test at the top of the poll loop lets the turn
    proceed. *)
Definition before_deadline (timeout : Q) (l : BatchClient.locals)
    (w : BatchClient.world) : Prop :=
  (BatchClient.time_time w - BatchClient.start_time l <= timeout)%Q.

Section SessionInvariant.
Import LiveClient.

(** The handshake of a session: the dict [on_open] builds from the
    configuration and the session id generated by [Client.__init__]. *)
Definition session_handshake (cfg : ServerConfig) (uuid4 : string) : frame :=
  TextFrame (JObj (auth_message (Client_init cfg uuid4))).

(** What holds of a session at every moment: either the socket never
    opened, nothing was sent and recording is off, or the socket did
    open and the handshake heads what was sent, followed by audio. *)
Definition handshake_invariant (cfg : ServerConfig) (uuid4 : string)
    (s : TranscriptionClient) : Prop :=
  let c := client s in
  config c = cfg /\
  ((socket c <> Open /\ sent c = [] /\ is_recording c = false
    /\ session_id c = uuid4)
   \/ (socket c <> Connecting
       /\ exists chunks,
           sent c = session_handshake cfg uuid4 :: map BinaryFrame chunks)).

End SessionInvariant.

(** No entry of the list equals its right neighbour. *)
Definition no_adjacent_duplicates (l : list string) : Prop :=
  forall (i : nat) (x y : string),
    l !! i = Some x -> l !! S i = Some y -> x <> y.

Section SessionObservations.
Import LiveClient.

(** All the audio a client holds: the chunk files in the order they
    were written, then the buffer [recorded_frames]. *)
Definition recorded_audio (c : Client) : list Byte.byte :=
  concat (map snd (chunk_files c)) ++ recorded_frames c.

(** What [audio_stream.read] returns during a step: the microphone is
    read only by a turn of the loop of [Client.record]. *)
Definition mic_read (s : TranscriptionClient) (e : event)
  : list (list Byte.byte) :=
  match e, main s with
  | MainStep mic, Recording _ => if is_recording (client s) then [mic] else []
  | _, _ => []
  end.

(** The microphone reads made along a schedule, in order. *)
Fixpoint mic_reads (s : TranscriptionClient) (evs : list event)
  : list (list Byte.byte) :=
  match evs with
  | [] => []
  | e :: evs' => mic_read s e ++ mic_reads (step s e) evs'
  end.

(** The microphone reads made while the socket was open. *)
Definition streamed_read (s : TranscriptionClient) (e : event)
  : list (list Byte.byte) :=
  match socket (client s) with
  | Open => mic_read s e
  | _ => []
  end.

Fixpoint streamed_reads (s : TranscriptionClient) (evs : list event)
  : list (list Byte.byte) :=
  match evs with
  | [] => []
  | e :: evs' => streamed_read s e ++ streamed_reads (step s e) evs'
  end.

(** The audio carried by a frame, if it is a binary frame. *)
Definition frame_audio (f : frame) : option (list Byte.byte) :=
  match f with
  | BinaryFrame a => Some a
  | TextFrame _ => None
  end.

(** The event is an inbound message whose [message] field is
    "SERVER_READY". *)
Definition announces_ready (e : event) : bool :=
  match e with
  | SocketMessage _ (Some m) => option_string_is (msg_message m) "SERVER_READY"
  | _ => false
  end.

(** The event is an inbound message that [ServerMessage.parse_raw]
    rejects. *)
Definition malformed (e : event) : bool :=
  match e with
  | SocketMessage _ None => true
  | _ => false
  end.

(** A session without what only reporting touches: the console and the
    time of the last server response. *)
Definition silent (s : TranscriptionClient) : TranscriptionClient :=
  let c := client s in
  mkSession
    (mkClient (config c) (audio_config c) (session_id c) (is_recording c)
       (is_waiting c) None (recorded_frames c) (socket c) (sent c) []
       (chunk_files c))
    (audio s) (main s).

End SessionObservations.

Section RecordingInvariant.
Import LiveClient.

(** What the record loop keeps true of the audio it holds, [reads]
    being the microphone reads made so far: until the foreground thread
    finishes, chunk files and buffer together are the audio read, the
    files are numbered 0, 1, 2, ... up to the loop's counter, every file
    is longer than [60 * rate] bytes and the buffer is not. *)
Definition recording_invariant (s : TranscriptionClient)
    (reads : list (list Byte.byte)) : Prop :=
  let c := client s in
  audio_config c = default_audio_config /\
  match main s with
  | WaitingForReady =>
      chunk_files c = [] /\ recorded_frames c = [] /\ reads = []
  | Recording n_audio_file =>
      recorded_audio c = concat reads
      /\ map fst (chunk_files c) = seq 0 (length (chunk_files c))
      /\ n_audio_file = length (chunk_files c)
      /\ (Z.of_nat (length (recorded_frames c)) <= 60 * rate (audio_config c))%Z
      /\ Forall (fun f => (60 * rate (audio_config c)
                           < Z.of_nat (length f.2))%Z) (chunk_files c)
  | Finished => True
  end.

End RecordingInvariant.

(** *** Audio samples *)
Section AudioSamples.

(** A 16-bit sample from its two bytes, low byte first (the byte order
    of x86 and ARM), in two's complement. *)
Definition int16_of_bytes (lo hi : Byte.byte) : Z :=
  let u := (Z.of_N (Byte.to_N lo) + 256 * Z.of_N (Byte.to_N hi))%Z in
  if (u <? 32768)%Z then u else (u - 65536)%Z.

(** [np.frombuffer(audio_bytes, dtype=np.int16)]. *)
Fixpoint frombuffer_int16 (audio_bytes : list Byte.byte) : result (list Z) :=
  match audio_bytes with
  | [] => Ok []
  | [_] =>
      Raise (PyExn ValueErrorC
               (MsgText "buffer size must be a multiple of element size"))
  | lo :: hi :: rest =>
      match frombuffer_int16 rest with
      | Ok samples => Ok (int16_of_bytes lo hi :: samples)
      | Raise e => Raise e
      end
  end.

(** [Client.convert_bytes_to_float]: every 16-bit integer is exactly
    representable in float32 and the division by 2^15 is exact, so the
    rationals below are the floats computed. *)
Definition convert_bytes_to_float (audio_bytes : list Byte.byte)
  : result (list Q) :=
  match frombuffer_int16 audio_bytes with
  | Ok raw_audio_data =>
      Ok (map (fun sample => (inject_Z sample / 32768)%Q) raw_audio_data)
  | Raise e => Raise e
  end.

End AudioSamples.

Section PollObservations.
Import BatchClient.

(** The world in which a run of the poll loop stopped. *)
Definition outcome_world (o : outcome) : world :=
  match o with
  | Returned _ w => w
  | Failed _ w => w
  | StillPolling _ w => w
  end.

(** The exceptions of the "[ERROR]: Failed to get job status" lines
    printed, in order. *)
Definition logged_failures (lines : list log_line) : list pyexn :=
  omap (fun line => match line with
                    | LogFetchFailed e => Some e
                    | _ => None
                    end) lines.

(** The exceptions raised by the status requests number [first],
    [first + 1], ..., [first + count - 1]. *)
Definition failed_replies (server : nat -> fetch_reply) (first count : nat)
  : list pyexn :=
  omap (fun k => match reply (server k) with
                 | Raise e => Some e
                 | Ok _ => None
                 end) (seq first count).

(** The three ways in which [wait_for_job_completion] ends: it returns
    a fetched dict whose status is "DONE", it raises the job-failed
    error for a fetched failure status, or it raises the time-out
    error. *)
Definition ends_properly (server : nat -> fetch_reply) (timeout : Q)
    (o : outcome) : Prop :=
  match o with
  | Returned job_status _ =>
      dict_get job_status "status" = JStr "DONE"
      /\ exists k, reply (server k) = Ok job_status
  | Failed e _ =>
      e = PyExn ExceptionC (MsgJobTimedOut timeout)
      \/ exists job_status k,
          reply (server k) = Ok job_status
          /\ In (dict_get job_status "status") failure_statuses
          /\ e = PyExn ExceptionC (MsgJobFailed (dict_get job_status "status"))
  | StillPolling _ _ => False
  end.

End PollObservations.

(** How many entries of [l] are smaller than [v], and how many are at
    most [v]. *)
Definition count_below (v : Q) (l : list Q) : nat :=
  length (List.filter (fun y => negb (Qle_bool v y)) l).


(** *** The measurement loop of [run_benchmark] *)
Section BenchmarkLoop.
Import Benchmark.

(** The three accumulators of the loop. *)
Record tally : Type := Tally {
  ttft_measurements : list Q;
  successful_runs : nat;
  failed_runs : nat
}.

(** How far a pass through the [try] block has got with the
    accumulators at the moment it ends: nothing touched yet;
    [ttft_measurements.append(ttft_ms)] done and [successful_runs += 1]
    not yet; both done; or the [failed_runs += 1] of an [else] branch
    done. *)
Inductive progress : Type :=
| NothingCounted
| Appended (ttft_ms : Q)
| CountedSuccess (ttft_ms : Q)
| CountedFailure.

(** How a pass through the [try] statement ends.  The class
    [TalkScriberTTSClient] is not part of these sources; a trial stands
    for whatever its constructor, [run_simple_test] and
    [get_ttft_metrics] do, and for the moment at which an exception, if
    any, arrives: the block runs to its end, after a measurement or
    through an [else] branch; a [KeyboardInterrupt] reaches the handler
    that breaks; an [Exception] reaches the handler that counts a
    failure; or something leaves [run_benchmark] (an exception no
    handler catches, or one raised inside a handler). *)
Inductive trial : Type :=
| TrialCompleted (ttft_ms : option Q)
| TrialInterrupted (p : progress)
| TrialRaised (p : progress)
| TrialEscaped.

Definition count (p : progress) (t : tally) : tally :=
  match p with
  | NothingCounted => t
  | Appended ttft_ms =>
      Tally (ttft_measurements t ++ [ttft_ms]) (successful_runs t)
        (failed_runs t)
  | CountedSuccess ttft_ms =>
      Tally (ttft_measurements t ++ [ttft_ms]) (S (successful_runs t))
        (failed_runs t)
  | CountedFailure =>
      Tally (ttft_measurements t) (successful_runs t) (S (failed_runs t))
  end.

(** Where control goes after the [try] statement. *)
Inductive control : Type :=
| Next (t : tally)
| Break (t : tally)
| Leave.

(** The [try] statement. *)
Definition run_trial (tr : trial) (t : tally) : control :=
  match tr with
  | TrialCompleted (Some ttft_ms) => Next (count (CountedSuccess ttft_ms) t)
  | TrialCompleted None => Next (count CountedFailure t)
  | TrialInterrupted p => Break (count p t)
  | TrialRaised p => Next (count CountedFailure (count p t))
  | TrialEscaped => Leave
  end.

(** How the loop ends: normally or by [break], with the accumulators;
    or by an exception that leaves [run_benchmark], such as a
    [KeyboardInterrupt] during [time.sleep(0.5)], which is outside the
    [try]. *)
Inductive loop_end : Type :=
| LoopDone (t : tally)
| LoopLeft.

(** [for i in range(num_runs)], from index [i] with [remaining] turns
    to go; [env i] is the trial of turn [i] and whether the pause after
    it is interrupted. *)
Fixpoint benchmark_loop (env : nat -> trial * bool) (num_runs : Z)
    (i remaining : nat) (t : tally) : loop_end :=
  match remaining with
  | O => LoopDone t
  | S remaining' =>
      match run_trial (env i).1 t with
      | Leave => LoopLeft
      | Break t' => LoopDone t'
      | Next t' =>
          if (Z.of_nat i <? num_runs - 1)%Z && (env i).2
          then LoopLeft
          else benchmark_loop env num_runs (S i) remaining' t'
      end
  end.

(** How [run_benchmark] ends: an escaping exception, or its
    accumulators with [None] for [return False] and the statistics
    printed before [return True] (writing the result file is not
    modelled). *)
Inductive benchmark_end : Type :=
| BenchmarkInterrupted
| BenchmarkReturned (t : tally) (report : result (option statistics)).

Definition run_benchmark (env : nat -> trial * bool) (num_runs : Z)
  : benchmark_end :=
  match benchmark_loop env num_runs 0 (Z.to_nat num_runs) (Tally [] 0 0) with
  | LoopLeft => BenchmarkInterrupted
  | LoopDone t =>
      BenchmarkReturned t (run_benchmark_statistics (ttft_measurements t))
  end.

(** The measurement a trial appends, if it gets that far. *)
Definition appended (p : progress) : list Q :=
  match p with
  | Appended ttft_ms | CountedSuccess ttft_ms => [ttft_ms]
  | NothingCounted | CountedFailure => []
  end.

(** The measurements the trials [i], [i+1], ... append up to the first
    interrupted one, at most [remaining] of them. *)
Fixpoint measured (env : nat -> trial * bool) (i remaining : nat) : list Q :=
  match remaining with
  | O => []
  | S remaining' =>
      match (env i).1 with
      | TrialCompleted (Some ttft_ms) => ttft_ms :: measured env (S i) remaining'
      | TrialCompleted None => measured env (S i) remaining'
      | TrialInterrupted p => appended p
      | TrialRaised p => appended p ++ measured env (S i) remaining'
      | TrialEscaped => []
      end
  end.

(** The trial ends between [ttft_measurements.append(ttft_ms)] and
    [successful_runs += 1]. *)
Definition cut_after_append (tr : trial) : bool :=
  match tr with
  | TrialInterrupted (Appended _) | TrialRaised (Appended _) => true
  | _ => false
  end.

(** The trial raises an [Exception] after one of its counters was
    incremented, that is, inside the [print] that follows. *)
Definition raised_after_count (tr : trial) : bool :=
  match tr with
  | TrialRaised (CountedSuccess _) | TrialRaised CountedFailure => true
  | _ => false
  end.

Definition interrupted (tr : trial) : bool :=
  match tr with
  | TrialInterrupted _ => true
  | _ => false
  end.

End BenchmarkLoop.

(** Five trials: a measurement, an exception, a measurement, then
    Ctrl-C right after the third measurement was appended; no pause is
    interrupted. *)
Definition sample_trials (i : nat) : trial * bool :=
  match i with
  | 0 => (TrialCompleted (Some 120%Q), false)
  | 1 => (TrialRaised NothingCounted, false)
  | 2 => (TrialCompleted (Some 80%Q), false)
  | _ => (TrialInterrupted (Appended 95%Q), false)
  end.

Section SessionIdentity.
Import LiveClient.

(** The non-empty session id an inbound message carries, if any. *)
Definition issued_session_id (e : event) : option string :=
  match e with
  | SocketMessage _ (Some m) =>
      match msg_session_id m with
      | Some sid => if String.eqb sid "" then None else Some sid
      | None => None
      end
  | _ => None
  end.

End SessionIdentity.

(** *** File names and URLs *)
Section NamesAndUrls.
Import Stdlib.Strings.Ascii.

(** [input_file.split('.')[0]]: the text before the first dot. *)
Fixpoint before_first_dot (s : string) : string :=
  match s with
  | EmptyString => EmptyString
  | String c rest =>
      if Ascii.eqb c "."%char
      then EmptyString
      else String c (before_first_dot rest)
  end.

(** The name [resample_audio] gives the file it writes. *)
Definition modified_audio_file (input_file : string) : string :=
  String.append (before_first_dot input_file) "_modified.wav".

(** [api_url.rstrip("/")]. *)
Fixpoint rstrip_slash (s : string) : string :=
  match s with
  | EmptyString => EmptyString
  | String c rest =>
      match rstrip_slash rest with
      | EmptyString => if Ascii.eqb c "/"%char then EmptyString else String c EmptyString
      | String c' rest' => String c (String c' rest')
      end
  end.

(** [k] slashes. *)
Fixpoint slashes (k : nat) : string :=
  match k with
  | O => EmptyString
  | S k' => String "/"%char (slashes k')
  end.

(** The fields [BatchTranscriptionClient.__init__] sets. *)
Record BatchTranscriptionClient : Type := mkBatchClient {
  batch_api_url : string;
  batch_api_key : string;
  batch_headers : gmap string string
}.

(** [BatchTranscriptionClient.__init__]; [None] is the [ImportError]
    raised when the [requests] library is missing. *)
Definition BatchTranscriptionClient_init (requests_available : bool)
    (api_url api_key : string) : option BatchTranscriptionClient :=
  if requests_available
  then Some (mkBatchClient (rstrip_slash api_url) api_key
               (<["Content-Type" := "application/json"]>
                  (<["X-API-Key" := api_key]> ∅)))
  else None.

(** The URL of [requests.get] in [get_batch_job_status]. *)
Definition status_url (c : BatchTranscriptionClient) (job_id : string)
  : string :=
  String.append (batch_api_url c) (String.append "/" job_id).

End NamesAndUrls.

(** * Properties *)

(** ** Live client: transcript buffer *)
Section Transcript.
Import LiveClient.

Lemma last_entry_snoc (acc : list string) (x : string) :
  last_entry (acc ++ [x]) = Some x.
Proof. unfold last_entry. apply last_snoc. Qed.

Lemma fold_append_segment_snoc (segments : list TranscriptionSegment) :
  forall (acc : list string) (x : string),
    fold_left append_segment segments (acc ++ [x])
    = acc ++ collapse_consecutive (x :: map text segments).
Proof.
  induction segments as [|seg segments IH]; intros acc x.
  - reflexivity.
  - cbn [fold_left map]. unfold append_segment at 2.
    rewrite last_entry_snoc.
    change (collapse_consecutive (x :: text seg :: map text segments))
      with (if String.eqb x (text seg)
            then collapse_consecutive (text seg :: map text segments)
            else x :: collapse_consecutive (text seg :: map text segments)).
    destruct (String.eqb x (text seg)) eqn:E.
    + apply String.eqb_eq in E. rewrite <- E. apply IH.
    + rewrite IH. rewrite <- app_assoc. reflexivity.
Qed.

Lemma fold_append_segment_collapse (segments : list TranscriptionSegment) :
  fold_left append_segment segments []
  = collapse_consecutive (map text segments).
Proof.
  destruct segments as [|seg segments]; [reflexivity|].
  cbn [fold_left]. change (append_segment [] seg) with ([] ++ [text seg]).
  apply fold_append_segment_snoc.
Qed.

Lemma transcript_buffer_last_three (segments : list TranscriptionSegment) :
  transcript_buffer segments
  = drop (length (collapse_consecutive (map text segments)) - 3)
      (collapse_consecutive (map text segments)).
Proof.
  unfold transcript_buffer, last_three.
  rewrite fold_append_segment_collapse.
  destruct (Nat.ltb_spec 3 (length (collapse_consecutive (map text segments))))
    as [H|H]; [reflexivity|].
  replace (length (collapse_consecutive (map text segments)) - 3)%nat
    with 0%nat by lia.
  reflexivity.
Qed.

Lemma transcript_buffer_length (segments : list TranscriptionSegment) :
  (length (transcript_buffer segments) <= 3)%nat.
Proof.
  rewrite transcript_buffer_last_three, length_drop. lia.
Qed.

(** C6: [_handle_transcription] compares each segment text with the
    last entry appended so far only, so the loop computes exactly the
    list with runs of equal neighbours collapsed; the segments
    "a","a","b" give the buffer ["a";"b"], while "a","b","a" keeps the
    second "a" (no scan of the whole history). *)
Theorem consecutive_segments_collapsed :
  (forall transcript segment,
      append_segment transcript segment
      = if bool_decide (transcript = []
                        \/ last transcript <> Some (text segment))
        then transcript ++ [text segment]
        else transcript)
  /\ (forall segments,
        fold_left append_segment segments []
        = collapse_consecutive (map text segments))
  /\ (forall s1 e1 s2 e2 s3 e3,
        transcript_buffer
          [mkSegment "a" s1 e1; mkSegment "a" s2 e2; mkSegment "b" s3 e3]
        = ["a"; "b"])
  /\ (forall s1 e1 s2 e2 s3 e3,
        transcript_buffer
          [mkSegment "a" s1 e1; mkSegment "b" s2 e2; mkSegment "a" s3 e3]
        = ["a"; "b"; "a"]).
Proof.
  split; [|split; [|split]].
  - intros transcript segment. unfold append_segment, last_entry.
    destruct (last transcript) as [prev|] eqn:L.
    + destruct (String.eqb prev (text segment)) eqn:E.
      * apply String.eqb_eq in E. subst prev.
        rewrite bool_decide_eq_false_2; [reflexivity|].
        intros [H|H]; [subst transcript; discriminate L | congruence].
      * apply String.eqb_neq in E.
        rewrite bool_decide_eq_true_2; [reflexivity|].
        right. congruence.
    + rewrite bool_decide_eq_true_2; [reflexivity|].
      left. apply last_None. exact L.
  - apply fold_append_segment_collapse.
  - reflexivity.
  - reflexivity.
Qed.

(** C10: whatever happened on the session before, a message carrying a
    non-empty batch of segments makes the client print the buffer
    computed from that batch alone; the buffer is the last three (at
    most) entries of the batch's collapsed texts. *)
Theorem transcript_rebuilt_from_batch :
  forall cfg uuid4 audio evs t m segments,
    socket (client (run (start cfg uuid4 audio) evs)) = Open ->
    msg_segments m = Some segments ->
    segments <> [] ->
    let before := run (start cfg uuid4 audio) evs in
    let after := step before (SocketMessage t (Some m)) in
    let buffer := transcript_buffer segments in
    (exists earlier,
        console (client after)
        = earlier ++ [ClearScreen; PrintWrapped (String.concat "" buffer)])
    /\ (length buffer <= 3)%nat
    /\ buffer
       = drop (length (collapse_consecutive (map text segments)) - 3)
           (collapse_consecutive (map text segments)).
Proof.
  intros cfg uuid4 audio evs t m segments Hopen Hsegs Hne before after buffer.
  split; [|split].
  - subst after before. unfold step. rewrite Hopen.
    cbn [client]. unfold on_message. rewrite Hsegs.
    destruct segments as [|seg segs]; [contradiction|].
    unfold _handle_transcription, with_console. cbn [console].
    eexists. reflexivity.
  - apply transcript_buffer_length.
  - apply transcript_buffer_last_three.
Qed.

Lemma transcript_rebuilt_from_batch_witness :
  let seg := mkSegment "a" 0 1 in
  let batch := mkServerMessage None None None (Some [seg]) None None in
  let cfg := mkServerConfig "wss://api.talkscriber.com" 9090 "key" false
               (Some "en") false in
  let before := run (start cfg "uid" None)
                  [SocketOpened; SocketMessage 0 (Some batch)] in
  let after := step before (SocketMessage 1 (Some batch)) in
  (exists earlier,
      console (client after) = earlier ++ [ClearScreen; PrintWrapped "a"])
  /\ (length (transcript_buffer [seg]) <= 3)%nat
  /\ transcript_buffer [seg] = ["a"].
Proof.
  intros seg batch cfg before after.
  apply (transcript_rebuilt_from_batch cfg "uid" None
           [SocketOpened; SocketMessage 0 (Some batch)] 1 batch [seg]).
  - reflexivity.
  - reflexivity.
  - discriminate.
Defined.

End Transcript.

(** ** Live client: handshake *)
Section Handshake.
Import LiveClient.

Lemma auth_message_with_console (ops : list console_op) (c : Client) :
  auth_message (with_console ops c) = auth_message c.
Proof. reflexivity. Qed.

Lemma auth_message_with_socket (p : socket_phase) (c : Client) :
  auth_message (with_socket p c) = auth_message c.
Proof. reflexivity. Qed.

Lemma on_open_sent (c : Client) :
  sent (on_open (with_socket Open c))
  = sent c ++ [TextFrame (JObj (auth_message c))].
Proof. reflexivity. Qed.

(** C7: the dict sent by [on_open] maps "task" to "translate" when the
    configuration's [translate] flag is set and to "transcribe"
    otherwise; [TranscriptionClient] hands its [translate] argument to
    that configuration unchanged. *)
Theorem handshake_task_field :
  (forall c : Client,
      auth_message c !! "task"
      = Some (JStr (if translate (config c)
                    then "translate" else "transcribe")))
  /\ (forall c : Client,
        sent (on_open (with_socket Open c))
        = sent c ++ [TextFrame (JObj (auth_message c))])
  /\ (forall host port api_key multilingual language tr uuid4,
        translate (config (TranscriptionClient_init host port api_key
                             multilingual language tr uuid4)) = tr).
Proof.
  split; [|split].
  - intros c. unfold auth_message, task_of.
    rewrite lookup_insert_ne by discriminate.
    rewrite lookup_insert_eq.
    destruct (translate (config c)); reflexivity.
  - apply on_open_sent.
  - reflexivity.
Qed.

Lemma on_message_frame (t : Q) (raw : option ServerMessage) (c : Client) :
  config (on_message t raw c) = config c
  /\ socket (on_message t raw c) = socket c
  /\ sent (on_message t raw c) = sent c.
Proof.
  unfold on_message. destruct raw as [m|]; [|done].
  repeat case_match; done.
Qed.

Lemma stream_audio_packet_frame (data : list Byte.byte) (c : Client) :
  config (stream_audio_packet data c) = config c
  /\ socket (stream_audio_packet data c) = socket c
  /\ is_recording (stream_audio_packet data c) = is_recording c
  /\ session_id (stream_audio_packet data c) = session_id c
  /\ sent (stream_audio_packet data c)
     = match socket c with
       | Open => sent c ++ [BinaryFrame data]
       | _ => sent c
       end.
Proof.
  unfold stream_audio_packet, ws_send. destruct (socket c) eqn:E; cbn; rewrite ?E; done.
Qed.

Lemma record_iteration_frame (n : nat) (data : list Byte.byte) (c : Client) :
  let c' := (record_iteration n data c).2 in
  config c' = config c
  /\ socket c' = socket c
  /\ is_recording c' = is_recording c
  /\ session_id c' = session_id c
  /\ sent c' = match socket c with
               | Open => sent c ++ [BinaryFrame data]
               | _ => sent c
               end.
Proof.
  unfold record_iteration.
  pose proof (stream_audio_packet_frame data
                (with_recorded_frames (recorded_frames c ++ data) c)) as H.
  cbn [config socket is_recording session_id sent with_recorded_frames] in H.
  match goal with
  | |- context [if ?b then _ else _] => destruct b
  end; cbn; exact H.
Qed.

Lemma handshake_invariant_start cfg uuid4 audio :
  handshake_invariant cfg uuid4 (start cfg uuid4 audio).
Proof. split; [reflexivity|]. left. cbn. done. Qed.

Lemma handshake_invariant_main_step cfg uuid4 mic s :
  handshake_invariant cfg uuid4 s ->
  handshake_invariant cfg uuid4 (main_step mic s).
Proof.
  unfold main_step. intros Hinv.
  destruct (main s) as [|n|]; [| |exact Hinv].
  - destruct (is_recording (client s)).
    + destruct (nonempty_string (audio s)); exact Hinv.
    + destruct (is_waiting (client s)); exact Hinv.
  - destruct (is_recording (client s)); [|exact Hinv].
    pose proof (record_iteration_frame n mic (client s)) as H.
    destruct (record_iteration n mic (client s)) as [n' c'].
    cbn [snd] in H. destruct H as (Hc & Hs & Hr & Hu & Hsent).
    destruct Hinv as [Hcfg Hinv]. unfold handshake_invariant. cbn [client].
    rewrite Hc, Hs, Hr, Hu, Hsent. split; [exact Hcfg|].
    destruct Hinv as [(Hno & Hnil & Hrest)|(Hyes & chunks & Hchunks)].
    + left. destruct (socket (client s)); done.
    + right. split; [exact Hyes|].
      destruct (socket (client s)); [by exists chunks| |by exists chunks].
      exists (chunks ++ [mic]). rewrite Hchunks, map_app. reflexivity.
Qed.

Lemma handshake_invariant_step cfg uuid4 s e :
  handshake_invariant cfg uuid4 s ->
  handshake_invariant cfg uuid4 (step s e).
Proof.
  intros Hinv. destruct e as [|t raw| |mic|].
  - unfold step. destruct (socket (client s)) eqn:Hs; [|exact Hinv..].
    destruct Hinv as [Hcfg [(_ & Hsent & _ & Hsid)|(Hyes & _)]];
      [|rewrite Hs in Hyes; done].
    split; [exact Hcfg|]. right. cbn [client]. split; [done|].
    exists []. rewrite on_open_sent, Hsent. cbn [app map].
    unfold session_handshake, auth_message. cbn. rewrite Hcfg, Hsid.
    reflexivity.
  - unfold step. destruct (socket (client s)) eqn:Hs; [exact Hinv| |exact Hinv].
    destruct (on_message_frame t raw (client s)) as (Hc & Hk & Hsent).
    destruct Hinv as [Hcfg [(Hno & _)|(Hyes & Hchunks)]];
      [rewrite Hs in Hno; done|].
    split; [cbn [client]; congruence|]. right. cbn [client].
    rewrite Hk, Hsent. done.
  - unfold step. destruct (socket (client s)) eqn:Hs; [| |exact Hinv].
    + destruct Hinv as [Hcfg [(_ & Hrest)|(Hyes & _)]];
        [|rewrite Hs in Hyes; done].
      split; [exact Hcfg|]. left. split; [done|exact Hrest].
    + destruct Hinv as [Hcfg [(Hno & _)|(_ & Hchunks)]];
        [rewrite Hs in Hno; done|].
      split; [exact Hcfg|]. right. split; [done|exact Hchunks].
  - apply handshake_invariant_main_step. exact Hinv.
  - unfold step.
    destruct (main s); try exact Hinv.
    unfold _cleanup. destruct (recorded_frames (client s)); exact Hinv.
Qed.

Lemma handshake_invariant_run cfg uuid4 evs :
  forall s,
    handshake_invariant cfg uuid4 s ->
    handshake_invariant cfg uuid4 (run s evs).
Proof.
  unfold run. induction evs as [|e evs IH]; intros s Hinv; [exact Hinv|].
  cbn [fold_left]. apply IH, handshake_invariant_step, Hinv.
Qed.

(** C8: along every schedule of socket callbacks and foreground steps
    of a session, what has been sent is empty while the socket has not
    opened, and from the moment it opens it is the handshake followed
    by binary audio frames only: the handshake is sent by the step that
    opens the socket, once, and before every audio chunk. *)
Theorem handshake_precedes_audio :
  forall cfg uuid4 audio evs,
    let c := client (run (start cfg uuid4 audio) evs) in
    (socket c = Connecting -> sent c = [])
    /\ (socket c = Open ->
        exists chunks,
          sent c = session_handshake cfg uuid4 :: map BinaryFrame chunks)
    /\ (sent c = []
        \/ exists chunks,
            sent c = session_handshake cfg uuid4 :: map BinaryFrame chunks)
    /\ (socket c = Connecting ->
        sent (client (step (run (start cfg uuid4 audio) evs) SocketOpened))
        = [session_handshake cfg uuid4]).
Proof.
  intros cfg uuid4 audio evs c.
  pose proof (handshake_invariant_run cfg uuid4 evs _
                (handshake_invariant_start cfg uuid4 audio)) as Hinv.
  pose proof (handshake_invariant_step cfg uuid4 _ SocketOpened Hinv) as Hnext.
  destruct Hinv as [Hcfg Hinv]. fold c in Hcfg, Hinv.
  split; [|split; [|split]].
  - intros Hs. destruct Hinv as [(_ & Hnil & _)|(Hyes & _)]; done.
  - intros Hs. destruct Hinv as [(Hno & _)|(_ & Hchunks)]; done.
  - destruct Hinv as [(_ & Hnil & _)|(_ & Hchunks)]; [by left|by right].
  - intros Hs. destruct Hinv as [(_ & Hnil & _ & Hsid)|(Hyes & _)]; [|done].
    unfold step. fold c. rewrite Hs. cbn [client].
    rewrite on_open_sent, Hnil. cbn [app].
    unfold session_handshake, auth_message. cbn. rewrite Hcfg, Hsid.
    reflexivity.
Qed.

Lemma handshake_precedes_audio_witness :
  let cfg := mkServerConfig "wss://api.talkscriber.com" 9090 "key" false
               (Some "en") false in
  let ready := mkServerMessage None None (Some "SERVER_READY") None None None in
  let pcm := [Byte.x01; Byte.x02] in
  let s := run (start cfg "uid" None) [MainStep pcm] in
  sent (client (step s SocketOpened)) = [session_handshake cfg "uid"]
  /\ sent (client (run (start cfg "uid" None)
                     [MainStep pcm; SocketOpened; MainStep pcm;
                      SocketMessage 0 (Some ready); MainStep pcm;
                      MainStep pcm; MainStep pcm]))
     = [session_handshake cfg "uid"; BinaryFrame pcm; BinaryFrame pcm].
Proof.
  intros cfg ready pcm s. split.
  - apply (handshake_precedes_audio cfg "uid" None [MainStep pcm]).
    reflexivity.
  - reflexivity.
Defined.

End Handshake.

(** ** Batch client: the poll loop *)
Section PollLoop.
Import BatchClient.
Local Open Scope Q_scope.

Lemma json_eqb_str (j : json) (s : string) :
  json_eqb j (JStr s) = true <-> j = JStr s.
Proof.
  destruct j; cbn; try (split; [discriminate|discriminate]).
  rewrite String.eqb_eq. split; congruence.
Qed.

Lemma json_eqb_str_false (j : json) (s : string) :
  j <> JStr s -> json_eqb j (JStr s) = false.
Proof.
  intros H. destruct (json_eqb j (JStr s)) eqn:E; [|reflexivity].
  apply json_eqb_str in E. contradiction.
Qed.

Lemma failure_status_spec (j : json) :
  existsb (json_eqb j) failure_statuses = true <-> In j failure_statuses.
Proof.
  unfold failure_statuses. cbn [existsb In].
  rewrite !orb_true_iff, !json_eqb_str. intuition congruence.
Qed.

Variable server : nat -> fetch_reply.
Variables poll_interval timeout : Q.

Lemma time_sleep_nonneg (w : world) :
  0 <= poll_interval ->
  time_sleep poll_interval w
  = Ok (World (now w + poll_interval) (polls w) (stdout w)).
Proof.
  intros H. unfold time_sleep.
  destruct (Qlt_le_dec poll_interval 0) as [Hlt|_]; [|reflexivity].
  exfalso. exact (Qlt_not_le _ _ Hlt H).
Qed.

Lemma time_sleep_negative (w : world) :
  poll_interval < 0 ->
  time_sleep poll_interval w
  = Raise (PyExn ValueErrorC (MsgText "sleep length must be non-negative")).
Proof.
  intros H. unfold time_sleep.
  destruct (Qlt_le_dec poll_interval 0) as [_|Hle]; [reflexivity|].
  exfalso. exact (Qlt_not_le _ _ H Hle).
Qed.

Lemma loop_body_before_deadline (l : locals) (w : world) :
  before_deadline timeout l w ->
  loop_body server poll_interval timeout l w
  = let (r, w) := get_batch_job_status server w in
    match r with
    | Raise e =>
        sleep_then_continue poll_interval l (print (LogFetchFailed e) w)
    | Ok job_status =>
        let current_status := dict_get job_status "status" in
        if json_eqb current_status (JStr "DONE")
        then Return job_status
               (print (LogCompleted (time_time w - start_time l)) w)
        else if existsb (json_eqb current_status) failure_statuses
        then Raised (PyExn ExceptionC (MsgJobFailed current_status)) w
        else
          let (l, w) :=
            if negb (json_eqb current_status (last_status l))
            then (Locals (start_time l) current_status (time_time w),
                  print (LogStatus current_status) w)
            else if Qle_bool 60 (time_time w - status_start_time l)
            then (Locals (start_time l) (last_status l) (time_time w),
                  print (LogStillProcessing current_status) w)
            else (l, w) in
          sleep_then_continue poll_interval l w
    end.
Proof.
  intros H. unfold loop_body.
  destruct (Qlt_le_dec timeout (time_time w - start_time l)) as [Hlt|_];
    [|reflexivity].
  exfalso. exact (Qlt_not_le _ _ Hlt H).
Qed.

Lemma loop_body_after_deadline (l : locals) (w : world) :
  timeout < time_time w - start_time l ->
  loop_body server poll_interval timeout l w
  = Raised (PyExn ExceptionC (MsgJobTimedOut timeout)) w.
Proof.
  intros H. unfold loop_body.
  destruct (Qlt_le_dec timeout (time_time w - start_time l)) as [_|Hle];
    [reflexivity|].
  exfalso. exact (Qlt_not_le _ _ H Hle).
Qed.

Lemma other_status_continues (l : locals) (w : world)
    (job_status : gmap string json) :
  before_deadline timeout l w ->
  reply (server (polls w)) = Ok job_status ->
  dict_get job_status "status" <> JStr "DONE" ->
  ~ In (dict_get job_status "status") failure_statuses ->
  0 <= poll_interval ->
  exists l' w',
    loop_body server poll_interval timeout l w = Continue l' w'
    /\ start_time l' = start_time l
    /\ now w' = now w + latency (server (polls w)) + poll_interval
    /\ polls w' = S (polls w).
Proof.
  intros Hdl Hreply Hnd Hnf Hpi.
  pose proof (loop_body_before_deadline l w Hdl) as Hbody.
  unfold get_batch_job_status in Hbody. rewrite Hreply in Hbody.
  assert (Hnin : existsb (json_eqb (dict_get job_status "status"))
                   failure_statuses = false).
  { destruct (existsb _ failure_statuses) eqn:E; [|reflexivity].
    apply failure_status_spec in E. contradiction. }
  rewrite (json_eqb_str_false _ _ Hnd), Hnin in Hbody.
  rewrite Hbody. unfold sleep_then_continue.
  destruct (negb (json_eqb _ (last_status l)));
    [|destruct (Qle_bool 60 _)];
    rewrite time_sleep_nonneg by exact Hpi;
    (eexists; eexists; split; [reflexivity|]); cbn; done.
Qed.

Lemma other_status_negative_interval (l : locals) (w : world)
    (job_status : gmap string json) :
  before_deadline timeout l w ->
  reply (server (polls w)) = Ok job_status ->
  dict_get job_status "status" <> JStr "DONE" ->
  ~ In (dict_get job_status "status") failure_statuses ->
  poll_interval < 0 ->
  exists w',
    loop_body server poll_interval timeout l w
    = Raised (PyExn ValueErrorC (MsgText "sleep length must be non-negative"))
        w'
    /\ now w' = now w + latency (server (polls w))
    /\ polls w' = S (polls w).
Proof.
  intros Hdl Hreply Hnd Hnf Hpi.
  pose proof (loop_body_before_deadline l w Hdl) as Hbody.
  unfold get_batch_job_status in Hbody. rewrite Hreply in Hbody.
  assert (Hnin : existsb (json_eqb (dict_get job_status "status"))
                   failure_statuses = false).
  { destruct (existsb _ failure_statuses) eqn:E; [|reflexivity].
    apply failure_status_spec in E. contradiction. }
  rewrite (json_eqb_str_false _ _ Hnd), Hnin in Hbody.
  rewrite Hbody. unfold sleep_then_continue.
  destruct (negb (json_eqb _ (last_status l)));
    [|destruct (Qle_bool 60 _)];
    rewrite time_sleep_negative by exact Hpi;
    (eexists; split; [reflexivity|]); cbn; done.
Qed.

(** C1, as the code has it: on a turn of the loop that passes the
    deadline test and fetches a status dict, status "DONE" ends the loop
    by returning that dict, each of the three failure statuses ends it
    by raising, and any other status sleeps and goes round again with
    the same start time provided the poll interval is not negative; a
    turn entered after the deadline raises the time-out error.  With a
    negative poll interval the [time.sleep] that follows any other
    status raises [ValueError], which ends the call. *)
Theorem status_dispatch :
  (forall (l : locals) (w : world) (job_status : gmap string json)
          (fuel : nat),
      before_deadline timeout l w ->
      reply (server (polls w)) = Ok job_status ->
      let status := dict_get job_status "status" in
      let w1 := (get_batch_job_status server w).2 in
      (status = JStr "DONE" ->
       poll_loop server (S fuel) poll_interval timeout l w
       = Returned job_status
           (print (LogCompleted (time_time w1 - start_time l)) w1))
      /\ (In status [JStr "FAILED"; JStr "FAILED_TS_TRANSCRIBE";
                     JStr "FAILED_TRANSCRIBE"] ->
          poll_loop server (S fuel) poll_interval timeout l w
          = Failed (PyExn ExceptionC (MsgJobFailed status)) w1)
      /\ (status <> JStr "DONE" ->
          ~ In status [JStr "FAILED"; JStr "FAILED_TS_TRANSCRIBE";
                       JStr "FAILED_TRANSCRIBE"] ->
          0 <= poll_interval ->
          exists l' w',
            loop_body server poll_interval timeout l w = Continue l' w'
            /\ start_time l' = start_time l
            /\ now w' = now w + latency (server (polls w)) + poll_interval
            /\ polls w' = S (polls w)
            /\ poll_loop server (S fuel) poll_interval timeout l w
               = poll_loop server fuel poll_interval timeout l' w'))
  /\ (forall (l : locals) (w : world) (fuel : nat),
        timeout < time_time w - start_time l ->
        poll_loop server (S fuel) poll_interval timeout l w
        = Failed (PyExn ExceptionC (MsgJobTimedOut timeout)) w)
  /\ (forall (l : locals) (w : world) (job_status : gmap string json)
             (fuel : nat),
        before_deadline timeout l w ->
        reply (server (polls w)) = Ok job_status ->
        dict_get job_status "status" <> JStr "DONE" ->
        ~ In (dict_get job_status "status")
            [JStr "FAILED"; JStr "FAILED_TS_TRANSCRIBE";
             JStr "FAILED_TRANSCRIBE"] ->
        poll_interval < 0 ->
        exists w',
          poll_loop server (S fuel) poll_interval timeout l w
          = Failed
              (PyExn ValueErrorC (MsgText "sleep length must be non-negative"))
              w'
          /\ now w' = now w + latency (server (polls w))
          /\ polls w' = S (polls w)).
Proof.
  split; [|split].
  - intros l w job_status fuel Hdl Hreply status w1.
    pose proof (loop_body_before_deadline l w Hdl) as Hbody.
    unfold get_batch_job_status in Hbody. rewrite Hreply in Hbody.
    fold status in Hbody.
    split; [|split].
    + intros Hdone. cbn [poll_loop]. rewrite Hbody.
      rewrite (proj2 (json_eqb_str status "DONE") Hdone). reflexivity.
    + intros Hfail. cbn [poll_loop]. rewrite Hbody.
      assert (Hnd : status <> JStr "DONE").
      { intros E. rewrite E in Hfail. cbn in Hfail.
        destruct Hfail as [H|[H|[H|[]]]]; discriminate H. }
      rewrite (json_eqb_str_false _ _ Hnd).
      assert (Hin : In status failure_statuses).
      { unfold failure_statuses. cbn in Hfail |- *. tauto. }
      rewrite (proj2 (failure_status_spec status) Hin). reflexivity.
    + intros Hnd Hnf Hpi.
      destruct (other_status_continues l w job_status Hdl Hreply Hnd)
        as (l' & w' & Hcont & Hstart & Hnow & Hpolls); [|exact Hpi|].
      { intros Hin. apply Hnf. unfold failure_statuses in Hin.
        cbn in Hin |- *. tauto. }
      exists l', w'. cbn [poll_loop]. rewrite Hcont. done.
  - intros l w fuel Hlate. cbn [poll_loop].
    rewrite loop_body_after_deadline by exact Hlate. reflexivity.
  - intros l w job_status fuel Hdl Hreply Hnd Hnf Hpi.
    destruct (other_status_negative_interval l w job_status Hdl Hreply Hnd)
      as (w' & Hbody & Hnow & Hpolls); [|exact Hpi|].
    { intros Hin. apply Hnf. unfold failure_statuses in Hin.
      cbn in Hin |- *. tauto. }
    exists w'. cbn [poll_loop]. rewrite Hbody. done.
Qed.

Lemma fetch_failure_continues (l : locals) (w : world) (e : pyexn) :
  before_deadline timeout l w ->
  reply (server (polls w)) = Raise e ->
  0 <= poll_interval ->
  loop_body server poll_interval timeout l w
  = Continue l
      (World (now w + latency (server (polls w)) + poll_interval)
         (S (polls w)) (stdout w ++ [LogFetchFailed e])).
Proof.
  intros Hdl Hreply Hpi.
  rewrite (loop_body_before_deadline l w Hdl).
  unfold get_batch_job_status. rewrite Hreply.
  unfold sleep_then_continue. rewrite time_sleep_nonneg by exact Hpi.
  reflexivity.
Qed.

Lemma non_terminal_continues (l : locals) (w : world) :
  before_deadline timeout l w ->
  non_terminal (reply (server (polls w))) ->
  0 <= poll_interval ->
  exists l' w',
    loop_body server poll_interval timeout l w = Continue l' w'
    /\ start_time l' = start_time l
    /\ now w' = now w + latency (server (polls w)) + poll_interval.
Proof.
  intros Hdl Hnt Hpi.
  destruct (reply (server (polls w))) as [job_status|e] eqn:Hreply.
  - destruct Hnt as [Hnd Hnf].
    destruct (other_status_continues l w job_status Hdl Hreply Hnd Hnf Hpi)
      as (l' & w' & Hbody & Hstart & Hnow & _).
    exists l', w'. done.
  - eexists; eexists. split; [apply fetch_failure_continues; eassumption|].
    done.
Qed.

Lemma poll_loop_more_fuel (n k : nat) :
  forall l w e w',
    poll_loop server n poll_interval timeout l w = Failed e w' ->
    poll_loop server (n + k) poll_interval timeout l w = Failed e w'.
Proof.
  induction n as [|n IH]; intros l w e w' H; [discriminate H|].
  cbn [poll_loop Nat.add] in H |- *.
  destruct (loop_body server poll_interval timeout l w) as [js w1|e1 w1|l1 w1];
    [discriminate H|exact H|apply IH, H].
Qed.

Lemma fetch_failure_negative_interval (l : locals) (w : world) (e : pyexn) :
  before_deadline timeout l w ->
  reply (server (polls w)) = Raise e ->
  poll_interval < 0 ->
  loop_body server poll_interval timeout l w
  = Raised (PyExn ValueErrorC (MsgText "sleep length must be non-negative"))
      (World (now w + latency (server (polls w)))
         (S (polls w)) (stdout w ++ [LogFetchFailed e])).
Proof.
  intros Hdl Hreply Hpi.
  rewrite (loop_body_before_deadline l w Hdl).
  unfold get_batch_job_status. rewrite Hreply.
  unfold sleep_then_continue. rewrite time_sleep_negative by exact Hpi.
  reflexivity.
Qed.

(** Each turn that does not end the loop moves the clock by the latency
    of its request plus the poll interval; when that is at least [delta]
    every time, [n] turns are enough to pass a deadline less than
    [n * delta] away. *)
Lemma poll_loop_times_out (delta : Q) :
  0 <= poll_interval ->
  (forall n, delta <= latency (server n) + poll_interval) ->
  (forall n, non_terminal (reply (server n))) ->
  forall (n : nat) (l : locals) (w : world),
    timeout - (now w - start_time l) < inject_Z (Z.of_nat n) * delta ->
    exists w',
      poll_loop server (S n) poll_interval timeout l w
      = Failed (PyExn ExceptionC (MsgJobTimedOut timeout)) w'
      /\ timeout < now w' - start_time l.
Proof.
  intros Hpi Hpace Hnt. induction n as [|n IH]; intros l w Hn.
  - assert (Hlate : timeout < time_time w - start_time l).
    { unfold time_time. change (inject_Z (Z.of_nat 0)) with 0 in Hn. lra. }
    exists w. cbn [poll_loop].
    rewrite loop_body_after_deadline by exact Hlate. done.
  - destruct (Qlt_le_dec timeout (time_time w - start_time l)) as [Hlate|Hdl].
    + exists w. cbn [poll_loop].
      rewrite loop_body_after_deadline by exact Hlate. done.
    + destruct (non_terminal_continues l w Hdl (Hnt _) Hpi)
        as (l' & w' & Hbody & Hstart & Hnow).
      destruct (IH l' w') as (w2 & Hloop & Hpast).
      * rewrite Hstart, Hnow. pose proof (Hpace (polls w)) as Hl.
        rewrite Nat2Z.inj_succ in Hn. unfold Z.succ in Hn.
        rewrite inject_Z_plus in Hn. change (inject_Z 1) with 1 in Hn.
        lra.
      * exists w2. change (poll_loop server (S (S n)) poll_interval timeout l w)
          with (match loop_body server poll_interval timeout l w with
                | Return job_status w' => Returned job_status w'
                | Raised e w' => Failed e w'
                | Continue l' w' =>
                    poll_loop server (S n) poll_interval timeout l' w'
                end).
        rewrite Hbody, <- Hstart. done.
Qed.

Lemma enough_turns (delta x : Q) :
  0 < delta ->
  exists n : nat, x < inject_Z (Z.of_nat n) * delta.
Proof.
  intros Hpi. exists (Z.to_nat (Z.max 0 (Qfloor (x / delta) + 1))).
  rewrite Z2Nat.id by lia.
  apply Qlt_le_trans with
    (inject_Z (Qfloor (x / delta) + 1) * delta).
  - pose proof (Qlt_floor (x / delta)) as H.
    apply (Qmult_lt_compat_r _ _ delta Hpi) in H.
    assert (E : x / delta * delta == x).
    { field. intros E0. rewrite E0 in Hpi. exact (Qlt_irrefl _ Hpi). }
    rewrite E in H. exact H.
  - apply Qmult_le_compat_r; [|lra].
    rewrite <- Zle_Qle. lia.
Qed.

(** C2, as the code has it.  With a poll interval that is not negative,
    a status request that fails before the deadline is printed and
    followed by a sleep and another turn, never raised.  If moreover
    every turn takes at least some fixed positive time [delta] (the
    latency of its request plus the poll interval) and no request ever
    yields a terminal status, the call ends, for every large enough
    number of turns, by raising a plain [Exception] "Job timed out after
    ... seconds" at a moment when the elapsed time exceeds the time-out.
    With a negative poll interval the first failed request is printed and
    then [time.sleep] raises [ValueError] to the caller. *)
Theorem deadline_raises_plain_exception :
  (0 <= poll_interval ->
   forall l w e,
     before_deadline timeout l w ->
     reply (server (polls w)) = Raise e ->
     loop_body server poll_interval timeout l w
     = Continue l
         (World (now w + latency (server (polls w)) + poll_interval)
            (S (polls w)) (stdout w ++ [LogFetchFailed e])))
  /\ (0 <= poll_interval ->
      forall delta : Q,
        0 < delta ->
        (forall n, delta <= latency (server n) + poll_interval) ->
        (forall n, non_terminal (reply (server n))) ->
        forall job_id w,
        exists fuel0 : nat,
          forall fuel : nat,
            (fuel0 <= fuel)%nat ->
            exists w',
              wait_for_job_completion server fuel job_id poll_interval timeout w
              = Failed (PyExn ExceptionC (MsgJobTimedOut timeout)) w'
              /\ timeout < now w' - now w)
  /\ (poll_interval < 0 ->
      forall l w e,
        before_deadline timeout l w ->
        reply (server (polls w)) = Raise e ->
        loop_body server poll_interval timeout l w
        = Raised
            (PyExn ValueErrorC (MsgText "sleep length must be non-negative"))
            (World (now w + latency (server (polls w)))
               (S (polls w)) (stdout w ++ [LogFetchFailed e]))).
Proof.
  split; [|split].
  - intros Hpi l w e Hdl Hreply. apply fetch_failure_continues; done.
  - intros Hpi delta Hdelta Hpace Hnt job_id w.
    destruct (enough_turns delta (timeout - (now w - now w)) Hdelta) as [n Hn].
    exists (S n). intros fuel Hfuel.
    unfold wait_for_job_completion.
    set (l0 := Locals (time_time w) JNull (time_time w)).
    set (w0 := print (LogJobId job_id) (print LogWaiting w)).
    destruct (poll_loop_times_out delta Hpi Hpace Hnt n l0 w0 Hn)
      as (w' & Hloop & Hpast).
    exists w'. split; [|exact Hpast].
    replace fuel with (S n + (fuel - S n))%nat by lia.
    apply poll_loop_more_fuel. exact Hloop.
  - intros Hpi l w e Hdl Hreply.
    apply fetch_failure_negative_interval; done.
Qed.

End PollLoop.

Section PollLoopExamples.
Import BatchClient.
Local Open Scope Q_scope.

Lemma status_dispatch_witness :
  (exists w',
      poll_loop done_at_once 1 2 3600 (Locals 0 JNull 0) (World 0 0 [])
      = Returned done_status w')
  /\ (exists l' w',
        poll_loop always_processing 5 2 3600 (Locals 0 JNull 0) (World 0 0 [])
        = poll_loop always_processing 4 2 3600 l' w'
        /\ now w' = 0 + 0 + 2).
Proof.
  destruct (status_dispatch done_at_once 2 3600) as [Hdone _].
  destruct (status_dispatch always_processing 2 3600) as [Hproc _].
  split.
  - eexists.
    refine (proj1 (Hdone (Locals 0 JNull 0) (World 0 0 []) done_status
                     0%nat _ _) _).
    + unfold before_deadline. cbn. lra.
    + reflexivity.
    + reflexivity.
  - destruct (Hproc (Locals 0 JNull 0) (World 0 0 []) processing_status
                4%nat) as (_ & _ & H).
    + unfold before_deadline. cbn. lra.
    + reflexivity.
    + destruct H as (l' & w' & _ & _ & Hnow & _ & Hloop).
      * discriminate.
      * cbn. intros [H|[H|[H|[]]]]; discriminate H.
      * lra.
      * exists l', w'. split; [exact Hloop|exact Hnow].
Defined.

Lemma deadline_raises_plain_exception_witness :
  exists fuel0 : nat,
    forall fuel : nat,
      (fuel0 <= fuel)%nat ->
      exists w',
        wait_for_job_completion always_unreachable fuel "job" 0 10
          (World 0 0 [])
        = Failed (PyExn ExceptionC (MsgJobTimedOut 10)) w'
        /\ 10 < now w' - 0.
Proof.
  refine (proj1 (proj2 (deadline_raises_plain_exception
                          always_unreachable 0 10)) _ 1 _ _ _
            "job" (World 0 0 [])).
  - lra.
  - lra.
  - intros n. cbn. lra.
  - intros n. exact I.
Defined.

(** C1 as stated fails: the job below reports status "PROCESSING", which
    is neither "DONE" nor a failure status, and the deadline is an hour
    away; with a poll interval of -1 the call does not go on polling
    until the deadline: after the first status request [time.sleep]
    raises [ValueError], at time 0. *)
Lemma negative_poll_interval_stops_polling :
  dict_get processing_status "status" = JStr "PROCESSING"
  /\ (forall n, reply (always_processing n) = Ok processing_status)
  /\ (forall fuel : nat,
        wait_for_job_completion always_processing (S fuel) "job" (-1) 3600
          (World 0 0 [])
        = Failed
            (PyExn ValueErrorC (MsgText "sleep length must be non-negative"))
            (World 0 1 [LogWaiting; LogJobId "job";
                        LogStatus (JStr "PROCESSING")])).
Proof.
  split; [reflexivity|]. split; [reflexivity|].
  intros fuel. unfold wait_for_job_completion. cbn [poll_loop].
  vm_compute. reflexivity.
Qed.

(** C2 as stated fails: the job below never finishes, and the call
    ends with an exception of class [Exception], not [TimeoutError]. *)
Lemma timeout_is_not_a_TimeoutError :
  (exists w',
      wait_for_job_completion always_processing 10 "job" 1 2 (World 0 0 [])
      = Failed (PyExn ExceptionC (MsgJobTimedOut 2)) w')
  /\ ~ (exists m w',
          wait_for_job_completion always_processing 10 "job" 1 2
            (World 0 0 [])
          = Failed (PyExn TimeoutErrorC m) w').
Proof.
  split.
  - eexists. vm_compute. reflexivity.
  - intros (m & w' & H). vm_compute in H. discriminate H.
Qed.

End PollLoopExamples.

(** ** Benchmark: percentiles *)
Section Percentile.
Import Benchmark.
Local Open Scope Q_scope.

#[local] Instance Qle_transitive : Transitive Qle.
Proof. intros x y z. apply Qle_trans. Qed.

#[local] Instance Qle_total : Total Qle.
Proof.
  intros x y. destruct (Qlt_le_dec x y) as [H|H].
  - left. apply Qlt_le_weak. exact H.
  - right. exact H.
Qed.

Lemma sorted_length (data : list Q) : length (sorted data) = length data.
Proof. unfold sorted. apply Permutation_length, merge_sort_Permutation. Qed.

Lemma sorted_In (data : list Q) (x : Q) : In x (sorted data) <-> In x data.
Proof.
  unfold sorted. split; apply Permutation_in.
  - apply merge_sort_Permutation.
  - symmetry. apply merge_sort_Permutation.
Qed.

Lemma sorted_StronglySorted (data : list Q) :
  StronglySorted Qle (sorted data).
Proof. unfold sorted. apply StronglySorted_merge_sort; apply _. Qed.

Lemma StronglySorted_nth_le (l : list Q) :
  StronglySorted Qle l ->
  forall (i j : nat) (a b : Q),
    nth_error l i = Some a -> nth_error l j = Some b -> (i <= j)%nat ->
    a <= b.
Proof.
  induction 1 as [|x l Hsorted IH Hall]; intros i j a b Hi Hj Hij.
  - destruct i; discriminate Hi.
  - destruct i as [|i], j as [|j]; cbn in Hi, Hj.
    + injection Hi as <-. injection Hj as <-. apply Qle_refl.
    + injection Hi as <-. apply nth_error_In in Hj.
      rewrite Forall_forall in Hall. apply Hall.
      apply list_elem_of_In. exact Hj.
    + lia.
    + apply (IH i j); [assumption..|lia].
Qed.

Lemma py_getitem_nth (l : list Q) (k : nat) (a : Q) :
  nth_error l k = Some a ->
  py_getitem l (Z.of_nat k) = Ok a.
Proof.
  intros H. unfold py_getitem.
  assert (Hk : (k < length l)%nat) by (apply nth_error_Some; congruence).
  destruct (Z.ltb_spec (Z.of_nat k) 0) as [Hneg|_]; [lia|].
  destruct (Z.ltb_spec (Z.of_nat k) 0) as [Hneg|_]; [lia|].
  destruct (Z.leb_spec (Z.of_nat (length l)) (Z.of_nat k)) as [Hbig|_]; [lia|].
  cbn [orb]. rewrite Nat2Z.id, H. reflexivity.
Qed.

Lemma py_getitem_out_of_range (l : list Q) (i : Z) :
  (Z.of_nat (length l) <= i)%Z ->
  exists e, py_getitem l i = Raise e /\ exn_cls e = IndexErrorC.
Proof.
  intros H. unfold py_getitem.
  destruct (Z.ltb_spec i 0) as [Hneg|_]; [lia|].
  destruct (Z.ltb_spec i 0) as [Hneg|_]; [lia|].
  destruct (Z.leb_spec (Z.of_nat (length l)) i) as [_|Hsmall]; [|lia].
  cbn [orb]. eexists. split; reflexivity.
Qed.

Lemma py_int_nonneg (x : Q) : 0 <= x -> py_int x = Qfloor x.
Proof.
  intros H. unfold py_int, Qfloor. destruct x as [n d]. cbn.
  assert (Hn : (0 <= n)%Z).
  { unfold Qle in H. cbn in H. lia. }
  apply Z.quot_div_nonneg; lia.
Qed.

Lemma rank_bounds (len : Z) (percentile : Q) :
  (1 <= len)%Z -> 0 <= percentile -> percentile <= 100 ->
  0 <= rank len percentile /\ rank len percentile <= inject_Z (len - 1).
Proof.
  intros Hlen H0 H100. unfold rank.
  assert (HN : 0 <= inject_Z (len - 1)).
  { change 0 with (inject_Z 0). rewrite <- Zle_Qle. lia. }
  set (N := inject_Z (len - 1)) in *.
  assert (E : N * percentile / 100 == N * (percentile / 100)) by field.
  rewrite E.
  assert (Hf0 : 0 <= percentile / 100) by (apply Qle_shift_div_l; lra).
  assert (Hf1 : percentile / 100 <= 1) by (apply Qle_shift_div_r; lra).
  split; nra.
Qed.

Lemma rank_mono (len : Z) (p1 p2 : Q) :
  (1 <= len)%Z -> p1 <= p2 -> rank len p1 <= rank len p2.
Proof.
  intros Hlen H. unfold rank.
  assert (HN : 0 <= inject_Z (len - 1)).
  { change 0 with (inject_Z 0). rewrite <- Zle_Qle. lia. }
  set (N := inject_Z (len - 1)) in *.
  unfold Qdiv. apply Qmult_le_compat_r; [|discriminate].
  rewrite (Qmult_comm N p1), (Qmult_comm N p2).
  apply Qmult_le_compat_r; [exact H|exact HN].
Qed.

Lemma lower_bounds (len : Z) (percentile : Q) :
  (1 <= len)%Z -> 0 <= percentile -> percentile <= 100 ->
  let index := rank len percentile in
  let lower := py_int index in
  (0 <= lower < len)%Z
  /\ 0 <= index - inject_Z lower
  /\ index - inject_Z lower < 1.
Proof.
  intros Hlen H0 H100 index lower.
  destruct (rank_bounds len percentile Hlen H0 H100) as [Hi0 Hi1].
  fold index in Hi0, Hi1.
  assert (El : lower = Qfloor index) by (apply py_int_nonneg; exact Hi0).
  rewrite El. split; [split|split].
  - change 0%Z with (Qfloor 0). apply Qfloor_resp_le. exact Hi0.
  - apply Qfloor_resp_le in Hi1. rewrite Qfloor_Z in Hi1. lia.
  - pose proof (Qfloor_le index). lra.
  - pose proof (Qlt_floor index) as H. rewrite inject_Z_plus in H.
    change (inject_Z 1) with 1 in H. lra.
Qed.

Lemma calculate_percentile_cases (data : list Q) (percentile : Q) :
  data <> [] -> 0 <= percentile -> percentile <= 100 ->
  let sorted_data := sorted data in
  let len := Z.of_nat (length sorted_data) in
  let index := rank len percentile in
  let lower := py_int index in
  let weight := index - inject_Z lower in
  exists a,
    nth_error sorted_data (Z.to_nat lower) = Some a
    /\ (((len <= lower + 1)%Z
         /\ calculate_percentile data percentile = Ok a)
        \/ ((lower + 1 < len)%Z
            /\ exists b,
                nth_error sorted_data (S (Z.to_nat lower)) = Some b
                /\ calculate_percentile data percentile
                   = Ok (a * (1 - weight) + b * weight))).
Proof.
  intros Hne H0 H100 sorted_data len index lower weight.
  assert (Hlen : (1 <= len)%Z).
  { subst len sorted_data. rewrite sorted_length.
    destruct data; [contradiction|cbn; lia]. }
  destruct (lower_bounds len percentile Hlen H0 H100) as ([Hl0 Hl1] & _).
  fold index lower in Hl0, Hl1.
  destruct (nth_error sorted_data (Z.to_nat lower)) as [a|] eqn:Ha;
    [|apply nth_error_None in Ha; lia].
  exists a. split; [reflexivity|].
  assert (Hget : py_getitem sorted_data lower = Ok a).
  { rewrite <- (Z2Nat.id lower) by lia. apply py_getitem_nth. exact Ha. }
  assert (Hcp : calculate_percentile data percentile
                = if (len <=? lower + 1)%Z
                  then py_getitem sorted_data lower
                  else
                    lo ← py_getitem sorted_data lower;
                    hi ← py_getitem sorted_data (lower + 1);
                    Ok (lo * (1 - weight) + hi * weight)).
  { destruct data; [contradiction|reflexivity]. }
  rewrite Hcp.
  destruct (Z.leb_spec len (lower + 1)) as [Hup|Hup].
  - left. split; [exact Hup|exact Hget].
  - right. split; [exact Hup|].
    destruct (nth_error sorted_data (S (Z.to_nat lower))) as [b|] eqn:Hb;
      [|apply nth_error_None in Hb; lia].
    exists b. split; [reflexivity|].
    assert (Hget' : py_getitem sorted_data (lower + 1) = Ok b).
    { replace (lower + 1)%Z with (Z.of_nat (S (Z.to_nat lower))) by lia.
      apply py_getitem_nth. exact Hb. }
    rewrite Hget. cbn. rewrite Hget'. reflexivity.
Qed.

(** C9: on a non-empty list and a percentile between 0 and 100 the
    lower index lies within the list, the upper index is read only when
    it lies within the list too, and the function returns a value; with
    a percentile above 100 the lower index can leave the list, as for
    [calculate_percentile([10, 20], 200)], which raises [IndexError]. *)
Theorem percentile_indexing_in_bounds :
  (forall (data : list Q) (percentile : Q),
      data <> [] -> 0 <= percentile -> percentile <= 100 ->
      let sorted_data := sorted data in
      let len := Z.of_nat (length data) in
      let index := rank len percentile in
      let lower := py_int index in
      let upper := (lower + 1)%Z in
      let weight := index - inject_Z lower in
      (0 <= lower < len)%Z
      /\ ((len <= upper)%Z ->
          exists lo,
            py_getitem sorted_data lower = Ok lo
            /\ calculate_percentile data percentile = Ok lo)
      /\ ((upper < len)%Z ->
          exists lo hi,
            py_getitem sorted_data lower = Ok lo
            /\ py_getitem sorted_data upper = Ok hi
            /\ calculate_percentile data percentile
               = Ok (lo * (1 - weight) + hi * weight))
      /\ exists v, calculate_percentile data percentile = Ok v)
  /\ (exists e,
        calculate_percentile [10; 20] 200 = Raise e
        /\ exn_cls e = IndexErrorC).
Proof.
  split.
  - intros data percentile Hne H0 H100 sorted_data len index lower upper weight.
    pose proof (calculate_percentile_cases data percentile Hne H0 H100)
      as Hcases.
    cbn zeta in Hcases. rewrite sorted_length in Hcases.
    fold sorted_data len index lower weight in Hcases.
    destruct Hcases as (a & Ha & Hcases).
    assert (Hlen : (1 <= len)%Z).
    { subst len. destruct data; [contradiction|cbn; lia]. }
    destruct (lower_bounds len percentile Hlen H0 H100) as (Hl & _).
    fold index lower in Hl.
    assert (Hget : py_getitem sorted_data lower = Ok a).
    { rewrite <- (Z2Nat.id lower) by lia. apply py_getitem_nth. exact Ha. }
    split; [exact Hl|]. subst upper.
    destruct Hcases as [(Hup & Hres)|(Hup & b & Hb & Hres)].
    + split; [|split].
      * intros _. exists a. done.
      * intros Hlt. lia.
      * exists a. exact Hres.
    + split; [|split].
      * intros Hge. lia.
      * intros _. exists a, b. split; [exact Hget|]. split; [|exact Hres].
        replace (lower + 1)%Z with (Z.of_nat (S (Z.to_nat lower))) by lia.
        apply py_getitem_nth. exact Hb.
      * eexists. exact Hres.
  - eexists. split; [vm_compute; reflexivity|reflexivity].
Qed.

Lemma percentile_indexing_in_bounds_witness :
  (0 <= py_int (rank 4 50) < 4)%Z
  /\ exists v, calculate_percentile [10; 20; 30; 40] 50 = Ok v.
Proof.
  destruct (proj1 percentile_indexing_in_bounds [10; 20; 30; 40] 50)
    as (Hlower & _ & _ & Hvalue).
  - discriminate.
  - discriminate.
  - discriminate.
  - split; [exact Hlower|exact Hvalue].
Defined.

Lemma interpolation_between (a b w : Q) :
  a <= b -> 0 <= w -> w <= 1 ->
  a <= a * (1 - w) + b * w /\ a * (1 - w) + b * w <= b.
Proof. intros Hab H0 H1. split; nra. Qed.

Lemma interpolation_mono (a b w1 w2 : Q) :
  a <= b -> w1 <= w2 ->
  a * (1 - w1) + b * w1 <= a * (1 - w2) + b * w2.
Proof. intros Hab Hw. nra. Qed.

(** In exact arithmetic the interpolation is non-decreasing in the
    percentile argument over the range 0 to 100. *)
Theorem percentile_monotone :
  forall (data : list Q) (p1 p2 : Q),
    0 <= p1 -> p1 <= p2 -> p2 <= 100 ->
    exists v1 v2,
      calculate_percentile data p1 = Ok v1
      /\ calculate_percentile data p2 = Ok v2
      /\ v1 <= v2.
Proof.
  intros data p1 p2 H0 H12 H100.
  destruct (decide (data = [])) as [->|Hne].
  { exists 0, 0. repeat split. apply Qle_refl. }
  assert (Hp1 : p1 <= 100) by lra.
  assert (Hp2 : 0 <= p2) by lra.
  pose proof (calculate_percentile_cases data p1 Hne H0 Hp1) as C1.
  pose proof (calculate_percentile_cases data p2 Hne Hp2 H100) as C2.
  cbn zeta in C1, C2.
  set (s := sorted data) in *.
  set (len := Z.of_nat (length s)) in *.
  assert (Hlen : (1 <= len)%Z).
  { subst len s. rewrite sorted_length. destruct data; [done|cbn; lia]. }
  destruct (lower_bounds len p1 Hlen H0 Hp1) as (Hl1 & Hw1 & Hw1').
  destruct (lower_bounds len p2 Hlen Hp2 H100) as (Hl2 & Hw2 & Hw2').
  cbn zeta in Hl1, Hw1, Hw1', Hl2, Hw2, Hw2'.
  pose proof (rank_mono len p1 p2 Hlen H12) as Hrank.
  destruct (rank_bounds len p1 Hlen H0 Hp1) as [Hr1 _].
  destruct (rank_bounds len p2 Hlen Hp2 H100) as [Hr2 _].
  assert (Hlow : (py_int (rank len p1) <= py_int (rank len p2))%Z).
  { rewrite !py_int_nonneg by assumption. apply Qfloor_resp_le. exact Hrank. }
  set (i1 := rank len p1) in *. set (i2 := rank len p2) in *.
  set (l1 := py_int i1) in *. set (l2 := py_int i2) in *.
  pose proof (sorted_StronglySorted data) as Hsorted. fold s in Hsorted.
  pose proof (StronglySorted_nth_le s Hsorted) as Hle.
  destruct C1 as (a1 & Ha1 & C1). destruct C2 as (a2 & Ha2 & C2).
  assert (Ha12 : a1 <= a2) by (apply (Hle _ _ _ _ Ha1 Ha2); lia).
  destruct C1 as [(Hup1 & R1)|(Hup1 & b1 & Hb1 & R1)];
    destruct C2 as [(Hup2 & R2)|(Hup2 & b2 & Hb2 & R2)];
    rewrite R1, R2; eexists; eexists;
    (split; [reflexivity|split; [reflexivity|]]).
  - exact Ha12.
  - assert (Hab2 : a2 <= b2) by (apply (Hle _ _ _ _ Ha2 Hb2); lia).
    destruct (interpolation_between a2 b2 (i2 - inject_Z l2)); [lra..|]. lra.
  - assert (Hab1 : a1 <= b1) by (apply (Hle _ _ _ _ Ha1 Hb1); lia).
    assert (Hb1a2 : b1 <= a2) by (apply (Hle _ _ _ _ Hb1 Ha2); lia).
    destruct (interpolation_between a1 b1 (i1 - inject_Z l1)); [lra..|]. lra.
  - assert (Hab1 : a1 <= b1) by (apply (Hle _ _ _ _ Ha1 Hb1); lia).
    assert (Hab2 : a2 <= b2) by (apply (Hle _ _ _ _ Ha2 Hb2); lia).
    destruct (Z.eq_dec l1 l2) as [E|NE].
    + rewrite <- E in Ha2, Hb2.
      assert (a1 = a2) by congruence. assert (b1 = b2) by congruence.
      subst a2 b2. apply interpolation_mono; [exact Hab1|].
      rewrite <- E. lra.
    + assert (Hb1a2 : b1 <= a2) by (apply (Hle _ _ _ _ Hb1 Ha2); lia).
      destruct (interpolation_between a1 b1 (i1 - inject_Z l1)); [lra..|].
      destruct (interpolation_between a2 b2 (i2 - inject_Z l2)); [lra..|].
      lra.
Qed.

Lemma percentile_monotone_witness :
  exists v1 v2,
    calculate_percentile [40; 10; 30; 20] 50 = Ok v1
    /\ calculate_percentile [40; 10; 30; 20] 95 = Ok v2
    /\ v1 <= v2.
Proof.
  apply (percentile_monotone [40; 10; 30; 20] 50 95); discriminate.
Defined.

Lemma fold_min_spec (rest : list Q) :
  forall x,
    let m := fold_left (fun m y => if Qlt_le_dec y m then y else m) rest x in
    In m (x :: rest) /\ forall y, In y (x :: rest) -> m <= y.
Proof.
  induction rest as [|z rest IH]; intros x m.
  - subst m. cbn. split; [by left|].
    intros y [<-|[]]. apply Qle_refl.
  - subst m. cbn [fold_left].
    destruct (Qlt_le_dec z x) as [Hlt|Hle].
    + destruct (IH z) as [Hin Hmin]. split.
      * destruct Hin as [<-|Hin]; [right; by left|right; by right].
      * intros y [<-|[<-|Hy]].
        -- apply Qle_trans with z; [apply Hmin; by left|].
           apply Qlt_le_weak. exact Hlt.
        -- apply Hmin. by left.
        -- apply Hmin. by right.
    + destruct (IH x) as [Hin Hmin]. split.
      * destruct Hin as [<-|Hin]; [by left|right; by right].
      * intros y [<-|[<-|Hy]].
        -- apply Hmin. by left.
        -- apply Qle_trans with x; [apply Hmin; by left|exact Hle].
        -- apply Hmin. by right.
Qed.

Lemma fold_max_spec (rest : list Q) :
  forall x,
    let m := fold_left (fun m y => if Qlt_le_dec m y then y else m) rest x in
    In m (x :: rest) /\ forall y, In y (x :: rest) -> y <= m.
Proof.
  induction rest as [|z rest IH]; intros x m.
  - subst m. cbn. split; [by left|].
    intros y [<-|[]]. apply Qle_refl.
  - subst m. cbn [fold_left].
    destruct (Qlt_le_dec x z) as [Hlt|Hle].
    + destruct (IH z) as [Hin Hmax]. split.
      * destruct Hin as [<-|Hin]; [right; by left|right; by right].
      * intros y [<-|[<-|Hy]].
        -- apply Qle_trans with z; [|apply Hmax; by left].
           apply Qlt_le_weak. exact Hlt.
        -- apply Hmax. by left.
        -- apply Hmax. by right.
    + destruct (IH x) as [Hin Hmax]. split.
      * destruct Hin as [<-|Hin]; [by left|right; by right].
      * intros y [<-|[<-|Hy]].
        -- apply Hmax. by left.
        -- apply Qle_trans with x; [exact Hle|apply Hmax; by left].
        -- apply Hmax. by right.
Qed.

Lemma sorted_bounds (data : list Q) (k : nat) (a : Q) :
  nth_error (sorted data) k = Some a ->
  In a data
  /\ (k = 0%nat -> forall y, In y data -> a <= y)
  /\ (S k = length data -> forall y, In y data -> y <= a).
Proof.
  intros Ha.
  pose proof (StronglySorted_nth_le _ (sorted_StronglySorted data)) as Hle.
  split; [|split].
  - apply sorted_In. eapply nth_error_In. exact Ha.
  - intros -> y Hy. apply sorted_In in Hy.
    apply In_nth_error in Hy. destruct Hy as [j Hj].
    apply (Hle _ _ _ _ Ha Hj). lia.
  - intros Hk y Hy. apply sorted_In in Hy.
    apply In_nth_error in Hy. destruct Hy as [j Hj].
    apply (Hle _ _ _ _ Hj Ha).
    assert (j < length (sorted data))%nat
      by (apply nth_error_Some; congruence).
    rewrite sorted_length in *. lia.
Qed.

Lemma rank_0 (len : Z) : rank len 0 == 0.
Proof. unfold rank. field. Qed.

Lemma rank_100 (len : Z) : rank len 100 == inject_Z (len - 1).
Proof. unfold rank. field. Qed.

Lemma percentile_0_is_head (data : list Q) :
  data <> [] ->
  exists v a,
    calculate_percentile data 0 = Ok v
    /\ nth_error (sorted data) 0 = Some a
    /\ v == a.
Proof.
  intros Hne.
  destruct (calculate_percentile_cases data 0 Hne) as (a & Ha & Hcases);
    [discriminate..|].
  cbn zeta in Hcases, Ha.
  set (len := Z.of_nat (length (sorted data))) in *.
  assert (Hlow : py_int (rank len 0) = 0%Z).
  { rewrite py_int_nonneg by (rewrite rank_0; apply Qle_refl).
    rewrite (Qfloor_comp _ _ (rank_0 len)). reflexivity. }
  rewrite Hlow in Ha, Hcases. cbn in Ha.
  destruct Hcases as [(_ & R)|(_ & b & _ & R)].
  - exists a, a. split; [exact R|]. split; [exact Ha|reflexivity].
  - eexists; exists a. split; [exact R|]. split; [exact Ha|].
    rewrite rank_0. ring.
Qed.

Lemma percentile_100_is_last (data : list Q) :
  data <> [] ->
  exists v,
    calculate_percentile data 100 = Ok v
    /\ nth_error (sorted data) (length data - 1) = Some v.
Proof.
  intros Hne.
  destruct (calculate_percentile_cases data 100 Hne) as (a & Ha & Hcases);
    [discriminate..|].
  cbn zeta in Hcases, Ha.
  set (len := Z.of_nat (length (sorted data))) in *.
  assert (Hlen : (1 <= len)%Z).
  { subst len. rewrite sorted_length. destruct data; [done|cbn; lia]. }
  assert (Hlow : py_int (rank len 100) = (len - 1)%Z).
  { rewrite py_int_nonneg.
    - rewrite (Qfloor_comp _ _ (rank_100 len)). apply Qfloor_Z.
    - rewrite rank_100. change 0 with (inject_Z 0). rewrite <- Zle_Qle. lia. }
  rewrite Hlow in Ha, Hcases.
  replace (Z.to_nat (len - 1)) with (length data - 1)%nat in Ha
    by (subst len; rewrite sorted_length; lia).
  destruct Hcases as [(_ & R)|(Hup & _)]; [|lia].
  exists a. split; [exact R|exact Ha].
Qed.

(** In exact arithmetic, on a non-empty sample list the percentile at
    0 equals [min(data)] and the percentile at 100 equals [max(data)]. *)
Theorem percentile_0_min_100_max :
  forall data : list Q,
    data <> [] ->
    exists v0 v100 lowest highest,
      calculate_percentile data 0 = Ok v0
      /\ py_min data = Ok lowest
      /\ v0 == lowest
      /\ calculate_percentile data 100 = Ok v100
      /\ py_max data = Ok highest
      /\ v100 == highest.
Proof.
  intros data Hne.
  destruct (percentile_0_is_head data Hne) as (v0 & a & R0 & Ha & E0).
  destruct (percentile_100_is_last data Hne) as (v100 & R100 & Hb).
  destruct (sorted_bounds data _ _ Ha) as (Hin_a & Hmin_a & _).
  destruct (sorted_bounds data _ _ Hb) as (Hin_b & _ & Hmax_b).
  destruct data as [|x rest]; [contradiction|].
  destruct (fold_min_spec rest x) as [Hin_min Hmin].
  destruct (fold_max_spec rest x) as [Hin_max Hmax].
  eexists v0, v100, _, _.
  split; [exact R0|]. split; [reflexivity|]. split.
  { rewrite E0. apply Qle_antisym.
    - apply Hmin_a; [reflexivity|exact Hin_min].
    - apply Hmin. exact Hin_a. }
  split; [exact R100|]. split; [reflexivity|].
  apply Qle_antisym.
  - apply Hmax. exact Hin_b.
  - apply Hmax_b; [cbn; lia|exact Hin_max].
Qed.

Lemma percentile_0_min_100_max_witness :
  exists v0 v100 lowest highest,
    calculate_percentile [40; 10; 30; 20] 0 = Ok v0
    /\ py_min [40; 10; 30; 20] = Ok lowest
    /\ v0 == lowest
    /\ calculate_percentile [40; 10; 30; 20] 100 = Ok v100
    /\ py_max [40; 10; 30; 20] = Ok highest
    /\ v100 == highest.
Proof.
  apply (percentile_0_min_100_max [40; 10; 30; 20]). discriminate.
Defined.

(** C5 as stated fails: on an empty sample list [min], [max],
    [statistics.mean] and [statistics.median] raise, and
    [run_benchmark] returns [False] before computing any statistic. *)
Lemma empty_statistics_are_not_zero :
  run_benchmark_statistics [] = Ok None
  /\ (exists e, py_min [] = Raise e /\ exn_cls e = ValueErrorC)
  /\ (exists e, py_max [] = Raise e /\ exn_cls e = ValueErrorC)
  /\ (exists e, mean [] = Raise e /\ exn_cls e = StatisticsErrorC)
  /\ (exists e, median [] = Raise e /\ exn_cls e = StatisticsErrorC)
  /\ (exists e, stdev [] = Raise e /\ exn_cls e = StatisticsErrorC)
  /\ ~ (exists s, run_benchmark_statistics [] = Ok (Some s)).
Proof.
  repeat split; try (eexists; split; reflexivity).
  intros [s H]. discriminate H.
Qed.

(** C5, as the code has it: [calculate_percentile] returns 0.0 on an
    empty list for every percentile argument; [run_benchmark] computes
    no statistic of an empty sample list (it returns [False]), and it
    reports the literal 0 as standard deviation of a single sample. *)
Theorem empty_samples_percentile_zero :
  (forall percentile : Q, calculate_percentile [] percentile = Ok 0)
  /\ run_benchmark_statistics [] = Ok None
  /\ (forall x : Q,
        exists s,
          run_benchmark_statistics [x] = Ok (Some s)
          /\ std_dev s = StdevZero).
Proof.
  split; [|split].
  - intros percentile. reflexivity.
  - reflexivity.
  - intros x. eexists. split; [lazy; reflexivity|reflexivity].
Qed.

End Percentile.

(** ** Benchmark: percentiles as binary64 computes them *)
Section PercentileBinary64.
Import Binary64.

(** C3 as stated fails: for the two samples 1.0 and infinity the
    percentile at 0 is computed as [1.0 * (1 - 0.0) + inf * 0.0], which
    is NaN, while [min] of the samples is 1.0 (the percentile at 100 is
    the maximum, infinity). *)
Theorem percentile_0_of_infinite_sample :
  Binary64.calculate_percentile [one; inf] (PyInt 0) = Ok nan
  /\ Binary64.py_min [one; inf] = Ok one
  /\ eqb nan one = false
  /\ mul inf zero = nan
  /\ Binary64.calculate_percentile [one; inf] (PyInt 100) = Ok inf
  /\ Binary64.py_max [one; inf] = Ok inf.
Proof. repeat split; vm_compute; reflexivity. Qed.

(** C4 fails on the code.  For the samples 106.51, 328.67, 328.67,
    328.67 the percentile at 95 is 328.66999999999996, below the
    percentile at 50, which is 328.67; for the samples 3.0, 3.0 the
    percentile at 1 is 2.9999999999999996, below the percentile at 0,
    which is 3.0. *)
Theorem percentile_not_monotone :
  let ttft := [decimal 10651 2; decimal 32867 2; decimal 32867 2;
               decimal 32867 2] in
  let below_328_67 := S754_finite false 5782023787218206 (-44) in
  let below_3 := S754_finite false 6755399441055743 (-51) in
  decimal 32867 2 = S754_finite false 5782023787218207 (-44)
  /\ Binary64.calculate_percentile ttft (PyInt 50) = Ok (decimal 32867 2)
  /\ Binary64.calculate_percentile ttft (PyInt 95) = Ok below_328_67
  /\ ltb below_328_67 (decimal 32867 2) = true
  /\ of_Z 3 = S754_finite false 6755399441055744 (-51)
  /\ Binary64.calculate_percentile [of_Z 3; of_Z 3] (PyInt 0) = Ok (of_Z 3)
  /\ Binary64.calculate_percentile [of_Z 3; of_Z 3] (PyInt 1) = Ok below_3
  /\ ltb below_3 (of_Z 3) = true.
Proof. repeat split; vm_compute; reflexivity. Qed.

(** X13: with a single sample, a percentile argument that is an [int]
    or a finite [float], also one outside 0..100, returns that sample;
    with an infinite or NaN percentile the rank [0 * percentile / 100.0]
    is NaN and [int(index)] raises [ValueError]. *)
Theorem percentile_of_single_sample :
  (forall (x : float) (percentile : Z),
      Binary64.calculate_percentile [x] (PyInt percentile) = Ok x)
  /\ (forall x percentile : float,
        is_finite percentile = true ->
        Binary64.calculate_percentile [x] (PyFloat percentile) = Ok x)
  /\ (forall x percentile : float,
        is_finite percentile = false ->
        Binary64.calculate_percentile [x] (PyFloat percentile)
        = Raise (PyExn ValueErrorC
                   (MsgText "cannot convert float NaN to integer"))).
Proof.
  split; [|split].
  - intros x percentile. vm_compute. reflexivity.
  - intros x [s|s| |s m e] Hfin; try discriminate Hfin;
      destruct s; vm_compute; reflexivity.
  - intros x [s|s| |s m e] Hfin; try discriminate Hfin;
      try destruct s; vm_compute; reflexivity.
Qed.

Lemma percentile_of_single_sample_witness :
  Binary64.calculate_percentile [decimal 32867 2] (PyFloat (decimal 995 1))
  = Ok (decimal 32867 2)
  /\ Binary64.calculate_percentile [decimal 32867 2] (PyFloat inf)
     = Raise (PyExn ValueErrorC
                (MsgText "cannot convert float NaN to integer")).
Proof.
  split.
  - apply (proj1 (proj2 percentile_of_single_sample)). reflexivity.
  - apply (proj2 (proj2 percentile_of_single_sample)). reflexivity.
Defined.

End PercentileBinary64.

(** ** Binary64: exact cases of rounding *)
Section Binary64Arithmetic.
Import Binary64.
Local Open Scope Z_scope.

Lemma iter_pos_nat {A : Type} (f : A -> A) (p : positive) (x : A) :
  SpecFloat.iter_pos f p x = Nat.iter (Pos.to_nat p) f x.
Proof.
  revert x. induction p as [p IH|p IH|]; intros x; cbn [SpecFloat.iter_pos].
  - rewrite !IH, Pos2Nat.inj_xI. cbn [Nat.iter].
    rewrite <- Nat.iter_succ_r, <- Nat.iter_add. f_equal. lia.
  - rewrite !IH, Pos2Nat.inj_xO, <- Nat.iter_add. f_equal. lia.
  - reflexivity.
Qed.

Lemma shift_Z (n : nat) (m : positive) :
  Zpos (shift n m) = Zpos m * 2 ^ Z.of_nat n.
Proof.
  induction n as [|n IH]; [cbn; lia|].
  change (shift (S n) m) with (xO (shift n m)).
  rewrite Pos2Z.inj_xO, IH.
  rewrite Nat2Z.inj_succ, Z.pow_succ_r by lia. lia.
Qed.

Lemma shift_digits (n : nat) (m : positive) :
  Zpos (digits2_pos (shift n m)) = Zpos (digits2_pos m) + Z.of_nat n.
Proof.
  induction n as [|n IH]; [cbn; lia|].
  change (shift (S n) m) with (xO (shift n m)). cbn [digits2_pos].
  rewrite Pos2Z.inj_succ, IH. lia.
Qed.

Lemma shr_shift (n : nat) (m : positive) :
  Nat.iter n shr_1 (Build_shr_record (Zpos (shift n m)) false false)
  = Build_shr_record (Zpos m) false false.
Proof.
  induction n as [|n IH]; [reflexivity|].
  rewrite Nat.iter_succ_r.
  change (shift (S n) m) with (xO (shift n m)). cbn [shr_1 orb].
  exact IH.
Qed.

(** Rounding a canonical mantissa that was shifted left by [n] bits
    gives the mantissa back: nothing is lost. *)
Lemma binary_round_aux_shift (s : bool) (m : positive) (e : Z) (n : nat) :
  bounded prec emax m e = true ->
  binary_round_aux prec emax s (Zpos (shift n m)) (e - Z.of_nat n) loc_Exact
  = S754_finite s m e.
Proof.
  intros Hb. unfold bounded, canonical_mantissa in Hb.
  apply andb_prop in Hb. destruct Hb as [Hc He].
  apply Z.eqb_eq in Hc.
  unfold binary_round_aux, shr_fexp.
  cbn [Zdigits2 shr_record_of_loc].
  rewrite shift_digits.
  replace (Zpos (digits2_pos m) + Z.of_nat n + (e - Z.of_nat n))
    with (Zpos (digits2_pos m) + e) by lia.
  rewrite Hc.
  replace (e - (e - Z.of_nat n)) with (Z.of_nat n) by lia.
  assert (Hshr : shr (Build_shr_record (Zpos (shift n m)) false false)
                   (e - Z.of_nat n) (Z.of_nat n)
                 = (Build_shr_record (Zpos m) false false, e)).
  { destruct n as [|n].
    - change (Z.of_nat 0) with 0. unfold shr. rewrite Z.sub_0_r.
      reflexivity.
    - change (Z.of_nat (S n)) with (Zpos (Pos.of_succ_nat n)).
      unfold shr. rewrite iter_pos_nat.
      rewrite SuccNat2Pos.id_succ, shr_shift. f_equal.
      rewrite Zpos_P_of_succ_nat. lia. }
  rewrite Hshr. cbn [shr_m loc_of_shr_record round_nearest_even Zdigits2
                     shr_record_of_loc].
  rewrite Hc, Z.sub_diag. cbn [shr shr_m]. rewrite He. reflexivity.
Qed.

(** [x * 1.0] is [x]. *)
Lemma mul_one (x : float) :
  well_formed x = true -> mul x one = x.
Proof.
  intros Hv. destruct x as [s|s| |s m e]; try (destruct s; reflexivity);
    try reflexivity.
  change one with (S754_finite false 4503599627370496 (-52)).
  unfold mul. cbn [SFmul]. rewrite Pos.mul_comm.
  change (4503599627370496 * m)%positive with (shift 52 m).
  rewrite xorb_false_r.
  change (e + -52) with (e - Z.of_nat 52).
  apply binary_round_aux_shift. exact Hv.
Qed.

Lemma digits_bounds (p : positive) :
  2 ^ (Zpos (digits2_pos p) - 1) <= Zpos p < 2 ^ Zpos (digits2_pos p).
Proof.
  induction p as [p IH|p IH|]; cbn [digits2_pos]; [| |cbn; lia].
  - rewrite Pos2Z.inj_succ. replace (Z.succ (Zpos (digits2_pos p)) - 1)
      with (Z.succ (Zpos (digits2_pos p) - 1)) by lia.
    rewrite !Z.pow_succ_r by lia. lia.
  - rewrite Pos2Z.inj_succ. replace (Z.succ (Zpos (digits2_pos p)) - 1)
      with (Z.succ (Zpos (digits2_pos p) - 1)) by lia.
    rewrite !Z.pow_succ_r by lia. lia.
Qed.

Lemma digits_le (p : positive) (n : Z) :
  0 <= n -> Zpos p < 2 ^ n -> Zpos (digits2_pos p) <= n.
Proof.
  intros Hn Hp. destruct (digits_bounds p) as [Hlo _].
  destruct (Z.le_gt_cases (Zpos (digits2_pos p)) n) as [H|H]; [exact H|].
  exfalso. assert (2 ^ n <= 2 ^ (Zpos (digits2_pos p) - 1)).
  { apply Z.pow_le_mono_r; lia. }
  lia.
Qed.

Lemma mantissa_bounded (p : positive) :
  Zpos (digits2_pos p) <= prec ->
  bounded prec emax (mantissa p) (exponent p) = true.
Proof.
  intros Hd. unfold bounded, canonical_mantissa, mantissa, exponent, fexp, emin.
  rewrite shift_digits, Z2Nat.id by lia.
  apply andb_true_intro. split; [apply Z.eqb_eq|apply Z.leb_le];
    unfold prec, emax in *; lia.
Qed.

Lemma mantissa_digits (p : positive) :
  Zpos (digits2_pos p) <= prec ->
  Zpos (digits2_pos (mantissa p)) = prec.
Proof.
  intros Hd. unfold mantissa. rewrite shift_digits, Z2Nat.id by lia. lia.
Qed.

Lemma mantissa_Z (p : positive) :
  Zpos (digits2_pos p) <= prec ->
  Zpos (mantissa p) = Zpos p * 2 ^ (prec - Zpos (digits2_pos p)).
Proof.
  intros Hd. unfold mantissa. rewrite shift_Z, Z2Nat.id by lia. reflexivity.
Qed.

(** The float nearest to an integer of at most 53 bits is that
    integer. *)
Lemma of_Z_pos (p : positive) :
  Zpos (digits2_pos p) <= prec ->
  of_Z (Zpos p) = S754_finite false (mantissa p) (exponent p).
Proof.
  intros Hd. unfold of_Z, binary_normalize, binary_round.
  assert (Hf : fexp prec emax (Zpos (digits2_pos p) + 0) = exponent p).
  { unfold fexp, emin, exponent, prec, emax in *. lia. }
  rewrite Hf.
  assert (Hs : shl_align p 0 (exponent p) = (mantissa p, exponent p)).
  { unfold shl_align, mantissa, exponent. rewrite Z.sub_0_r.
    destruct (Zpos (digits2_pos p) - prec) as [|q|q] eqn:E; [|lia|].
    - replace (prec - Zpos (digits2_pos p)) with 0 by lia. reflexivity.
    - rewrite Pos2Nat.inj_iter. f_equal. unfold shift.
      replace (Z.to_nat (prec - Zpos (digits2_pos p))) with (Pos.to_nat q);
        [reflexivity|].
      apply Nat2Z.inj. rewrite positive_nat_Z, Z2Nat.id by lia. lia. }
  rewrite Hs.
  pose proof (binary_round_aux_shift false (mantissa p) (exponent p) 0
                (mantissa_bounded p Hd)) as H.
  cbn [Z.of_nat shift Nat.iter] in H. rewrite Z.sub_0_r in H. exact H.
Qed.

Lemma int_of_mantissa (p : positive) :
  Zpos (digits2_pos p) <= prec ->
  Z.shiftl (Zpos (mantissa p)) (exponent p) = Zpos p.
Proof.
  intros Hd. unfold mantissa, exponent. rewrite shift_Z, Z2Nat.id by lia.
  rewrite <- (Z.opp_involutive (Zpos (digits2_pos p) - prec)).
  rewrite Z.shiftl_opp_r, Z.shiftr_div_pow2 by lia.
  replace (- (Zpos (digits2_pos p) - prec)) with (prec - Zpos (digits2_pos p))
    by lia.
  apply Z.div_mul. apply Z.pow_nonzero; lia.
Qed.

(** A division of two 53-bit mantissas whose quotient is an integer is
    exact. *)
Lemma SFdiv_core_exact (m1 m2 q : positive) (e1 e2 : Z) :
  Zpos (digits2_pos m1) = prec ->
  Zpos (digits2_pos m2) = prec ->
  emin prec emax <= e1 - e2 - prec ->
  Zpos m1 * 2 ^ prec = Zpos q * Zpos m2 ->
  SFdiv_core_binary prec emax (Zpos m1) e1 (Zpos m2) e2
  = (Zpos q, e1 - e2 - prec, loc_Exact).
Proof.
  intros H1 H2 He Hq. unfold SFdiv_core_binary. cbn [Zdigits2].
  rewrite H1, H2.
  assert (Hmin : Z.min (fexp prec emax (prec + e1 - (prec + e2))) (e1 - e2)
                 = e1 - e2 - prec).
  { unfold fexp, emin, prec, emax in *. lia. }
  rewrite Hmin.
  replace (e1 - e2 - (e1 - e2 - prec)) with prec by lia.
  change (match prec with
          | 0 => Zpos m1
          | Zpos _ => Z.shiftl (Zpos m1) prec
          | Zneg _ => 0
          end) with (Z.shiftl (Zpos m1) prec).
  rewrite Z.shiftl_mul_pow2 by (unfold prec; lia). rewrite Hq.
  pose proof (Z.div_mul (Zpos q) (Zpos m2) ltac:(lia)) as Hdiv.
  pose proof (Z.mod_mul (Zpos q) (Zpos m2) ltac:(lia)) as Hmod.
  unfold Z.div, Z.modulo in Hdiv, Hmod.
  destruct (Z.div_eucl (Zpos q * Zpos m2) (Zpos m2)) as [q' r].
  cbn [fst snd] in Hdiv, Hmod. subst q' r.
  unfold new_location, new_location_even, new_location_odd.
  destruct (Z.even (Zpos m2)); reflexivity.
Qed.

(** [float(100 * k) / 100.0] is [float(k)] as long as [100 * k] has at
    most 53 bits. *)
Lemma div_by_hundred (k : positive) :
  Zpos (100 * k) < 2 ^ prec ->
  div (of_Z (Zpos (100 * k))) hundred = of_Z (Zpos k).
Proof.
  intros Hsmall.
  assert (Hd1 : Zpos (digits2_pos (100 * k)) <= prec).
  { apply digits_le; [unfold prec; lia|exact Hsmall]. }
  assert (Hdk : Zpos (digits2_pos k) <= prec).
  { apply digits_le; [unfold prec; lia|]. lia. }
  rewrite (of_Z_pos _ Hd1), (of_Z_pos _ Hdk).
  change hundred with (S754_finite false 7036874417766400 (-46)).
  pose proof (mantissa_digits _ Hd1) as Hm1.
  pose proof (mantissa_Z _ Hd1) as Hz1.
  pose proof (mantissa_Z _ Hdk) as Hzk.
  pose proof (mantissa_bounded _ Hdk) as Hbk.
  unfold exponent in *.
  set (d1 := Zpos (digits2_pos (100 * k))) in *.
  set (dk := Zpos (digits2_pos k)) in *.
  destruct (digits_bounds (100 * k)) as [Hlo1 Hhi1]. fold d1 in Hlo1, Hhi1.
  destruct (digits_bounds k) as [Hlok Hhik]. fold dk in Hlok, Hhik.
  assert (Hd1' : d1 <= 53) by exact Hd1.
  assert (Hdk' : dk <= 53) by exact Hdk.
  assert (Hd1pos : 1 <= d1) by (subst d1; lia).
  assert (Hdkpos : 1 <= dk) by (subst dk; lia).
  assert (Hd1k : d1 <= dk + 7).
  { destruct (Z.le_gt_cases d1 (dk + 7)) as [H|H]; [exact H|]. exfalso.
    assert (H0 : 2 ^ (dk + 7) <= 2 ^ (d1 - 1))
      by (apply Z.pow_le_mono_r; lia).
    rewrite Z.pow_add_r in H0 by lia. change (2 ^ 7) with 128 in H0.
    rewrite Pos2Z.inj_mul in Hhi1, Hlo1. lia. }
  set (n := Z.to_nat (7 + dk - d1)).
  unfold div. cbn [SFdiv xorb].
  rewrite (SFdiv_core_exact (mantissa (100 * k)) 7036874417766400
             (shift n (mantissa k)) (d1 - prec) (-46)).
  - replace (d1 - prec - -46 - prec) with (dk - prec - Z.of_nat n)
      by (subst n; rewrite Z2Nat.id by lia; unfold prec; lia).
    apply binary_round_aux_shift. exact Hbk.
  - exact Hm1.
  - reflexivity.
  - unfold emin, prec, emax. lia.
  - rewrite Hz1, shift_Z, Hzk. subst n. rewrite Z2Nat.id by lia.
    rewrite Pos2Z.inj_mul.
    change 7036874417766400 with (100 * 2 ^ 46).
    change prec with 53.
    assert (E : 2 ^ (53 - d1) * 2 ^ 53
                = 2 ^ (53 - dk) * 2 ^ (7 + dk - d1) * 2 ^ 46).
    { rewrite <- !Z.pow_add_r by lia. f_equal. lia. }
    nia.
Qed.

End Binary64Arithmetic.

(** ** Binary64: the order of floats *)
Section Binary64OrderProperties.
Import Binary64.
Local Open Scope Z_scope.

Lemma ltb_key (x y : float) :
  is_nan x = false -> is_nan y = false ->
  (ltb x y = true <-> key_lt (key x) (key y)).
Proof.
  intros Hx Hy. unfold ltb, SFltb, key_lt.
  destruct x as [sx|sx| |sx mx ex]; try discriminate Hx;
    destruct y as [sy|sy| |sy my ey]; try discriminate Hy;
    try destruct sx; try destruct sy; cbn [SFcompare key fst snd];
    try (split; [discriminate|lia]); try (split; [lia|reflexivity]).
  - (* both negative *)
    change (Pos.compare_cont Eq mx my) with (Pos.compare mx my).
    destruct (Z.compare_spec ex ey) as [E|E|E];
      destruct (Pos.compare_spec mx my) as [F|F|F]; cbn [CompOpp];
      (split; [try discriminate; lia|try reflexivity; lia]).
  - (* both positive *)
    change (Pos.compare_cont Eq mx my) with (Pos.compare mx my).
    destruct (Z.compare_spec ex ey) as [E|E|E];
      destruct (Pos.compare_spec mx my) as [F|F|F];
      (split; [try discriminate; lia|try reflexivity; lia]).
Qed.

Lemma eqb_key (x y : float) :
  is_nan x = false -> is_nan y = false ->
  (eqb x y = true <-> key x = key y).
Proof.
  intros Hx Hy. unfold eqb, SFeqb.
  destruct x as [sx|sx| |sx mx ex]; try discriminate Hx;
    destruct y as [sy|sy| |sy my ey]; try discriminate Hy;
    try destruct sx; try destruct sy; cbn [SFcompare key];
    try (split; [discriminate|discriminate]);
    try (split; reflexivity).
  - change (Pos.compare_cont Eq mx my) with (Pos.compare mx my).
    destruct (Z.compare_spec ex ey) as [E|E|E];
      destruct (Pos.compare_spec mx my) as [F|F|F]; cbn [CompOpp];
      (split; intros K;
       first [discriminate K|subst; reflexivity|injection K; lia]).
  - change (Pos.compare_cont Eq mx my) with (Pos.compare mx my).
    destruct (Z.compare_spec ex ey) as [E|E|E];
      destruct (Pos.compare_spec mx my) as [F|F|F];
      (split; intros K;
       first [discriminate K|subst; reflexivity|injection K; lia]).
Qed.

Lemma ltb_false_key (x y : float) :
  is_nan x = false -> is_nan y = false ->
  (ltb x y = false <-> ~ key_lt (key x) (key y)).
Proof.
  intros Hx Hy. rewrite <- (ltb_key x y Hx Hy).
  destruct (ltb x y); split; done.
Qed.

Lemma ltb_irrefl (x : float) : ltb x x = false.
Proof.
  unfold ltb, SFltb.
  destruct x as [s|s| |s m e]; try destruct s; cbn [SFcompare];
    try reflexivity;
    rewrite Z.compare_refl;
    change (Pos.compare_cont Eq m m) with (Pos.compare m m);
    rewrite Pos.compare_refl; reflexivity.
Qed.

Ltac float_order :=
  repeat match goal with
         | H : ltb ?x ?y = true |- _ => apply ltb_key in H; [|assumption..]
         | H : ltb ?x ?y = false |- _ =>
             apply ltb_false_key in H; [|assumption..]
         | |- ltb ?x ?y = true => apply ltb_key; [assumption..|]
         | |- ltb ?x ?y = false => apply ltb_false_key; [assumption..|]
         | |- eqb ?x ?y = true => apply eqb_key; [assumption..|]
         end;
  unfold key_lt in *;
  repeat match goal with
         | |- context [key ?x] =>
             let a := fresh "a" in let b := fresh "b" in let c := fresh "c" in
             destruct (key x) as [[a b] c]
         | H : context [key ?x] |- _ =>
             let a := fresh "a" in let b := fresh "b" in let c := fresh "c" in
             destruct (key x) as [[a b] c]
         end;
  cbn [fst snd] in *;
  first [lia
        |match goal with
         | |- (?a, ?b, ?c) = (?a', ?b', ?c') =>
             assert (a = a' /\ b = b' /\ c = c') as (-> & -> & ->) by lia;
             reflexivity
         end].

Lemma not_ltb_trans (x y z : float) :
  is_nan x = false -> is_nan y = false -> is_nan z = false ->
  ltb y x = false -> ltb z y = false -> ltb z x = false.
Proof. intros Hx Hy Hz H1 H2. float_order. Qed.

Lemma ltb_not_gt (x y : float) :
  is_nan x = false -> is_nan y = false ->
  ltb x y = true -> ltb y x = false.
Proof. intros Hx Hy H. float_order. Qed.

Lemma not_ltb_antisym (x y : float) :
  is_nan x = false -> is_nan y = false ->
  ltb x y = false -> ltb y x = false -> eqb x y = true.
Proof. intros Hx Hy H1 H2. float_order. Qed.

End Binary64OrderProperties.

(** ** Benchmark: the percentiles 0 and 100 in binary64 *)
Section PercentileBinary64Proofs.
Import Binary64.
Local Open Scope Z_scope.

Lemma getitem_nth {A : Type} (l : list A) (k : nat) (a : A) :
  nth_error l k = Some a ->
  py_getitem l (Z.of_nat k) = Ok a.
Proof.
  intros H. unfold py_getitem.
  assert (Hk : (k < length l)%nat) by (apply nth_error_Some; congruence).
  destruct (Z.ltb_spec (Z.of_nat k) 0) as [Hneg|_]; [lia|].
  destruct (Z.ltb_spec (Z.of_nat k) 0) as [Hneg|_]; [lia|].
  destruct (Z.leb_spec (Z.of_nat (length l)) (Z.of_nat k)) as [Hbig|_]; [lia|].
  cbn [orb]. rewrite Nat2Z.id, H. reflexivity.
Qed.

Lemma fold_min_float (rest : list float) :
  forall x,
    Forall (fun y => is_nan y = false) (x :: rest) ->
    let m := fold_left (fun m y => if ltb y m then y else m) rest x in
    In m (x :: rest) /\ forall y, In y (x :: rest) -> ltb y m = false.
Proof.
  induction rest as [|z rest IH]; intros x Hnan m.
  - subst m. cbn. split; [by left|].
    intros y [<-|[]]. apply ltb_irrefl.
  - subst m. cbn [fold_left].
    set (x' := if ltb z x then z else x).
    assert (Hx : is_nan x = false) by (inversion Hnan; assumption).
    assert (Hz : is_nan z = false)
      by (inversion Hnan as [|? ? _ H]; inversion H; assumption).
    assert (Hrest : Forall (fun y => is_nan y = false) rest)
      by (inversion Hnan as [|? ? _ H]; inversion H; assumption).
    assert (Hx' : is_nan x' = false) by (subst x'; destruct (ltb z x); done).
    assert (Hxx' : ltb x x' = false /\ ltb z x' = false).
    { subst x'. destruct (ltb z x) eqn:E.
      - split; [apply ltb_not_gt; assumption|apply ltb_irrefl].
      - split; [apply ltb_irrefl|exact E]. }
    destruct (IH x') as [Hin Hmin]; [constructor; assumption|].
    set (m := fold_left (fun m y => if ltb y m then y else m) rest x') in *.
    assert (Hm : is_nan m = false).
    { destruct Hin as [<-|Hin]; [exact Hx'|].
      rewrite List.Forall_forall in Hrest. apply Hrest. exact Hin. }
    split.
    + destruct Hin as [E|Hin]; [|right; right; exact Hin].
      rewrite <- E. subst x'. destruct (ltb z x); [right; left|left]; done.
    + intros y [<-|[<-|Hy]].
      * apply (not_ltb_trans m x' x); try assumption; [|apply Hxx'].
        apply Hmin. by left.
      * apply (not_ltb_trans m x' z); try assumption; [|apply Hxx'].
        apply Hmin. by left.
      * apply Hmin. right. exact Hy.
Qed.

Lemma fold_max_float (rest : list float) :
  forall x,
    Forall (fun y => is_nan y = false) (x :: rest) ->
    let m := fold_left (fun m y => if ltb m y then y else m) rest x in
    In m (x :: rest) /\ forall y, In y (x :: rest) -> ltb m y = false.
Proof.
  induction rest as [|z rest IH]; intros x Hnan m.
  - subst m. cbn. split; [by left|].
    intros y [<-|[]]. apply ltb_irrefl.
  - subst m. cbn [fold_left].
    set (x' := if ltb x z then z else x).
    assert (Hx : is_nan x = false) by (inversion Hnan; assumption).
    assert (Hz : is_nan z = false)
      by (inversion Hnan as [|? ? _ H]; inversion H; assumption).
    assert (Hrest : Forall (fun y => is_nan y = false) rest)
      by (inversion Hnan as [|? ? _ H]; inversion H; assumption).
    assert (Hx' : is_nan x' = false) by (subst x'; destruct (ltb x z); done).
    assert (Hxx' : ltb x' x = false /\ ltb x' z = false).
    { subst x'. destruct (ltb x z) eqn:E.
      - split; [apply ltb_not_gt; assumption|apply ltb_irrefl].
      - split; [apply ltb_irrefl|exact E]. }
    destruct (IH x') as [Hin Hmax]; [constructor; assumption|].
    set (m := fold_left (fun m y => if ltb m y then y else m) rest x') in *.
    assert (Hm : is_nan m = false).
    { destruct Hin as [<-|Hin]; [exact Hx'|].
      rewrite List.Forall_forall in Hrest. apply Hrest. exact Hin. }
    split.
    + destruct Hin as [E|Hin]; [|right; right; exact Hin].
      rewrite <- E. subst x'. destruct (ltb x z); [right; left|left]; done.
    + intros y [<-|[<-|Hy]].
      * apply (not_ltb_trans x x' m); try assumption; [apply Hxx'|].
        apply Hmax. by left.
      * apply (not_ltb_trans z x' m); try assumption; [apply Hxx'|].
        apply Hmax. by left.
      * apply Hmax. right. exact Hy.
Qed.

Lemma insert_float_In (a : float) (l : list float) (y : float) :
  In y (Binary64.insert a l) <-> y = a \/ In y l.
Proof.
  induction l as [|h t IH]; cbn [Binary64.insert].
  - cbn. intuition.
  - destruct (ltb h a); cbn [In]; [rewrite IH|]; intuition.
Qed.

Lemma sorted_float_In (data : list float) (y : float) :
  In y (Binary64.sorted data) <-> In y data.
Proof.
  induction data as [|a l IH]; [reflexivity|].
  change (Binary64.sorted (a :: l)) with (Binary64.insert a (Binary64.sorted l)).
  rewrite insert_float_In, IH. cbn. intuition.
Qed.

Lemma insert_float_length (a : float) (l : list float) :
  length (Binary64.insert a l) = S (length l).
Proof.
  induction l as [|h t IH]; [reflexivity|].
  cbn [Binary64.insert]. destruct (ltb h a); cbn [length]; [rewrite IH|];
    reflexivity.
Qed.

Lemma sorted_length_float (data : list float) :
  length (Binary64.sorted data) = length data.
Proof.
  induction data as [|a l IH]; [reflexivity|].
  change (Binary64.sorted (a :: l)) with (Binary64.insert a (Binary64.sorted l)).
  rewrite insert_float_length, IH. reflexivity.
Qed.

Lemma sorted_float_head (data : list float) :
  data <> [] ->
  Forall (fun y => is_nan y = false) data ->
  exists h,
    nth_error (Binary64.sorted data) 0 = Some h
    /\ In h data
    /\ forall y, In y data -> ltb y h = false.
Proof.
  intros Hne Hnan. rewrite List.Forall_forall in Hnan.
  induction data as [|a l IH]; [contradiction|].
  change (Binary64.sorted (a :: l)) with (Binary64.insert a (Binary64.sorted l)).
  destruct l as [|b l'].
  - exists a. split; [reflexivity|]. split; [by left|].
    intros y [<-|[]]. apply ltb_irrefl.
  - destruct IH as (h & Hh & Hin & Hmin); [discriminate|
      intros y Hy; apply Hnan; by right|].
    assert (Ha : is_nan a = false) by (apply Hnan; by left).
    assert (Hhn : is_nan h = false) by (apply Hnan; right; exact Hin).
    destruct (Binary64.sorted (b :: l')) as [|h' t] eqn:Es; [discriminate Hh|].
    cbn in Hh. injection Hh as ->.
    cbn [Binary64.insert]. destruct (ltb h a) eqn:E.
    + exists h. split; [reflexivity|]. split; [by right|].
      intros y [<-|Hy]; [apply ltb_not_gt; assumption|apply Hmin, Hy].
    + exists a. split; [reflexivity|]. split; [by left|].
      intros y [<-|Hy]; [apply ltb_irrefl|].
      apply (not_ltb_trans a h y); try assumption.
      * apply Hnan. right. exact Hy.
      * apply Hmin, Hy.
Qed.

Lemma insert_float_last (a : float) (l : list float) :
  (nth_error (Binary64.insert a l) (length l) = Some a
   /\ forall y, In y l -> ltb y a = true)
  \/ (exists y, In y l /\ ltb y a = false)
     /\ nth_error (Binary64.insert a l) (length l)
        = nth_error l (length l - 1).
Proof.
  induction l as [|h t IH].
  - left. split; [reflexivity|]. intros y [].
  - cbn [Binary64.insert]. destruct (ltb h a) eqn:E.
    + cbn [length nth_error]. destruct IH as [[Hlast Hall]|[(y & Hy & Hya) Hlast]].
      * left. split; [exact Hlast|]. intros y [<-|Hy]; [exact E|apply Hall, Hy].
      * right. split; [exists y; split; [by right|exact Hya]|].
        rewrite Hlast. destruct t as [|h' t']; [destruct Hy|].
        cbn [length]. rewrite !Nat.sub_succ, !Nat.sub_0_r. reflexivity.
    + right. split; [exists h; split; [by left|exact E]|].
      cbn [length]. rewrite Nat.sub_succ, Nat.sub_0_r. reflexivity.
Qed.

Lemma sorted_float_last (data : list float) :
  data <> [] ->
  Forall (fun y => is_nan y = false) data ->
  exists highest,
    nth_error (Binary64.sorted data) (length data - 1) = Some highest
    /\ In highest data
    /\ forall y, In y data -> ltb highest y = false.
Proof.
  intros Hne Hnan. rewrite List.Forall_forall in Hnan.
  induction data as [|a l IH]; [contradiction|].
  change (Binary64.sorted (a :: l)) with (Binary64.insert a (Binary64.sorted l)).
  cbn [length]. rewrite Nat.sub_succ, Nat.sub_0_r.
  assert (Ha : is_nan a = false) by (apply Hnan; by left).
  rewrite <- (sorted_length_float l).
  destruct (insert_float_last a (Binary64.sorted l))
    as [[Hlast Hall]|[(y & Hy & Hya) Hlast]].
  - exists a. split; [exact Hlast|]. split; [by left|].
    intros y [<-|Hy]; [apply ltb_irrefl|].
    apply ltb_not_gt; [apply Hnan; by right|assumption|].
    apply Hall. apply (proj2 (sorted_float_In _ _)). exact Hy.
  - apply (proj1 (sorted_float_In _ _)) in Hy.
    destruct l as [|b l']; [destruct Hy|].
    destruct IH as (m & Hm & Hin & Hmax); [discriminate|
      intros z Hz; apply Hnan; by right|].
    exists m. split.
    + rewrite Hlast, sorted_length_float. exact Hm.
    + split; [by right|].
      intros z [<-|Hz]; [|apply Hmax, Hz].
      apply (not_ltb_trans a y m); try assumption.
      * apply Hnan. right. exact Hy.
      * apply Hnan. right. exact Hin.
      * apply Hmax, Hy.
Qed.

Lemma calculate_percentile_float_unfold (data : list float) (percentile : number) :
  data <> [] ->
  Binary64.calculate_percentile data percentile
  = let sorted_data := Binary64.sorted data in
    let len := Z.of_nat (length data) in
    scaled ← int_mul (len - 1) percentile;
    index ← true_div scaled hundred;
    lower ← int_of_float index;
    weight ← sub_int index lower;
    if (len <=? lower + 1)%Z
    then py_getitem sorted_data lower
    else
      lo ← py_getitem sorted_data lower;
      hi ← py_getitem sorted_data (lower + 1);
      Ok (add (mul lo (sub one weight)) (mul hi weight)).
Proof.
  intros Hne. destruct data as [|x rest]; [contradiction|].
  unfold Binary64.calculate_percentile. rewrite sorted_length_float.
  reflexivity.
Qed.

Lemma float_of_int_small (p : positive) :
  Zpos (digits2_pos p) <= prec ->
  float_of_int (Zpos p) = Ok (S754_finite false (mantissa p) (exponent p)).
Proof.
  intros Hd. unfold float_of_int. rewrite (of_Z_pos p Hd). reflexivity.
Qed.

(** The rank of the percentile 100 is [len - 1], exactly. *)
Lemma rank_100_float (k : Z) :
  0 <= k -> 100 * k < 2 ^ prec ->
  exists index weight,
    (scaled ← int_mul k (PyInt 100); true_div scaled hundred) = Ok index
    /\ int_of_float index = Ok k
    /\ sub_int index k = Ok weight.
Proof.
  intros Hk Hsmall. destruct k as [|p|p]; [| |lia].
  - exists zero, zero. repeat split.
  - assert (Hd1 : Zpos (digits2_pos (100 * p)) <= prec).
    { apply digits_le; [unfold prec; lia|]. rewrite Pos2Z.inj_mul. exact Hsmall. }
    assert (Hdp : Zpos (digits2_pos p) <= prec).
    { apply digits_le; [unfold prec; lia|]. lia. }
    exists (of_Z (Zpos p)).
    exists (sub (of_Z (Zpos p)) (of_Z (Zpos p))).
    split; [|split].
    + unfold int_mul. cbn [mbind result_bind mret result_ret].
      change (Zpos p * 100) with (Zpos (p * 100)). rewrite Pos.mul_comm.
      unfold true_div. rewrite (float_of_int_small _ Hd1).
      cbn [mbind result_bind]. rewrite <- (of_Z_pos _ Hd1).
      rewrite div_by_hundred; [reflexivity|].
      rewrite Pos2Z.inj_mul. exact Hsmall.
    + rewrite (of_Z_pos _ Hdp). cbn [int_of_float].
      rewrite (int_of_mantissa _ Hdp). reflexivity.
    + unfold sub_int. rewrite (float_of_int_small _ Hdp).
      cbn [mbind result_bind]. rewrite (of_Z_pos _ Hdp). reflexivity.
Qed.

Lemma percentile_100_float (data : list float) :
  data <> [] ->
  Forall (fun x => is_nan x = false) data ->
  100 * (Z.of_nat (length data) - 1) < 2 ^ 53 ->
  exists v highest,
    Binary64.calculate_percentile data (PyInt 100) = Ok v
    /\ Binary64.py_max data = Ok highest
    /\ eqb v highest = true.
Proof.
  intros Hne Hnan Hlen.
  rewrite (calculate_percentile_float_unfold data _ Hne). cbn zeta.
  set (len := Z.of_nat (length data)) in *.
  assert (Hpos : 1 <= len).
  { subst len. destruct data; [contradiction|]. cbn [length]. lia. }
  destruct (rank_100_float (len - 1)) as (index & weight & Hidx & Hint & Hw);
    [lia|exact Hlen|].
  destruct (int_mul (len - 1) (PyInt 100)) as [scaled|e] eqn:Hs;
    [|discriminate Hidx].
  cbn [mbind result_bind] in Hidx |- *. rewrite Hidx.
  cbn [mbind result_bind]. rewrite Hint. cbn [mbind result_bind].
  rewrite Hw. cbn [mbind result_bind].
  destruct (Z.leb_spec len (len - 1 + 1)) as [_|Hcontra]; [|lia].
  destruct (sorted_float_last data Hne Hnan) as (v & Hv & Hin & Hmax).
  assert (Hget : py_getitem (Binary64.sorted data) (len - 1) = Ok v).
  { replace (len - 1) with (Z.of_nat (length data - 1)) by (subst len; lia).
    apply getitem_nth. exact Hv. }
  destruct data as [|x rest]; [contradiction|].
  destruct (fold_max_float rest x Hnan) as [Hin' Hmax'].
  eexists v, _. split; [exact Hget|]. split; [reflexivity|].
  rewrite List.Forall_forall in Hnan.
  apply not_ltb_antisym; [apply Hnan, Hin|apply Hnan, Hin'| |].
  - apply Hmax, Hin'.
  - apply Hmax', Hin.
Qed.

Lemma key_add_zero (x : float) (s : bool) :
  is_finite x = true ->
  key (add x (S754_zero s)) = key x /\ is_nan (add x (S754_zero s)) = false.
Proof.
  intros Hx. destruct x as [sx|sx| |sx m e]; try discriminate Hx.
  - destruct sx, s; split; reflexivity.
  - split; reflexivity.
Qed.

Lemma mul_zero_finite (x : float) :
  is_finite x = true -> exists s, mul x zero = S754_zero s.
Proof.
  intros Hx. destruct x as [sx|sx| |sx m e]; try discriminate Hx;
    eexists; reflexivity.
Qed.

Lemma is_finite_not_nan (x : float) : is_finite x = true -> is_nan x = false.
Proof. destruct x; done. Qed.

Lemma percentile_0_float (data : list float) :
  data <> [] ->
  Forall (fun x => well_formed x = true) data ->
  Forall (fun x => is_finite x = true) data ->
  exists v lowest,
    Binary64.calculate_percentile data (PyInt 0) = Ok v
    /\ Binary64.py_min data = Ok lowest
    /\ eqb v lowest = true.
Proof.
  intros Hne Hwf Hfin.
  assert (Hnan : Forall (fun x => is_nan x = false) data).
  { apply List.Forall_forall. intros x Hx. apply is_finite_not_nan.
    revert x Hx. apply List.Forall_forall. exact Hfin. }
  rewrite (calculate_percentile_float_unfold data _ Hne). cbn zeta.
  set (len := Z.of_nat (length data)) in *.
  assert (Hpos : 1 <= len).
  { subst len. destruct data; [contradiction|]. cbn [length]. lia. }
  unfold int_mul. rewrite Z.mul_0_r. cbn [mbind result_bind].
  assert (E1 : true_div (PyInt 0) hundred = Ok zero) by reflexivity.
  assert (E2 : int_of_float zero = Ok 0) by reflexivity.
  assert (E3 : sub_int zero 0 = Ok zero) by reflexivity.
  rewrite E1. cbn [mbind result_bind].
  rewrite E2. cbn [mbind result_bind].
  rewrite E3. cbn [mbind result_bind].
  change (0 + 1) with 1.
  destruct (sorted_float_head data Hne Hnan) as (h & Hh & Hin & Hmin).
  assert (Hget : py_getitem (Binary64.sorted data) 0 = Ok h).
  { apply (getitem_nth _ 0%nat). exact Hh. }
  rewrite Hget.
  rewrite List.Forall_forall in Hnan, Hwf, Hfin.
  assert (Hlowest : exists lowest,
             Binary64.py_min data = Ok lowest /\ eqb h lowest = true).
  { destruct data as [|x rest]; [contradiction|].
    destruct (fold_min_float rest x) as [Hin' Hmin'];
      [apply List.Forall_forall; exact Hnan|].
    eexists. split; [reflexivity|].
    apply not_ltb_antisym; [apply Hnan, Hin|apply Hnan, Hin'| |].
    - apply Hmin', Hin.
    - apply Hmin, Hin'. }
  destruct Hlowest as (lowest & Hlow & Heq).
  destruct (Z.leb_spec len 1) as [Hone|Hmore].
  - exists h, lowest. done.
  - destruct (nth_error (Binary64.sorted data) 1) as [h2|] eqn:Hh2.
    2:{ apply nth_error_None in Hh2. rewrite sorted_length_float in Hh2. lia. }
    assert (Hget2 : py_getitem (Binary64.sorted data) 1 = Ok h2).
    { apply (getitem_nth _ 1%nat). exact Hh2. }
    rewrite Hget2. cbn [mbind result_bind].
    assert (Hin2 : In h2 data).
    { apply (proj1 (sorted_float_In _ _)). eapply nth_error_In. exact Hh2. }
    change (sub one zero) with one.
    rewrite (mul_one h) by (apply Hwf, Hin).
    destruct (mul_zero_finite h2 (Hfin _ Hin2)) as [s ->].
    destruct (key_add_zero h s (Hfin _ Hin)) as [Hkey Hnn].
    eexists _, lowest. split; [reflexivity|]. split; [exact Hlow|].
    assert (Hl : is_nan lowest = false).
    { destruct data as [|x rest]; [contradiction|].
      destruct (fold_min_float rest x) as [Hin' _];
        [apply List.Forall_forall; exact Hnan|].
      injection Hlow as <-. apply Hnan, Hin'. }
    apply eqb_key; [exact Hnn|exact Hl|].
    rewrite Hkey. apply eqb_key; [apply Hnan, Hin|exact Hl|exact Heq].
Qed.

(** C3, as the code has it, in binary64 and with Python's [==].  On a
    non-empty list of finite floats the percentile at 0 equals
    [min(data)]: the interpolation [lo * (1 - 0.0) + hi * 0.0] gives
    [lo] back because [hi * 0.0] is a zero.  On a non-empty list of
    floats none of which is NaN the percentile at 100 equals
    [max(data)], provided [100 * (len - 1)] is below [2^53], so that
    the rank [(len - 1) * 100 / 100.0] is computed exactly. *)
Theorem percentile_0_min_100_max_binary64 :
  forall data : list float,
    data <> [] ->
    (Forall (fun x => well_formed x = true) data ->
     Forall (fun x => is_finite x = true) data ->
     exists v lowest,
       Binary64.calculate_percentile data (PyInt 0) = Ok v
       /\ Binary64.py_min data = Ok lowest
       /\ eqb v lowest = true)
    /\ (Forall (fun x => is_nan x = false) data ->
        100 * (Z.of_nat (length data) - 1) < 2 ^ 53 ->
        exists v highest,
          Binary64.calculate_percentile data (PyInt 100) = Ok v
          /\ Binary64.py_max data = Ok highest
          /\ eqb v highest = true).
Proof.
  intros data Hne. split.
  - intros Hwf Hfin.
    destruct (percentile_0_float data Hne Hwf Hfin) as (v & lowest & H).
    exists v, lowest. exact H.
  - intros Hnan Hlen.
    destruct (percentile_100_float data Hne Hnan Hlen) as (v & highest & H).
    exists v, highest. exact H.
Qed.

Lemma percentile_0_min_100_max_binary64_witness :
  let ttft := [decimal 32867 2; decimal 10651 2; of_Z 3; decimal 32867 2] in
  (exists v lowest,
      Binary64.calculate_percentile ttft (PyInt 0) = Ok v
      /\ Binary64.py_min ttft = Ok lowest
      /\ eqb v lowest = true)
  /\ (exists v highest,
        Binary64.calculate_percentile ttft (PyInt 100) = Ok v
        /\ Binary64.py_max ttft = Ok highest
        /\ eqb v highest = true).
Proof.
  intros ttft.
  destruct (percentile_0_min_100_max_binary64 ttft) as [H0 H100];
    [discriminate|].
  split.
  - apply H0; repeat constructor.
  - apply H100; [repeat constructor|reflexivity].
Defined.

End PercentileBinary64Proofs.


(** ** Live client: more on the transcript buffer *)
Section TranscriptBuffer.
Import LiveClient.

Lemma collapse_consecutive_head (texts : list string) :
  head (collapse_consecutive texts) = head texts.
Proof.
  induction texts as [|x rest IH]; [reflexivity|].
  destruct rest as [|y rest']; [reflexivity|].
  change (collapse_consecutive (x :: y :: rest'))
    with (if String.eqb x y
          then collapse_consecutive (y :: rest')
          else x :: collapse_consecutive (y :: rest')).
  destruct (String.eqb x y) eqn:E; [|reflexivity].
  apply String.eqb_eq in E. rewrite IH, E. reflexivity.
Qed.

Lemma collapse_consecutive_last (texts : list string) :
  last (collapse_consecutive texts) = last texts.
Proof.
  induction texts as [|x rest IH]; [reflexivity|].
  destruct rest as [|y rest']; [reflexivity|].
  change (collapse_consecutive (x :: y :: rest'))
    with (if String.eqb x y
          then collapse_consecutive (y :: rest')
          else x :: collapse_consecutive (y :: rest')).
  rewrite last_cons_cons.
  destruct (String.eqb x y); [exact IH|].
  destruct (collapse_consecutive (y :: rest')) as [|z l] eqn:E.
  - cbn in IH. symmetry in IH. apply last_None in IH. discriminate IH.
  - rewrite last_cons_cons. exact IH.
Qed.

Lemma collapse_consecutive_sublist (texts : list string) :
  collapse_consecutive texts `sublist_of` texts.
Proof.
  induction texts as [|x rest IH]; [constructor|].
  destruct rest as [|y rest']; [reflexivity|].
  change (collapse_consecutive (x :: y :: rest'))
    with (if String.eqb x y
          then collapse_consecutive (y :: rest')
          else x :: collapse_consecutive (y :: rest')).
  destruct (String.eqb x y).
  - apply sublist_cons. exact IH.
  - apply sublist_skip. exact IH.
Qed.

Lemma collapse_consecutive_no_adjacent (texts : list string) :
  no_adjacent_duplicates (collapse_consecutive texts).
Proof.
  induction texts as [|x rest IH]; [intros i a b H; discriminate H|].
  destruct rest as [|y rest'].
  - intros [|i] a b Ha Hb; discriminate Hb.
  - change (collapse_consecutive (x :: y :: rest'))
      with (if String.eqb x y
            then collapse_consecutive (y :: rest')
            else x :: collapse_consecutive (y :: rest')).
    destruct (String.eqb x y) eqn:E; [exact IH|].
    apply String.eqb_neq in E.
    intros [|i] a b Ha Hb.
    + injection Ha as <-.
      change (collapse_consecutive (y :: rest') !! 0%nat = Some b) in Hb.
      pose proof (collapse_consecutive_head (y :: rest')) as Hhd.
      rewrite head_lookup, Hb in Hhd. cbn in Hhd. congruence.
    + exact (IH i a b Ha Hb).
Qed.

Lemma no_adjacent_duplicates_drop (n : nat) (l : list string) :
  no_adjacent_duplicates l -> no_adjacent_duplicates (drop n l).
Proof.
  intros H i x y Hx Hy. rewrite lookup_drop in Hx, Hy.
  apply (H (n + i)%nat x y Hx). rewrite <- Nat.add_succ_r. exact Hy.
Qed.

Lemma last_drop_lt (n : nat) (l : list string) :
  (n < length l)%nat -> last (drop n l) = last l.
Proof.
  intros H. rewrite <- (take_drop n l) at 2. rewrite last_app.
  destruct (last (drop n l)) eqn:E; [reflexivity|].
  apply last_None in E. apply (f_equal length) in E.
  rewrite length_drop in E. cbn in E. lia.
Qed.

(** X1: the buffer printed for a batch never shows the same text twice
    in a row. *)
Theorem transcript_buffer_no_adjacent_duplicates :
  forall segments : list TranscriptionSegment,
    no_adjacent_duplicates (transcript_buffer segments).
Proof.
  intros segments. rewrite transcript_buffer_last_three.
  apply no_adjacent_duplicates_drop, collapse_consecutive_no_adjacent.
Qed.

(** X2: the buffer printed for a batch is a subsequence of the batch's
    segment texts (same order, nothing invented) and its last entry is
    the text of the batch's last segment. *)
Theorem transcript_buffer_subsequence_ending_in_latest :
  forall segments : list TranscriptionSegment,
    transcript_buffer segments `sublist_of` map text segments
    /\ last (transcript_buffer segments) = text <$> last segments.
Proof.
  intros segments. rewrite transcript_buffer_last_three. split.
  - etransitivity; [apply sublist_drop|apply collapse_consecutive_sublist].
  - transitivity (last (map text segments)); [|apply fmap_last].
    rewrite <- (collapse_consecutive_last (map text segments)).
    destruct (collapse_consecutive (map text segments)) as [|x l] eqn:E;
      [reflexivity|].
    apply last_drop_lt. cbn. lia.
Qed.

End TranscriptBuffer.

(** ** Live client: recording and streaming *)
Section Recording.
Import LiveClient.

Lemma on_message_audio (t : Q) (raw : option ServerMessage) (c : Client) :
  audio_config (on_message t raw c) = audio_config c
  /\ recorded_frames (on_message t raw c) = recorded_frames c
  /\ chunk_files (on_message t raw c) = chunk_files c.
Proof.
  unfold on_message. destruct raw as [m|]; [|done].
  repeat case_match; done.
Qed.

Lemma omap_frame_audio_text (j : json) :
  omap frame_audio [TextFrame j] = [].
Proof. reflexivity. Qed.

Lemma omap_frame_audio_binary (a : list Byte.byte) :
  omap frame_audio [BinaryFrame a] = [a].
Proof. reflexivity. Qed.

Lemma step_sent_audio (s : TranscriptionClient) (e : event) :
  omap frame_audio (sent (client (step s e)))
  = omap frame_audio (sent (client s)) ++ streamed_read s e.
Proof.
  unfold streamed_read, mic_read.
  destruct e as [|t raw| |mic|]; cbn [step].
  - destruct (socket (client s)) eqn:Hs; rewrite ?app_nil_r; try done.
    cbn [client].
    rewrite on_open_sent, omap_app, omap_frame_audio_text, app_nil_r.
    reflexivity.
  - destruct (socket (client s)) eqn:Hs; rewrite ?app_nil_r; try done.
    cbn [client]. destruct (on_message_frame t raw (client s)) as (_ & _ & ->).
    reflexivity.
  - destruct (socket (client s)) eqn:Hs; rewrite ?app_nil_r; done.
  - unfold main_step. destruct (main s) as [|n|].
    + destruct (is_recording (client s)).
      * destruct (nonempty_string (audio s)), (socket (client s));
          rewrite ?app_nil_r; done.
      * destruct (is_waiting (client s)), (socket (client s));
          rewrite ?app_nil_r; done.
    + destruct (is_recording (client s)).
      * pose proof (record_iteration_frame n mic (client s)) as H.
        destruct (record_iteration n mic (client s)) as [n' c'].
        cbn [snd] in H. destruct H as (_ & _ & _ & _ & Hsent). cbn [client].
        rewrite Hsent.
        destruct (socket (client s)); rewrite ?app_nil_r; try done.
        rewrite omap_app, omap_frame_audio_binary. reflexivity.
      * destruct (socket (client s)); rewrite ?app_nil_r; done.
    + destruct (socket (client s)); rewrite ?app_nil_r; done.
  - destruct (main s) as [|n|]; cbn [client];
      try (destruct (socket (client s)); rewrite ?app_nil_r; done).
    unfold _cleanup.
    destruct (recorded_frames (client s)), (socket (client s));
      rewrite ?app_nil_r; done.
Qed.

Lemma run_sent_audio (evs : list event) :
  forall s : TranscriptionClient,
    omap frame_audio (sent (client (run s evs)))
    = omap frame_audio (sent (client s)) ++ streamed_reads s evs.
Proof.
  unfold run. induction evs as [|e evs IH]; intros s.
  - cbn. rewrite app_nil_r. reflexivity.
  - cbn [fold_left streamed_reads]. rewrite IH, step_sent_audio, app_assoc.
    reflexivity.
Qed.

Lemma on_message_not_ready (t : Q) (raw : option ServerMessage) (c : Client) :
  is_recording c = false ->
  announces_ready (SocketMessage t raw) = false ->
  is_recording (on_message t raw c) = false.
Proof.
  intros Hrec Hnr. unfold on_message. destruct raw as [m|]; [|exact Hrec].
  cbn [announces_ready] in Hnr. rewrite Hnr.
  repeat case_match; cbn; done.
Qed.

Lemma step_not_ready (s : TranscriptionClient) (e : event) :
  is_recording (client s) = false ->
  announces_ready e = false ->
  is_recording (client (step s e)) = false /\ streamed_read s e = [].
Proof.
  intros Hrec Hnr. split.
  - destruct e as [|t raw| |mic|]; cbn [step].
    + destruct (socket (client s)); done.
    + destruct (socket (client s)); try done.
      cbn [client]. apply on_message_not_ready; done.
    + destruct (socket (client s)); done.
    + unfold main_step. rewrite Hrec.
      destruct (main s); [destruct (is_waiting (client s))| |]; done.
    + destruct (main s) as [|n|]; cbn [client]; try done.
      unfold _cleanup. destruct (recorded_frames (client s)); done.
  - unfold streamed_read, mic_read. rewrite Hrec.
    destruct (socket (client s)), e, (main s); done.
Qed.

Lemma run_not_ready (evs : list event) :
  forall s : TranscriptionClient,
    is_recording (client s) = false ->
    forallb (fun e => negb (announces_ready e)) evs = true ->
    is_recording (client (run s evs)) = false /\ streamed_reads s evs = [].
Proof.
  unfold run. induction evs as [|e evs IH]; intros s Hrec Hall; [done|].
  cbn [forallb] in Hall. apply andb_prop in Hall. destruct Hall as [He Hall].
  apply negb_true_iff in He.
  destruct (step_not_ready s e Hrec He) as [Hrec' Hread].
  destruct (IH (step s e) Hrec' Hall) as [Hfinal Hreads].
  cbn [fold_left streamed_reads]. rewrite Hread, Hreads. done.
Qed.

Lemma step_not_recording (s : TranscriptionClient) (e : event) :
  is_recording (client s) = false ->
  (forall n, main s <> Recording n) ->
  forall n, main (step s e) <> Recording n.
Proof.
  intros Hrec Hmain n. destruct e as [|t raw| |mic|]; cbn [step].
  - destruct (socket (client s)); apply Hmain.
  - destruct (socket (client s)); apply Hmain.
  - destruct (socket (client s)); apply Hmain.
  - unfold main_step. rewrite Hrec. destruct (main s) as [|n'|] eqn:Hm.
    + destruct (is_waiting (client s)); [discriminate|].
      rewrite Hm. discriminate.
    + discriminate.
    + rewrite Hm. discriminate.
  - destruct (main s); discriminate.
Qed.

Lemma run_not_recording (evs : list event) :
  forall s : TranscriptionClient,
    is_recording (client s) = false ->
    (forall n, main s <> Recording n) ->
    forallb (fun e => negb (announces_ready e)) evs = true ->
    forall n, main (run s evs) <> Recording n.
Proof.
  unfold run. induction evs as [|e evs IH]; intros s Hrec Hmain Hall;
    [exact Hmain|].
  cbn [forallb] in Hall. apply andb_prop in Hall. destruct Hall as [He Hall].
  apply negb_true_iff in He. cbn [fold_left].
  apply IH; [|apply step_not_recording; assumption|exact Hall].
  exact (proj1 (step_not_ready s e Hrec He)).
Qed.

(** X4: nothing is streamed before the server says so.  A message whose
    [message] field is "DISCONNECT" turns [is_recording] off; and on
    every schedule from the start of a session that holds no
    "SERVER_READY" message [is_recording] stays off, [__call__] does
    not leave its wait loop for [record], and not a single audio frame
    is sent. *)
Theorem no_audio_without_server_ready :
  (forall t m c,
      msg_message m = Some "DISCONNECT" ->
      is_recording (on_message t (Some m) c) = false)
  /\ (forall cfg uuid4 audio evs,
        forallb (fun e => negb (announces_ready e)) evs = true ->
        omap frame_audio (sent (client (run (start cfg uuid4 audio) evs)))
        = []
        /\ is_recording (client (run (start cfg uuid4 audio) evs)) = false
        /\ forall n, main (run (start cfg uuid4 audio) evs) <> Recording n).
Proof.
  split.
  - intros t m c Hm. unfold on_message. rewrite Hm.
    repeat case_match; cbn; done.
  - intros cfg uuid4 audio evs Hall.
    destruct (run_not_ready evs (start cfg uuid4 audio) eq_refl Hall)
      as [Hfinal Hreads].
    rewrite run_sent_audio, Hreads.
    split; [reflexivity|]. split; [exact Hfinal|].
    apply run_not_recording; [reflexivity|discriminate|exact Hall].
Qed.

Lemma no_audio_without_server_ready_witness :
  let cfg := mkServerConfig "wss://api.talkscriber.com" 9090 "key" false
               (Some "en") false in
  let bye := mkServerMessage None None (Some "DISCONNECT") None None None in
  let pcm := [Byte.x01; Byte.x02] in
  let evs := [MainStep pcm; SocketOpened; SocketMessage 0 (Some bye);
              MainStep pcm; MainStep pcm] in
  omap frame_audio (sent (client (run (start cfg "uid" None) evs))) = []
  /\ is_recording (client (run (start cfg "uid" None) evs)) = false.
Proof.
  intros cfg bye pcm evs.
  destruct (proj2 no_audio_without_server_ready cfg "uid" None evs eq_refl)
    as (Hsent & Hrec & _).
  exact (conj Hsent Hrec).
Defined.

End Recording.

Section RecordingAudio.
Import LiveClient.

Lemma stream_audio_packet_audio (data : list Byte.byte) (c : Client) :
  audio_config (stream_audio_packet data c) = audio_config c
  /\ recorded_frames (stream_audio_packet data c) = recorded_frames c
  /\ chunk_files (stream_audio_packet data c) = chunk_files c.
Proof.
  unfold stream_audio_packet, ws_send. destruct (socket c); done.
Qed.

Lemma record_iteration_audio (n : nat) (data : list Byte.byte) (c : Client) :
  let frames := recorded_frames c ++ data in
  let limit := (60 * rate (audio_config c))%Z in
  let r := record_iteration n data c in
  audio_config r.2 = audio_config c
  /\ (((limit < Z.of_nat (length frames))%Z
       /\ r.1 = S n
       /\ chunk_files r.2 = chunk_files c ++ [(n, frames)]
       /\ recorded_frames r.2 = [])
      \/ ((Z.of_nat (length frames) <= limit)%Z
          /\ r.1 = n
          /\ chunk_files r.2 = chunk_files c
          /\ recorded_frames r.2 = frames)).
Proof.
  intros frames limit r. subst r. unfold record_iteration.
  pose proof (stream_audio_packet_audio data
                (with_recorded_frames (recorded_frames c ++ data) c))
    as (Ha & Hf & Hc).
  cbn [audio_config recorded_frames chunk_files with_recorded_frames]
    in Ha, Hf, Hc.
  rewrite Ha, Hf. fold frames limit.
  destruct (Z.ltb_spec limit (Z.of_nat (length frames))) as [Hlt|Hle].
  - split; [exact Ha|]. left. cbn [fst snd].
    split; [exact Hlt|]. split; [reflexivity|]. split; [|reflexivity].
    change (chunk_files
              (stream_audio_packet data (with_recorded_frames frames c))
            ++ [(n, frames)] = chunk_files c ++ [(n, frames)]).
    fold frames in Hc. rewrite Hc. reflexivity.
  - split; [exact Ha|]. right. cbn [fst snd].
    split; [exact Hle|]. split; [reflexivity|]. split; [exact Hc|exact Hf].
Qed.

Lemma recording_invariant_same_audio (s s' : TranscriptionClient)
    (reads : list (list Byte.byte)) :
  main s' = main s ->
  audio_config (client s') = audio_config (client s) ->
  recorded_frames (client s') = recorded_frames (client s) ->
  chunk_files (client s') = chunk_files (client s) ->
  recording_invariant s reads ->
  recording_invariant s' reads.
Proof.
  unfold recording_invariant, recorded_audio.
  intros -> -> -> ->. done.
Qed.

Lemma recording_invariant_finished (s : TranscriptionClient)
    (reads : list (list Byte.byte)) :
  main s = Finished ->
  audio_config (client s) = default_audio_config ->
  recording_invariant s reads.
Proof. unfold recording_invariant. intros -> ->. done. Qed.

Lemma recording_invariant_step (s : TranscriptionClient) (e : event)
    (reads : list (list Byte.byte)) :
  recording_invariant s reads ->
  recording_invariant (step s e) (reads ++ mic_read s e).
Proof.
  intros Hinv. pose proof Hinv as [Hcfg Hmain]. unfold mic_read.
  destruct e as [|t raw| |mic|]; cbn [step].
  - rewrite app_nil_r.
    destruct (socket (client s)); [|exact Hinv..].
    apply (recording_invariant_same_audio s); done.
  - replace (reads ++ match main s with
                      | _ => []
                      end) with reads by (destruct (main s); by rewrite app_nil_r).
    destruct (socket (client s)); [exact Hinv| |exact Hinv].
    destruct (on_message_audio t raw (client s)) as (Ha & Hf & Hc).
    apply (recording_invariant_same_audio s); done.
  - replace (reads ++ match main s with
                      | _ => []
                      end) with reads by (destruct (main s); by rewrite app_nil_r).
    destruct (socket (client s)); [| |exact Hinv];
      apply (recording_invariant_same_audio s); done.
  - unfold main_step. destruct (main s) as [|n|] eqn:Hm.
    + rewrite app_nil_r. destruct Hmain as (Hfiles & Hbuf & ->).
      destruct (is_recording (client s)).
      * destruct (nonempty_string (audio s)).
        -- apply (recording_invariant_finished _ []); done.
        -- split; [exact Hcfg|]. cbn [client main].
           change (recorded_audio (client s) = concat []
                   /\ map fst (chunk_files (client s))
                      = seq 0 (length (chunk_files (client s)))
                   /\ 0%nat = length (chunk_files (client s))
                   /\ (Z.of_nat (length (recorded_frames (client s)))
                       <= 60 * rate (audio_config (client s)))%Z
                   /\ Forall (fun f => (60 * rate (audio_config (client s))
                                        < Z.of_nat (length f.2))%Z)
                         (chunk_files (client s))).
           unfold recorded_audio. rewrite Hfiles, Hbuf, Hcfg.
           repeat split; done.
      * destruct (is_waiting (client s)).
        -- apply (recording_invariant_finished _ []); done.
        -- exact Hinv.
    + destruct (is_recording (client s)).
      2:{ rewrite app_nil_r.
          apply (recording_invariant_finished _ reads); done. }
      destruct Hmain as (Haudio & Hidx & Hn & Hbuf & Hbig).
      pose proof (record_iteration_audio n mic (client s)) as H.
      destruct (record_iteration n mic (client s)) as [n' c'].
      cbn [fst snd] in H. destruct H as (Ha & H).
      split; [cbn [client]; congruence|].
      cbn [client main]. rewrite Ha, concat_app. cbn [concat].
      rewrite app_nil_r, <- Haudio. unfold recorded_audio.
      destruct H as [(Hlt & -> & Hc & Hf)|(Hle & -> & Hc & Hf)];
        rewrite Hc, Hf.
      * rewrite !map_app, concat_app, length_app. cbn [map concat length snd fst].
        rewrite !app_nil_r, <- app_assoc.
        split; [reflexivity|]. split.
        { rewrite Nat.add_1_r, seq_S, Hidx, <- Hn. reflexivity. }
        split; [lia|]. split; [rewrite Hcfg; cbn; lia|].
        apply Forall_app. split; [exact Hbig|].
        constructor; [exact Hlt|constructor].
      * rewrite app_assoc. done.
    + rewrite app_nil_r. exact Hinv.
  - replace (reads ++ match main s with
                      | _ => []
                      end) with reads by (destruct (main s); by rewrite app_nil_r).
    destruct (main s) as [|n|] eqn:Hm;
      apply (recording_invariant_finished _ reads); try done.
    cbn [client]. unfold _cleanup.
    destruct (recorded_frames (client s)); done.
Qed.

Lemma recording_invariant_run (evs : list event) :
  forall s reads,
    recording_invariant s reads ->
    recording_invariant (run s evs) (reads ++ mic_reads s evs).
Proof.
  unfold run. induction evs as [|e evs IH]; intros s reads Hinv.
  - cbn. rewrite app_nil_r. exact Hinv.
  - cbn [fold_left mic_reads]. rewrite app_assoc.
    apply IH, recording_invariant_step, Hinv.
Qed.

Lemma recording_invariant_start cfg uuid4 audio :
  recording_invariant (start cfg uuid4 audio) [].
Proof. split; done. Qed.

(** X5: while the record loop runs, on every schedule, the chunk files
    written so far followed by the buffer are exactly the audio read
    from the microphone, in order; the files are numbered 0, 1, 2, ...
    up to the loop's counter; every file holds more than [60 * rate]
    (960000) bytes and the buffer never more. *)
Theorem recorded_audio_is_microphone_audio :
  forall cfg uuid4 audio evs n,
    let s := run (start cfg uuid4 audio) evs in
    let c := client s in
    main s = Recording n ->
    recorded_audio c = concat (mic_reads (start cfg uuid4 audio) evs)
    /\ map fst (chunk_files c) = seq 0 n
    /\ (Z.of_nat (length (recorded_frames c)) <= 960000)%Z
    /\ Forall (fun f => (960000 < Z.of_nat (length f.2))%Z) (chunk_files c).
Proof.
  intros cfg uuid4 audio evs n s c Hmain.
  pose proof (recording_invariant_run evs _ _
                (recording_invariant_start cfg uuid4 audio)) as [Hcfg Hinv].
  fold s in Hcfg, Hinv. rewrite Hmain in Hinv. fold c in Hcfg, Hinv.
  destruct Hinv as (Haudio & Hidx & Hn & Hbuf & Hbig).
  rewrite Hcfg in Hbuf, Hbig. cbn [rate default_audio_config] in Hbuf, Hbig.
  split; [exact Haudio|]. split; [congruence|]. split; [exact Hbuf|].
  exact Hbig.
Qed.

Lemma recorded_audio_is_microphone_audio_witness :
  let cfg := mkServerConfig "wss://api.talkscriber.com" 9090 "key" false
               (Some "en") false in
  let ready := mkServerMessage None None (Some "SERVER_READY") None None None in
  let evs := [SocketOpened; SocketMessage 0 (Some ready); MainStep [];
              MainStep [Byte.x01; Byte.x02]; MainStep [Byte.x03; Byte.x04]] in
  let c := client (run (start cfg "uid" None) evs) in
  recorded_audio c = [Byte.x01; Byte.x02; Byte.x03; Byte.x04]
  /\ map fst (chunk_files c) = []
  /\ (Z.of_nat (length (recorded_frames c)) <= 960000)%Z
  /\ Forall (fun f => (960000 < Z.of_nat (length f.2))%Z) (chunk_files c).
Proof.
  intros cfg ready evs c.
  apply (recorded_audio_is_microphone_audio cfg "uid" None evs 0).
  reflexivity.
Defined.

(** X6: how recording ends.  On Ctrl-C during the record loop
    [_cleanup] writes the buffer out, so the chunk files then hold all
    the audio read from the microphone; when the loop ends because
    [is_recording] was switched off (server DISCONNECT), no file is
    written and the buffered audio stays unwritten. *)
Theorem recording_shutdown :
  forall cfg uuid4 audio evs n,
    let s := run (start cfg uuid4 audio) evs in
    main s = Recording n ->
    concat (map snd (chunk_files (client (step s KeyboardInterrupt))))
    = concat (mic_reads (start cfg uuid4 audio) evs)
    /\ (is_recording (client s) = false ->
        forall mic,
          main (step s (MainStep mic)) = Finished
          /\ chunk_files (client (step s (MainStep mic)))
             = chunk_files (client s)
          /\ concat (map snd (chunk_files (client s)))
             ++ recorded_frames (client s)
             = concat (mic_reads (start cfg uuid4 audio) evs)).
Proof.
  intros cfg uuid4 audio evs n s Hmain.
  pose proof (recording_invariant_run evs _ _
                (recording_invariant_start cfg uuid4 audio)) as [Hcfg Hinv].
  fold s in Hcfg, Hinv. rewrite Hmain in Hinv.
  destruct Hinv as (Haudio & _). unfold recorded_audio in Haudio.
  cbn [app] in Haudio. split.
  - cbn [step]. rewrite Hmain. cbn [client]. unfold _cleanup.
    destruct (recorded_frames (client s)) as [|b frames] eqn:Hframes.
    + rewrite <- Haudio, app_nil_r. reflexivity.
    + cbn [chunk_files with_chunk_file].
      rewrite map_app, concat_app. cbn [map concat snd].
      rewrite app_nil_r. exact Haudio.
  - intros Hoff mic. cbn [step]. unfold main_step.
    rewrite Hmain, Hoff. done.
Qed.

Lemma recording_shutdown_witness :
  let cfg := mkServerConfig "wss://api.talkscriber.com" 9090 "key" false
               (Some "en") false in
  let ready := mkServerMessage None None (Some "SERVER_READY") None None None in
  let evs := [SocketOpened; SocketMessage 0 (Some ready); MainStep [];
              MainStep [Byte.x01; Byte.x02]; MainStep [Byte.x03; Byte.x04]] in
  let s := run (start cfg "uid" None) evs in
  concat (map snd (chunk_files (client (step s KeyboardInterrupt))))
  = [Byte.x01; Byte.x02; Byte.x03; Byte.x04].
Proof.
  intros cfg ready evs s.
  refine (proj1 (recording_shutdown cfg "uid" None evs 0 _)). reflexivity.
Defined.

End RecordingAudio.

(** ** Live client: malformed messages *)
Section MalformedMessages.
Import LiveClient.

Lemma silent_step (s : TranscriptionClient) (e : event) :
  silent (step s e) = silent (step (silent s) e).
Proof.
  destruct s as [c a m]. destruct c. unfold silent.
  destruct e as [|t raw| |mic|]; cbn [step client audio main socket
    config audio_config session_id is_recording is_waiting recorded_frames
    sent chunk_files].
  - destruct socket0; reflexivity.
  - destruct socket0; try reflexivity.
    unfold on_message. destruct raw as [msg|]; [|reflexivity].
    cbn. repeat case_match; reflexivity.
  - destruct socket0; reflexivity.
  - unfold main_step. cbn [main client is_recording is_waiting audio].
    destruct m as [|n|]; [| |reflexivity].
    + destruct is_recording0; [destruct (nonempty_string a); reflexivity|].
      destruct is_waiting0; reflexivity.
    + destruct is_recording0; [|reflexivity].
      unfold record_iteration, stream_audio_packet, ws_send. cbn.
      destruct socket0; cbn;
        repeat match goal with
               | |- context [if ?b then _ else _] => destruct b
               end; reflexivity.
  - destruct m as [|n|]; try reflexivity.
    cbn. unfold _cleanup. cbn. destruct recorded_frames0; reflexivity.
Qed.

Lemma silent_step_congruence (s1 s2 : TranscriptionClient) (e : event) :
  silent s1 = silent s2 -> silent (step s1 e) = silent (step s2 e).
Proof.
  intros H. rewrite (silent_step s1), (silent_step s2), H. reflexivity.
Qed.

Lemma silent_run_congruence (evs : list event) :
  forall s1 s2,
    silent s1 = silent s2 -> silent (run s1 evs) = silent (run s2 evs).
Proof.
  unfold run. induction evs as [|e evs IH]; intros s1 s2 H; [exact H|].
  cbn [fold_left]. apply IH, silent_step_congruence, H.
Qed.

Lemma silent_step_malformed (s : TranscriptionClient) (e : event) :
  malformed e = true -> silent (step s e) = silent s.
Proof.
  destruct e as [|t [m|]| | |]; try discriminate. intros _.
  cbn [step]. destruct (socket (client s)); reflexivity.
Qed.

(** X7: a message that cannot be parsed is logged and dropped: removing
    every such message from a schedule changes nothing of the session
    but its console output and the recorded time of the last server
    response; flags, session id, frames sent, audio held and the
    position of the foreground thread are the same. *)
Theorem malformed_messages_are_dropped :
  forall (s : TranscriptionClient) (evs : list event),
    silent (run s evs)
    = silent (run s (List.filter (fun e => negb (malformed e)) evs)).
Proof.
  intros s evs. revert s. induction evs as [|e evs IH]; intros s;
    [reflexivity|].
  cbn [List.filter]. destruct (malformed e) eqn:He; cbn [negb].
  - change (run s (e :: evs)) with (run (step s e) evs).
    rewrite <- IH. apply silent_run_congruence, silent_step_malformed, He.
  - change (run s (e :: evs)) with (run (step s e) evs).
    change (run s (e :: List.filter (fun e => negb (malformed e)) evs))
      with (run (step s e) (List.filter (fun e => negb (malformed e)) evs)).
    apply IH.
Qed.

End MalformedMessages.

(** ** Live client: audio samples *)
Section AudioSamplesProperties.
Local Open Scope Q_scope.

Lemma int16_of_bytes_range (lo hi : Byte.byte) :
  (-32768 <= int16_of_bytes lo hi <= 32767)%Z.
Proof.
  unfold int16_of_bytes.
  pose proof (Byte.to_N_bounded lo). pose proof (Byte.to_N_bounded hi).
  destruct (Z.ltb_spec (Z.of_N (Byte.to_N lo) + 256 * Z.of_N (Byte.to_N hi))
              32768); lia.
Qed.

Lemma sample_to_float_range (sample : Z) :
  (-32768 <= sample <= 32767)%Z ->
  -1 <= inject_Z sample / 32768 /\ inject_Z sample / 32768 < 1.
Proof.
  intros [Hlo Hhi]. split.
  - apply Qle_shift_div_l; [reflexivity|].
    change (-1 * 32768) with (inject_Z (-32768)). rewrite <- Zle_Qle. exact Hlo.
  - apply Qlt_shift_div_r; [reflexivity|].
    change (1 * 32768) with (inject_Z 32768). rewrite <- Zlt_Qlt. lia.
Qed.

Lemma frombuffer_int16_spec (n : nat) :
  forall audio_bytes : list Byte.byte,
    (length audio_bytes <= n)%nat ->
    (Nat.even (length audio_bytes) = true ->
     exists samples,
       frombuffer_int16 audio_bytes = Ok samples
       /\ (2 * length samples = length audio_bytes)%nat
       /\ Forall (fun z => (-32768 <= z <= 32767)%Z) samples)
    /\ (Nat.even (length audio_bytes) = false ->
       exists e,
         frombuffer_int16 audio_bytes = Raise e /\ exn_cls e = ValueErrorC).
Proof.
  induction n as [|n IH]; intros audio_bytes Hlen.
  - destruct audio_bytes; [|cbn in Hlen; lia].
    split; [|discriminate]. intros _. exists []. repeat split. constructor.
  - destruct audio_bytes as [|lo [|hi rest]].
    + split; [|discriminate]. intros _. exists []. repeat split. constructor.
    + split; [discriminate|]. intros _. eexists. split; reflexivity.
    + destruct (IH rest) as [Heven Hodd]; [cbn in Hlen; lia|].
      change (Nat.even (length (lo :: hi :: rest)))
        with (Nat.even (length rest)).
      change (frombuffer_int16 (lo :: hi :: rest))
        with (match frombuffer_int16 rest with
              | Ok samples => Ok (int16_of_bytes lo hi :: samples)
              | Raise e => Raise e
              end).
      split; intros H.
      * destruct (Heven H) as (samples & -> & Hl & Hall).
        eexists. split; [reflexivity|]. split; [cbn; lia|].
        constructor; [apply int16_of_bytes_range|exact Hall].
      * destruct (Hodd H) as (e & -> & He). exists e. done.
Qed.

(** X8: [convert_bytes_to_float] turns a buffer of even length into one
    sample per two bytes, each in the range -1 <= v < 1, and raises
    [ValueError] on a buffer of odd length. *)
Theorem convert_bytes_to_float_range :
  forall audio_bytes : list Byte.byte,
    (Nat.even (length audio_bytes) = true ->
     exists samples,
       convert_bytes_to_float audio_bytes = Ok samples
       /\ (2 * length samples = length audio_bytes)%nat
       /\ Forall (fun v => -1 <= v /\ v < 1) samples)
    /\ (Nat.even (length audio_bytes) = false ->
       exists e,
         convert_bytes_to_float audio_bytes = Raise e
         /\ exn_cls e = ValueErrorC).
Proof.
  intros audio_bytes. unfold convert_bytes_to_float.
  destruct (frombuffer_int16_spec (length audio_bytes) audio_bytes)
    as [Heven Hodd]; [lia|].
  split; intros H.
  - destruct (Heven H) as (raw & -> & Hl & Hall).
    eexists. split; [reflexivity|]. split; [rewrite length_map; exact Hl|].
    apply Forall_map. eapply Forall_impl; [exact Hall|].
    intros z Hz. apply sample_to_float_range, Hz.
  - destruct (Hodd H) as (e & -> & He). exists e. done.
Qed.

Lemma convert_bytes_to_float_range_witness :
  exists samples,
    convert_bytes_to_float [Byte.x00; Byte.x80; Byte.xff; Byte.x7f] = Ok samples
    /\ (2 * length samples = 4)%nat
    /\ Forall (fun v => -1 <= v /\ v < 1) samples.
Proof.
  apply (proj1 (convert_bytes_to_float_range
                  [Byte.x00; Byte.x80; Byte.xff; Byte.x7f])).
  reflexivity.
Defined.

End AudioSamplesProperties.

(** ** Batch client: how polling ends and what it costs *)
Section PollTermination.
Import BatchClient.
Local Open Scope Q_scope.

Variable server : nat -> fetch_reply.
Variables poll_interval timeout : Q.

(** What one turn of the loop does, case by case. *)
Lemma loop_body_cases (l : locals) (w : world) :
  0 <= poll_interval ->
  (timeout < time_time w - start_time l
   /\ loop_body server poll_interval timeout l w
      = Raised (PyExn ExceptionC (MsgJobTimedOut timeout)) w)
  \/ (before_deadline timeout l w
      /\ ((exists job_status w',
              reply (server (polls w)) = Ok job_status
              /\ dict_get job_status "status" = JStr "DONE"
              /\ loop_body server poll_interval timeout l w
                 = Return job_status w'
              /\ polls w' = S (polls w))
          \/ (exists job_status w',
                 reply (server (polls w)) = Ok job_status
                 /\ In (dict_get job_status "status") failure_statuses
                 /\ loop_body server poll_interval timeout l w
                    = Raised (PyExn ExceptionC
                                (MsgJobFailed (dict_get job_status "status")))
                        w'
                 /\ polls w' = S (polls w))
          \/ (exists l' w',
                 loop_body server poll_interval timeout l w = Continue l' w'
                 /\ start_time l' = start_time l
                 /\ now w' = now w + latency (server (polls w)) + poll_interval
                 /\ polls w' = S (polls w)))).
Proof.
  intros Hpi.
  destruct (Qlt_le_dec timeout (time_time w - start_time l)) as [Hlate|Hdl].
  { left. split; [exact Hlate|]. apply loop_body_after_deadline, Hlate. }
  right. split; [exact Hdl|].
  destruct (reply (server (polls w))) as [job_status|e] eqn:Hreply.
  - pose proof (loop_body_before_deadline server poll_interval timeout l w Hdl)
      as Hbody.
    unfold get_batch_job_status in Hbody. rewrite Hreply in Hbody.
    destruct (json_eqb (dict_get job_status "status") (JStr "DONE")) eqn:Hdone.
    { left. apply json_eqb_str in Hdone. eexists _, _.
      split; [reflexivity|]. split; [exact Hdone|]. split; [exact Hbody|].
      reflexivity. }
    destruct (existsb (json_eqb (dict_get job_status "status"))
                failure_statuses) eqn:Hfail.
    { right. left. apply failure_status_spec in Hfail. eexists _, _.
      split; [reflexivity|]. split; [exact Hfail|]. split; [exact Hbody|].
      reflexivity. }
    right. right.
    destruct (other_status_continues server poll_interval timeout l w
                job_status Hdl Hreply) as (l' & w' & H); [| |exact Hpi|].
    + intros E. apply json_eqb_str in E. congruence.
    + intros Hin. apply failure_status_spec in Hin. congruence.
    + exists l', w'. exact H.
  - right. right. eexists _, _.
    split; [apply fetch_failure_continues; eassumption|]. done.
Qed.

Lemma poll_loop_ends :
  0 < poll_interval ->
  (forall n, 0 <= latency (server n)) ->
  forall (n : nat) (l : locals) (w : world) (k : nat),
    timeout - (now w - start_time l) < inject_Z (Z.of_nat n) * poll_interval ->
    ends_properly server timeout
      (poll_loop server (S n + k) poll_interval timeout l w).
Proof.
  intros Hpi Hlat. induction n as [|n IH]; intros l w k Hn.
  - assert (Hlate : timeout < time_time w - start_time l).
    { unfold time_time. change (inject_Z (Z.of_nat 0)) with 0 in Hn. lra. }
    cbn [poll_loop Nat.add].
    rewrite loop_body_after_deadline by exact Hlate. by left.
  - change (poll_loop server (S (S n) + k) poll_interval timeout l w)
      with (match loop_body server poll_interval timeout l w with
            | Return job_status w' => Returned job_status w'
            | Raised e w' => Failed e w'
            | Continue l' w' =>
                poll_loop server (S n + k) poll_interval timeout l' w'
            end).
    destruct (loop_body_cases l w) as [[_ ->]|[Hdl Hcases]]; [lra|by left|].
    destruct Hcases
      as [(js & w' & Hreply & Hdone & -> & _)
         |[(js & w' & Hreply & Hfail & -> & _)
          |(l' & w' & -> & Hstart & Hnow & _)]].
    + split; [exact Hdone|]. eexists. exact Hreply.
    + right. exists js. eexists. done.
    + apply IH. rewrite Hstart, Hnow. pose proof (Hlat (polls w)) as Hl.
      rewrite Nat2Z.inj_succ in Hn. unfold Z.succ in Hn.
      rewrite inject_Z_plus in Hn. change (inject_Z 1) with 1 in Hn.
      unfold before_deadline, time_time in Hdl. lra.
Qed.

(** X9: with a positive poll interval and a status service that takes
    no negative time, [wait_for_job_completion] always ends, for every
    large enough number of turns, and only in one of three ways: it
    returns a fetched dict with status "DONE", raises the job-failed
    error for a fetched failure status, or raises the time-out error.
    No exception of a status request ever reaches the caller. *)
Theorem wait_for_job_completion_ends :
  0 < poll_interval ->
  (forall n, 0 <= latency (server n)) ->
  forall (job_id : string) (w : world),
  exists fuel0 : nat,
    forall fuel : nat,
      (fuel0 <= fuel)%nat ->
      ends_properly server timeout
        (wait_for_job_completion server fuel job_id poll_interval timeout w).
Proof.
  intros Hpi Hlat job_id w.
  destruct (enough_turns poll_interval (timeout - (now w - now w)) Hpi)
    as [n Hn].
  exists (S n). intros fuel Hfuel.
  replace fuel with (S n + (fuel - S n))%nat by lia.
  unfold wait_for_job_completion. apply poll_loop_ends; assumption.
Qed.

End PollTermination.

Section PollTerminationExamples.
Import BatchClient.
Local Open Scope Q_scope.

Lemma wait_for_job_completion_ends_witness :
  exists fuel0 : nat,
    forall fuel : nat,
      (fuel0 <= fuel)%nat ->
      ends_properly always_unreachable 3600
        (wait_for_job_completion always_unreachable fuel "job" 2 3600
           (World 0 0 [])).
Proof.
  apply (wait_for_job_completion_ends always_unreachable 2 3600).
  - reflexivity.
  - intros n. discriminate.
Defined.

End PollTerminationExamples.

Section PollCost.
Import BatchClient.
Local Open Scope Q_scope.

Variable server : nat -> fetch_reply.
Variables poll_interval timeout : Q.

Lemma poll_loop_request_bound (first : nat) :
  0 <= poll_interval ->
  (forall n, 0 <= latency (server n)) ->
  forall (fuel : nat) (l : locals) (w : world) (m : nat),
    polls w = (first + m)%nat ->
    inject_Z (Z.of_nat m) * poll_interval <= now w - start_time l ->
    (m = 0%nat \/ (inject_Z (Z.of_nat m) - 1) * poll_interval <= timeout) ->
    exists m',
      polls (outcome_world (poll_loop server fuel poll_interval timeout l w))
      = (first + m')%nat
      /\ (m' = 0%nat
          \/ (inject_Z (Z.of_nat m') - 1) * poll_interval <= timeout).
Proof.
  intros Hpi Hlat. induction fuel as [|fuel IH]; intros l w m Hpolls Hpace Hm.
  - exists m. done.
  - assert (Hnext : before_deadline timeout l w ->
                    (inject_Z (Z.of_nat (S m)) - 1) * poll_interval <= timeout).
    { unfold before_deadline, time_time. intros Hdl.
      rewrite Nat2Z.inj_succ. unfold Z.succ. rewrite inject_Z_plus.
      change (inject_Z 1) with 1. lra. }
    cbn [poll_loop].
    destruct (loop_body_cases server poll_interval timeout l w Hpi)
      as [[_ ->]|[Hdl Hcases]].
    { exists m. done. }
    destruct Hcases
      as [(js & w' & _ & _ & -> & Hp)
         |[(js & w' & _ & _ & -> & Hp)
          |(l' & w' & -> & Hstart & Hnow & Hp)]].
    + exists (S m). cbn [outcome_world]. split; [lia|]. right. auto.
    + exists (S m). cbn [outcome_world]. split; [lia|]. right. auto.
    + apply (IH l' w' (S m)); [lia| |right; auto].
      rewrite Hstart, Hnow. pose proof (Hlat (polls w)) as Hl.
      rewrite Nat2Z.inj_succ. unfold Z.succ. rewrite inject_Z_plus.
      change (inject_Z 1) with 1. lra.
Qed.

(** X10: polling costs at most one status request per poll interval of
    the time-out, plus one.  With a non-negative poll interval and a
    status service that takes no negative time, the number [m] of
    requests made by [wait_for_job_completion] at any moment satisfies
    [(m - 1) * poll_interval <= timeout] (or no request was made). *)
Theorem status_requests_bounded :
  0 <= poll_interval ->
  (forall n, 0 <= latency (server n)) ->
  forall (fuel : nat) (job_id : string) (w : world),
  exists m : nat,
    polls (outcome_world
             (wait_for_job_completion server fuel job_id poll_interval
                timeout w))
    = (polls w + m)%nat
    /\ (m = 0%nat \/ (inject_Z (Z.of_nat m) - 1) * poll_interval <= timeout).
Proof.
  intros Hpi Hlat fuel job_id w. unfold wait_for_job_completion.
  apply (poll_loop_request_bound (polls w) Hpi Hlat fuel _ _ 0%nat).
  - cbn [polls print]. lia.
  - change (inject_Z (Z.of_nat 0)) with 0.
    cbn [now print start_time]. unfold time_time. lra.
  - by left.
Qed.

Lemma loop_body_log (l : locals) (w : world) :
  let r := loop_body server poll_interval timeout l w in
  let w' := match r with
            | Return _ w' => w'
            | Raised _ w' => w'
            | Continue _ w' => w'
            end in
  (polls w' = polls w /\ stdout w' = stdout w
   /\ exists e, r = Raised e w')
  \/ (polls w' = S (polls w)
      /\ logged_failures (stdout w')
         = logged_failures (stdout w) ++ failed_replies server (polls w) 1).
Proof.
  cbn zeta. unfold loop_body.
  destruct (Qlt_le_dec timeout (time_time w - start_time l)) as [_|_].
  { left. eauto. }
  right. unfold get_batch_job_status, failed_replies. cbn [seq omap list_omap].
  destruct (reply (server (polls w))) as [job_status|e].
  - destruct (json_eqb (dict_get job_status "status") (JStr "DONE")).
    { cbn. unfold logged_failures. rewrite omap_app, !app_nil_r. done. }
    destruct (existsb (json_eqb (dict_get job_status "status"))
                failure_statuses).
    { cbn. rewrite app_nil_r. done. }
    unfold sleep_then_continue, time_sleep.
    destruct (negb (json_eqb _ (last_status l)));
      [|destruct (Qle_bool 60 _)];
      destruct (Qlt_le_dec poll_interval 0); cbn;
      unfold logged_failures; rewrite ?omap_app, ?app_nil_r; done.
  - unfold sleep_then_continue, time_sleep.
    destruct (Qlt_le_dec poll_interval 0); cbn;
      unfold logged_failures; rewrite omap_app; done.
Qed.

Lemma poll_loop_log :
  forall (fuel : nat) (l : locals) (w : world),
  exists m : nat,
    let w' := outcome_world (poll_loop server fuel poll_interval timeout l w) in
    polls w' = (polls w + m)%nat
    /\ logged_failures (stdout w')
       = logged_failures (stdout w) ++ failed_replies server (polls w) m.
Proof.
  induction fuel as [|fuel IH]; intros l w.
  - exists 0%nat. cbn. rewrite app_nil_r. split; [lia|reflexivity].
  - cbn [poll_loop]. pose proof (loop_body_log l w) as Hlog. cbn zeta in Hlog.
    destruct (loop_body server poll_interval timeout l w) as [js w1|e w1|l1 w1].
    + destruct Hlog as [(_ & _ & e & He)|[Hp Hl]]; [discriminate He|].
      exists 1%nat. cbn [outcome_world]. split; [lia|exact Hl].
    + destruct Hlog as [(Hp & Hs & _)|[Hp Hl]].
      * exists 0%nat. cbn [outcome_world]. rewrite Hp, Hs.
        cbn. rewrite app_nil_r. split; [lia|reflexivity].
      * exists 1%nat. cbn [outcome_world]. split; [lia|exact Hl].
    + destruct Hlog as [(_ & _ & e & He)|[Hp Hl]]; [discriminate He|].
      destruct (IH l1 w1) as (m & Hpm & Hlm). cbn zeta in Hpm, Hlm.
      exists (S m). cbn zeta. split; [lia|].
      rewrite Hlm, Hl, Hp, <- app_assoc. f_equal.
      change (S m) with (1 + m)%nat. unfold failed_replies.
      rewrite seq_app, omap_app, Nat.add_1_r. reflexivity.
Qed.

(** X11: every failed status request is reported exactly once, in
    order.  Whatever the status service does and however long the loop
    has run, the "[ERROR]: Failed to get job status" lines printed by
    [wait_for_job_completion] carry exactly the exceptions of the failed
    requests among those made so far. *)
Theorem fetch_failures_logged_once :
  forall (fuel : nat) (job_id : string) (w : world),
  exists m : nat,
    let w' := outcome_world
                (wait_for_job_completion server fuel job_id poll_interval
                   timeout w) in
    polls w' = (polls w + m)%nat
    /\ logged_failures (stdout w')
       = logged_failures (stdout w) ++ failed_replies server (polls w) m.
Proof.
  intros fuel job_id w. unfold wait_for_job_completion.
  destruct (poll_loop_log fuel
              (Locals (time_time w) JNull (time_time w))
              (print (LogJobId job_id) (print LogWaiting w)))
    as (m & Hp & Hl).
  cbn zeta in Hp, Hl. exists m. cbn zeta. split; [exact Hp|].
  rewrite Hl. cbn [print stdout polls]. unfold logged_failures.
  rewrite !omap_app. cbn. rewrite !app_nil_r. reflexivity.
Qed.

End PollCost.

Section PollCostExamples.
Import BatchClient.
Local Open Scope Q_scope.

Lemma status_requests_bounded_witness :
  exists m : nat,
    polls (outcome_world
             (wait_for_job_completion always_processing 5 "job" 2 3600
                (World 0 0 [])))
    = (0 + m)%nat
    /\ (m = 0%nat \/ (inject_Z (Z.of_nat m) - 1) * 2 <= 3600).
Proof.
  apply (status_requests_bounded always_processing 2 3600).
  - discriminate.
  - intros n. discriminate.
Defined.

End PollCostExamples.

(** ** Benchmark: minimum and maximum *)
Section PercentileBounds.
Import Benchmark.
Local Open Scope Q_scope.



End PercentileBounds.

(** ** Benchmark: the statistics of the report *)
Section ReportStatistics.
Import Benchmark.
Local Open Scope Q_scope.








End ReportStatistics.

(** ** Benchmark: the order of the samples does not matter *)
Section SampleOrder.
Import Benchmark.
Local Open Scope Q_scope.

Lemma count_below_Permutation (v : Q) (l1 l2 : list Q) :
  Permutation l1 l2 -> count_below v l1 = count_below v l2.
Proof.
  unfold count_below. induction 1 as [|x l1 l2 _ IH|x y l|l1 l2 l3 _ IH1 _ IH2].
  - reflexivity.
  - cbn [List.filter]. destruct (negb (Qle_bool v x)); cbn; congruence.
  - cbn [List.filter].
    destruct (negb (Qle_bool v x)), (negb (Qle_bool v y)); reflexivity.
  - congruence.
Qed.









End SampleOrder.

(** ** Benchmark: the measurement loop *)
Section BenchmarkLoopProperties.
Import Benchmark.

Lemma count_tally (p : progress) (t : tally) :
  ttft_measurements (count p t) = ttft_measurements t ++ appended p
  /\ (successful_runs t <= successful_runs (count p t)
      <= successful_runs t + length (appended p))%nat
  /\ (failed_runs t <= failed_runs (count p t) <= S (failed_runs t))%nat.
Proof.
  destruct p; cbn; rewrite ?app_nil_r; repeat split; lia.
Qed.

Lemma benchmark_loop_tally (env : nat -> trial * bool) (num_runs : Z) :
  forall (remaining i : nat) (t t' : tally),
    benchmark_loop env num_runs i remaining t = LoopDone t' ->
    ttft_measurements t'
    = ttft_measurements t ++ measured env i remaining
    /\ ((successful_runs t <= length (ttft_measurements t))%nat ->
        (successful_runs t' <= length (ttft_measurements t'))%nat)
    /\ ((forall k, (i <= k < i + remaining)%nat ->
                   cut_after_append (env k).1 = false) ->
        successful_runs t = length (ttft_measurements t) ->
        successful_runs t' = length (ttft_measurements t'))
    /\ ((forall k, (i <= k < i + remaining)%nat ->
                   raised_after_count (env k).1 = false) ->
        (successful_runs t' + failed_runs t'
         <= successful_runs t + failed_runs t + remaining)%nat)
    /\ ((forall k, (i <= k < i + remaining)%nat ->
                   raised_after_count (env k).1 = false
                   /\ interrupted (env k).1 = false) ->
        (successful_runs t' + failed_runs t'
         = successful_runs t + failed_runs t + remaining)%nat).
Proof.
  induction remaining as [|remaining IH]; intros i t t' Hloop.
  - cbn in Hloop. injection Hloop as <-. cbn [measured].
    rewrite app_nil_r. repeat split; try done; lia.
  - cbn [benchmark_loop measured] in Hloop |- *.
    assert (Hhere : forall P : nat -> Prop,
               (forall k, (i <= k < i + S remaining)%nat -> P k) ->
               P i /\ forall k, (S i <= k < S i + remaining)%nat -> P k).
    { intros P H. split; [apply H; lia|intros k Hk; apply H; lia]. }
    destruct (env i) as [tr paused] eqn:Henv. cbn [fst snd] in Hloop |- *.
    destruct tr as [[x|]|p|p|]; cbn [run_trial] in Hloop;
      try discriminate Hloop.
    + (* a measurement *)
      destruct ((Z.of_nat i <? num_runs - 1)%Z && paused);
        [discriminate Hloop|].
      destruct (IH _ _ _ Hloop) as (H1 & H2 & H3 & H4 & H5).
      cbn [count ttft_measurements successful_runs failed_runs]
        in H1, H2, H3, H4, H5.
      rewrite length_app in H2, H3. cbn [length] in H2, H3.
      split; [rewrite H1, <- app_assoc; reflexivity|].
      split; [intros Hinv; apply H2; lia|].
      split; [intros Hno Hinv; apply Hhere in Hno; destruct Hno as [_ Hno];
              apply H3; [exact Hno|lia]|].
      split; [intros Hno; apply Hhere in Hno; destruct Hno as [_ Hno];
              specialize (H4 Hno); lia|].
      intros Hno. apply Hhere in Hno. destruct Hno as [_ Hno].
      specialize (H5 Hno). lia.
    + (* an [else] branch *)
      destruct ((Z.of_nat i <? num_runs - 1)%Z && paused);
        [discriminate Hloop|].
      destruct (IH _ _ _ Hloop) as (H1 & H2 & H3 & H4 & H5).
      cbn [count ttft_measurements successful_runs failed_runs]
        in H1, H2, H3, H4, H5.
      split; [exact H1|]. split; [exact H2|].
      split; [intros Hno Hinv; apply Hhere in Hno; destruct Hno as [_ Hno];
              apply H3; assumption|].
      split; [intros Hno; apply Hhere in Hno; destruct Hno as [_ Hno];
              specialize (H4 Hno); lia|].
      intros Hno. apply Hhere in Hno. destruct Hno as [_ Hno].
      specialize (H5 Hno). lia.
    + (* Ctrl-C inside the block *)
      injection Hloop as <-.
      destruct (count_tally p t) as (C1 & C2 & C3).
      split; [exact C1|].
      split.
      { intros Hinv. rewrite C1, length_app. lia. }
      split.
      { intros Hno Hinv. apply Hhere in Hno. destruct Hno as [Hno _].
        rewrite Henv in Hno. cbn [fst] in Hno.
        destruct p; cbn in Hno |- *; rewrite ?app_nil_r, ?length_app;
          cbn [length]; try lia; try discriminate Hno. }
      split.
      { intros _. destruct p; cbn; lia. }
      intros Hno. apply Hhere in Hno. destruct Hno as [[_ Hno] _].
      rewrite Henv in Hno. discriminate Hno.
    + (* an exception inside the block *)
      destruct ((Z.of_nat i <? num_runs - 1)%Z && paused);
        [discriminate Hloop|].
      destruct (IH _ _ _ Hloop) as (H1 & H2 & H3 & H4 & H5).
      destruct (count_tally p t) as (C1 & C2 & C3).
      cbn [count ttft_measurements successful_runs failed_runs]
        in H1, H2, H3, H4, H5.
      fold (count p t) in H1, H2, H3, H4, H5.
      split; [rewrite H1, C1, <- app_assoc; reflexivity|].
      split; [intros Hinv; apply H2; rewrite C1, length_app; lia|].
      split.
      { intros Hno Hinv. apply Hhere in Hno. destruct Hno as [Hcut Hno].
        rewrite Henv in Hcut. cbn [fst] in Hcut.
        apply H3; [exact Hno|].
        destruct p; cbn in Hcut |- *; rewrite ?app_nil_r, ?length_app;
          cbn [length]; try lia; try discriminate Hcut. }
      split.
      { intros Hno. apply Hhere in Hno. destruct Hno as [Hr Hno].
        rewrite Henv in Hr. cbn [fst] in Hr. specialize (H4 Hno).
        destruct p; cbn in Hr, H4 |- *; try discriminate Hr; lia. }
      intros Hno. apply Hhere in Hno. destruct Hno as [[Hr _] Hno].
      rewrite Henv in Hr. cbn [fst] in Hr. specialize (H5 Hno).
      destruct p; cbn in Hr, H5 |- *; try discriminate Hr; lia.
Qed.

(** X19: whenever [run_benchmark] returns, the measurements are those
    the trials appended, in order, up to the first interrupted trial,
    and "Successful" is at most their number: it is their number unless
    a trial was cut between [ttft_measurements.append] and
    [successful_runs += 1] (Ctrl-C arriving there).  Unless a trial
    raised after it had been counted, "Successful" plus "Failed" does
    not exceed the number of runs asked for, and equals it when
    moreover no trial was interrupted.  The function returns [False]
    exactly when no measurement was collected. *)
Theorem run_benchmark_counts :
  forall (env : nat -> trial * bool) (num_runs : Z) (t : tally)
         (report : result (option statistics)),
    run_benchmark env num_runs = BenchmarkReturned t report ->
    ttft_measurements t = measured env 0 (Z.to_nat num_runs)
    /\ (successful_runs t <= length (ttft_measurements t))%nat
    /\ ((forall k, (k < Z.to_nat num_runs)%nat ->
                   cut_after_append (env k).1 = false) ->
        successful_runs t = length (ttft_measurements t))
    /\ ((forall k, (k < Z.to_nat num_runs)%nat ->
                   raised_after_count (env k).1 = false) ->
        (successful_runs t + failed_runs t <= Z.to_nat num_runs)%nat)
    /\ ((forall k, (k < Z.to_nat num_runs)%nat ->
                   raised_after_count (env k).1 = false
                   /\ interrupted (env k).1 = false) ->
        (successful_runs t + failed_runs t = Z.to_nat num_runs)%nat)
    /\ (ttft_measurements t = [] <-> report = Ok None).
Proof.
  intros env num_runs t report Hrun. unfold run_benchmark in Hrun.
  destruct (benchmark_loop env num_runs 0 (Z.to_nat num_runs) (Tally [] 0 0))
    as [t0|] eqn:Hloop; [|discriminate Hrun].
  injection Hrun as <- <-.
  destruct (benchmark_loop_tally env num_runs _ _ _ _ Hloop)
    as (H1 & H2 & H3 & H4 & H5).
  cbn [ttft_measurements successful_runs failed_runs length] in H1, H2, H3,
    H4, H5.
  split; [exact H1|]. split; [apply H2; lia|].
  split; [intros Hno; apply H3; [intros k Hk; apply Hno; lia|reflexivity]|].
  split; [intros Hno; rewrite H4; [lia|]; intros k Hk; apply Hno; lia|].
  split; [intros Hno; rewrite H5; [lia|]; intros k Hk; apply Hno; lia|].
  destruct (ttft_measurements t0) as [|x rest] eqn:Hm.
  - split; reflexivity.
  - split; [discriminate|]. unfold run_benchmark_statistics.
    destruct (calculate_percentile (x :: rest) 50) as [v50|];
      [cbn [mbind result_bind]|discriminate].
    destruct (calculate_percentile (x :: rest) 95) as [v95|];
      [cbn [mbind result_bind]|discriminate].
    destruct (calculate_percentile (x :: rest) 99) as [v99|];
      [cbn [mbind result_bind]|discriminate].
    destruct (mean (x :: rest)) as [vmean|];
      [cbn [mbind result_bind]|discriminate].
    destruct (median (x :: rest)) as [vmed|];
      [cbn [mbind result_bind]|discriminate].
    destruct (if (1 <? Z.of_nat (length (x :: rest)))%Z
              then stdev (x :: rest) else Ok StdevZero) as [vsd|];
      [cbn [mbind result_bind]|discriminate].
    destruct (py_min (x :: rest)) as [vmin|];
      [cbn [mbind result_bind]|discriminate].
    destruct (py_max (x :: rest)) as [vmax|];
      [cbn [mbind result_bind]|discriminate].
    discriminate.
Qed.

Lemma run_benchmark_counts_witness :
  exists t report,
    run_benchmark sample_trials 5 = BenchmarkReturned t report
    /\ ttft_measurements t = [120; 80; 95]%Q
    /\ successful_runs t = 2%nat
    /\ (successful_runs t <= length (ttft_measurements t))%nat
    /\ (successful_runs t + failed_runs t <= 5)%nat.
Proof.
  eexists _, _. split; [reflexivity|].
  destruct (run_benchmark_counts sample_trials 5 _ _ eq_refl)
    as (H1 & H2 & _ & H4 & _).
  split; [exact H1|]. split; [reflexivity|]. split; [exact H2|].
  apply H4. intros k _. destruct k as [|[|[|k]]]; reflexivity.
Defined.

End BenchmarkLoopProperties.

(** ** Live client: session id, WAIT and file input *)
Section SessionFlags.
Import LiveClient.

Lemma on_message_session_id (t : Q) (raw : option ServerMessage) (c : Client) :
  session_id (on_message t raw c)
  = match issued_session_id (SocketMessage t raw) with
    | Some sid => sid
    | None => session_id c
    end.
Proof.
  unfold on_message, issued_session_id. destruct raw as [m|]; [|reflexivity].
  destruct (msg_session_id m) as [sid|].
  - unfold nonempty_string. destruct (String.eqb sid "") eqn:Hempty.
    + cbn [negb andb]. repeat case_match; reflexivity.
    + cbn [negb andb with_response_time session_id].
      destruct (String.eqb sid (session_id c)) eqn:Hsame.
      * apply String.eqb_eq in Hsame. cbn [negb].
        repeat case_match; cbn; congruence.
      * cbn [negb]. repeat case_match; reflexivity.
  - repeat case_match; reflexivity.
Qed.

Lemma step_session_id (s : TranscriptionClient) (e : event) :
  session_id (client (step s e))
  = match socket (client s), issued_session_id e with
    | Open, Some sid => sid
    | _, _ => session_id (client s)
    end.
Proof.
  destruct e as [|t raw| |mic|]; cbn [step].
  - destruct (socket (client s)); reflexivity.
  - destruct (socket (client s)); try reflexivity.
    cbn [client]. apply on_message_session_id.
  - destruct (socket (client s)); reflexivity.
  - transitivity (session_id (client s));
      [|cbn [issued_session_id]; destruct (socket (client s)); reflexivity].
    unfold main_step. destruct (main s) as [|n|]; [| |reflexivity].
    + destruct (is_recording (client s));
        [destruct (nonempty_string (audio s))|destruct (is_waiting (client s))];
        reflexivity.
    + destruct (is_recording (client s)); [|reflexivity].
      pose proof (record_iteration_frame n mic (client s)) as H.
      destruct (record_iteration n mic (client s)) as [n' c'].
      cbn [snd] in H. destruct H as (_ & _ & _ & Hid & _). exact Hid.
  - transitivity (session_id (client s));
      [|cbn [issued_session_id]; destruct (socket (client s)); reflexivity].
    destruct (main s) as [|n|]; try reflexivity.
    cbn [client]. unfold _cleanup.
    destruct (recorded_frames (client s)); reflexivity.
Qed.

(** X20: the client's session id changes only when a parsed message
    arrives on the open socket with a non-empty [session_id], and then
    it becomes that id; no other step of a session touches it.  A
    session that received no such message still has the id generated by
    [Client.__init__]. *)
Theorem session_id_follows_server :
  (forall (s : TranscriptionClient) (e : event),
      session_id (client (step s e))
      = match socket (client s), issued_session_id e with
        | Open, Some sid => sid
        | _, _ => session_id (client s)
        end)
  /\ (forall cfg uuid4 audio evs,
        forallb (fun e => negb (bool_decide (is_Some (issued_session_id e))))
          evs = true ->
        session_id (client (run (start cfg uuid4 audio) evs)) = uuid4).
Proof.
  split; [exact step_session_id|].
  intros cfg uuid4 audio evs.
  assert (H : forall s,
             forallb (fun e => negb (bool_decide (is_Some (issued_session_id e))))
               evs = true ->
             session_id (client (run s evs)) = session_id (client s)).
  { unfold run. induction evs as [|e evs IH]; intros s Hall; [reflexivity|].
    cbn [forallb] in Hall. apply andb_prop in Hall. destruct Hall as [He Hall].
    cbn [fold_left]. rewrite IH by exact Hall. rewrite step_session_id.
    apply negb_true_iff, bool_decide_eq_false in He.
    destruct (issued_session_id e) as [sid|]; [|by destruct (socket _)].
    exfalso. apply He. eauto. }
  intros Hall. rewrite H by exact Hall. reflexivity.
Qed.

Lemma session_id_follows_server_witness :
  let cfg := mkServerConfig "wss://api.talkscriber.com" 9090 "key" false
               (Some "en") false in
  let ready := mkServerMessage None None (Some "SERVER_READY") None None None in
  session_id (client (run (start cfg "uid" None)
                        [SocketOpened; SocketMessage 0 (Some ready);
                         SocketMessage 1 None; MainStep []]))
  = "uid".
Proof.
  intros cfg ready.
  apply (proj2 session_id_follows_server cfg "uid" None). reflexivity.
Defined.

Lemma on_message_is_waiting (t : Q) (raw : option ServerMessage) (c : Client) :
  is_waiting c = true -> is_waiting (on_message t raw c) = true.
Proof.
  intros H. unfold on_message. destruct raw as [m|]; [|exact H].
  repeat case_match; cbn; done.
Qed.

Lemma record_iteration_is_waiting (n : nat) (data : list Byte.byte)
    (c : Client) :
  is_waiting (record_iteration n data c).2 = is_waiting c.
Proof.
  destruct c. unfold record_iteration, stream_audio_packet, ws_send.
  cbn. destruct socket0; cbn;
    repeat match goal with
           | |- context [if ?b then _ else _] => destruct b
           end; reflexivity.
Qed.

Lemma step_is_waiting (s : TranscriptionClient) (e : event) :
  is_waiting (client s) = true -> is_waiting (client (step s e)) = true.
Proof.
  intros H. destruct e as [|t raw| |mic|]; cbn [step].
  - destruct (socket (client s)); done.
  - destruct (socket (client s)); try done.
    cbn [client]. apply on_message_is_waiting, H.
  - destruct (socket (client s)); done.
  - unfold main_step. destruct (main s) as [|n|]; [| |done].
    + destruct (is_recording (client s));
        [destruct (nonempty_string (audio s))|rewrite H]; exact H.
    + destruct (is_recording (client s)); [|exact H].
      pose proof (record_iteration_is_waiting n mic (client s)) as Hw.
      destruct (record_iteration n mic (client s)) as [n' c'].
      cbn [snd] in Hw. cbn [client]. congruence.
  - destruct (main s) as [|n|]; try done.
    cbn [client]. unfold _cleanup.
    destruct (recorded_frames (client s)); done.
Qed.

(** X21: a "WAIT" status is final for the session.  The message sets
    [is_waiting], nothing ever clears it again, and a foreground thread
    that is still waiting for "SERVER_READY" when it next looks gives up
    without sending anything: there is no retry. *)
Theorem wait_status_ends_the_session :
  (forall t m c,
      msg_status m = Some "WAIT" ->
      is_waiting (on_message t (Some m) c) = true)
  /\ (forall s evs,
        is_waiting (client s) = true ->
        is_waiting (client (run s evs)) = true)
  /\ (forall s mic,
        main s = WaitingForReady ->
        is_recording (client s) = false ->
        is_waiting (client s) = true ->
        main (step s (MainStep mic)) = Finished
        /\ sent (client (step s (MainStep mic))) = sent (client s)).
Proof.
  split; [|split].
  - intros t m c Hm. unfold on_message. rewrite Hm.
    repeat case_match; cbn; done.
  - intros s evs. revert s. unfold run.
    induction evs as [|e evs IH]; intros s H; [exact H|].
    cbn [fold_left]. apply IH, step_is_waiting, H.
  - intros s mic Hmain Hrec Hwait. cbn [step]. unfold main_step.
    rewrite Hmain, Hrec, Hwait. done.
Qed.

Lemma wait_status_ends_the_session_witness :
  let cfg := mkServerConfig "wss://api.talkscriber.com" 9090 "key" false
               (Some "en") false in
  let busy := mkServerMessage None (Some "WAIT") None None None None in
  let s := run (start cfg "uid" None) [SocketOpened; SocketMessage 0 (Some busy)] in
  main (step s (MainStep [])) = Finished
  /\ sent (client (step s (MainStep []))) = sent (client s).
Proof.
  intros cfg busy s.
  apply (proj2 (proj2 wait_status_ends_the_session) s []); reflexivity.
Defined.

Lemma step_audio (s : TranscriptionClient) (e : event) :
  audio (step s e) = audio s.
Proof.
  destruct e as [|t raw| |mic|]; cbn [step].
  - destruct (socket (client s)); reflexivity.
  - destruct (socket (client s)); reflexivity.
  - destruct (socket (client s)); reflexivity.
  - unfold main_step. destruct (main s) as [|n|]; [| |reflexivity].
    + destruct (is_recording (client s));
        [destruct (nonempty_string (audio s))|destruct (is_waiting (client s))];
        reflexivity.
    + destruct (is_recording (client s)); [|reflexivity].
      destruct (record_iteration n mic (client s)). reflexivity.
  - destruct (main s); reflexivity.
Qed.

Lemma file_input_never_records (evs : list event) :
  forall s : TranscriptionClient,
    nonempty_string (audio s) = true ->
    (forall n, main s <> Recording n) ->
    streamed_reads s evs = [].
Proof.
  induction evs as [|e evs IH]; intros s Hfile Hmain; [reflexivity|].
  cbn [streamed_reads].
  assert (Hread : streamed_read s e = []).
  { unfold streamed_read, mic_read.
    destruct (socket (client s)), e, (main s) as [|n|]; try reflexivity;
      exfalso; apply (Hmain n); reflexivity. }
  rewrite Hread. apply IH.
  - rewrite step_audio. exact Hfile.
  - intros n. destruct e as [|t raw| |mic|]; cbn [step].
    + destruct (socket (client s)); apply Hmain.
    + destruct (socket (client s)); apply Hmain.
    + destruct (socket (client s)); apply Hmain.
    + unfold main_step. destruct (main s) as [|n'|] eqn:Hm.
      * destruct (is_recording (client s)).
        -- rewrite Hfile. discriminate.
        -- destruct (is_waiting (client s)); [discriminate|].
           rewrite Hm. discriminate.
      * exfalso. apply (Hmain n'). reflexivity.
      * rewrite Hm. discriminate.
    + destruct (main s); discriminate.
Qed.

(** X22: file input streams nothing.  When [__call__] is given the name
    of an audio file (a string that is not empty, so that [if audio:]
    holds), the class has no [play_and_stream_audio] to call, the record
    loop is never entered, and on every schedule not a single audio
    frame leaves the client. *)
Theorem file_input_sends_no_audio :
  forall cfg uuid4 file evs,
    file <> "" ->
    omap frame_audio
      (sent (client (run (start cfg uuid4 (Some file)) evs))) = [].
Proof.
  intros cfg uuid4 file evs Hfile. rewrite run_sent_audio.
  rewrite file_input_never_records; [reflexivity| |done].
  cbn. apply negb_true_iff, String.eqb_neq. exact Hfile.
Qed.

Lemma file_input_sends_no_audio_witness :
  let cfg := mkServerConfig "wss://api.talkscriber.com" 9090 "key" false
               (Some "en") false in
  let ready :=
    mkServerMessage None None (Some "SERVER_READY") None None None in
  let pcm := [Byte.x01; Byte.x02] in
  omap frame_audio
    (sent (client (run (start cfg "uid" (Some "speech.wav"))
                     [SocketOpened; SocketMessage 0 (Some ready);
                      MainStep pcm; MainStep pcm]))) = [].
Proof.
  intros cfg ready pcm.
  apply (file_input_sends_no_audio cfg "uid" "speech.wav"). discriminate.
Defined.

End SessionFlags.

(** ** File names and URLs *)
Section NamesAndUrlsProperties.
Import Stdlib.Strings.Ascii.

Lemma append_String (c : ascii) (a b : string) :
  String.append (String c a) b = String c (String.append a b).
Proof. reflexivity. Qed.

Lemma before_first_dot_split (s : string) :
  s = before_first_dot s
  \/ exists rest,
      s = String.append (before_first_dot s) (String "."%char rest).
Proof.
  induction s as [|c s IH]; [by left|].
  cbn [before_first_dot]. destruct (Ascii.eqb c "."%char) eqn:E.
  - right. apply Ascii.eqb_eq in E. subst c. exists s. reflexivity.
  - destruct IH as [IH|[rest IH]].
    + left. f_equal. exact IH.
    + right. exists rest. rewrite append_String. f_equal. exact IH.
Qed.

Lemma before_first_dot_no_dot (s a b : string) :
  before_first_dot s <> String.append a (String "."%char b).
Proof.
  revert a. induction s as [|c s IH]; intros a H.
  - destruct a; discriminate H.
  - cbn [before_first_dot] in H. destruct (Ascii.eqb c "."%char) eqn:E.
    + destruct a; discriminate H.
    + destruct a as [|c' a]; cbn in H.
      * injection H as Hc _. subst c. discriminate E.
      * injection H as _ H. exact (IH a H).
Qed.

(** X23: the file [resample_audio] writes is named after the part of
    the input path before its first dot, followed by "_modified.wav":
    that part holds no dot, the input is it alone or it followed by a
    dot and a rest, and a path that starts with a dot (such as
    "./talk.wav") gives just "_modified.wav". *)
Theorem resampled_file_name :
  forall input_file : string,
    let stem := before_first_dot input_file in
    modified_audio_file input_file = String.append stem "_modified.wav"
    /\ (forall a b, stem <> String.append a (String "."%char b))
    /\ (input_file = stem
        \/ exists rest, input_file = String.append stem (String "."%char rest))
    /\ (forall rest,
          modified_audio_file (String "."%char rest) = "_modified.wav").
Proof.
  intros input_file stem. split; [reflexivity|]. split; [|split].
  - intros a b. apply before_first_dot_no_dot.
  - apply before_first_dot_split.
  - reflexivity.
Qed.

Lemma rstrip_slash_split (s : string) :
  exists k, s = String.append (rstrip_slash s) (slashes k).
Proof.
  induction s as [|c s [k IH]]; [by exists 0%nat|].
  cbn [rstrip_slash]. destruct (rstrip_slash s) as [|c' r] eqn:E.
  - destruct (Ascii.eqb c "/"%char) eqn:Ec.
    + apply Ascii.eqb_eq in Ec. subst c. exists (S k).
      change (String.append EmptyString (slashes (S k)))
        with (String "/"%char (String.append EmptyString (slashes k))).
      f_equal. exact IH.
    + exists k. rewrite append_String. f_equal. exact IH.
  - exists k. rewrite append_String. f_equal. exact IH.
Qed.

Lemma rstrip_slash_no_trailing_slash (s t : string) :
  rstrip_slash s <> String.append t "/".
Proof.
  revert t. induction s as [|c s IH]; intros t H.
  - destruct t; discriminate H.
  - cbn [rstrip_slash] in H. destruct (rstrip_slash s) as [|c' r] eqn:E.
    + destruct (Ascii.eqb c "/"%char) eqn:Ec; [destruct t; discriminate H|].
      destruct t as [|c0 t]; cbn in H.
      * injection H as Hc. subst c. discriminate Ec.
      * injection H as _ H. destruct t; discriminate H.
    + destruct t as [|c0 t]; cbn in H; [discriminate H|].
      injection H as _ H. exact (IH t H).
Qed.

(** X24: a batch client never keeps a trailing slash on its API URL:
    the stored URL is the given one without the slashes at its end, it
    does not end in a slash, the status URL of a job is that URL, one
    slash and the job id, and the API key is sent as the "X-API-Key"
    header.  Without the [requests] library no client is made. *)
Theorem batch_client_url :
  (forall api_url api_key,
      BatchTranscriptionClient_init false api_url api_key = None)
  /\ (forall api_url api_key,
        exists c,
          BatchTranscriptionClient_init true api_url api_key = Some c
          /\ (exists k, api_url = String.append (batch_api_url c) (slashes k))
          /\ (forall t, batch_api_url c <> String.append t "/")
          /\ batch_headers c !! "X-API-Key" = Some api_key
          /\ forall job_id,
               status_url c job_id
               = String.append (rstrip_slash api_url)
                   (String.append "/" job_id)).
Proof.
  split; [reflexivity|].
  intros api_url api_key. eexists. split; [reflexivity|].
  cbn [batch_api_url batch_headers]. split; [apply rstrip_slash_split|].
  split; [apply rstrip_slash_no_trailing_slash|].
  split; [|reflexivity].
  rewrite lookup_insert_ne by discriminate. apply lookup_insert_eq.
Qed.

Lemma resampled_file_name_witness :
  modified_audio_file "recordings/talk.v2.wav"
  = "recordings/talk_modified.wav"
  /\ modified_audio_file "./talk.wav" = "_modified.wav".
Proof.
  split.
  - exact (proj1 (resampled_file_name "recordings/talk.v2.wav")).
  - exact (proj2 (proj2 (proj2 (resampled_file_name "./talk.wav")))
             "/talk.wav").
Defined.

Lemma batch_client_url_witness :
  exists c,
    BatchTranscriptionClient_init true "https://api.talkscriber.com/api/jobs//"
      "key" = Some c
    /\ batch_api_url c = "https://api.talkscriber.com/api/jobs"
    /\ status_url c "42" = "https://api.talkscriber.com/api/jobs/42".
Proof.
  destruct (proj2 batch_client_url
              "https://api.talkscriber.com/api/jobs//" "key")
    as (c & Hc & _ & _ & _ & Hurl).
  exists c. split; [exact Hc|]. split.
  - injection Hc as <-. reflexivity.
  - rewrite Hurl. reflexivity.
Defined.

End NamesAndUrlsProperties.
